(** * The traffic event store of orbiter-analytics (src/src/db.ts)

    A shallow embedding of the [TrafficDB] class: the [traffic] table behind
    the sqlite connection, the append operation, the cursor stream reader and
    the aggregation queries, with the properties the specification states
    about them.

    The SQL statements of db.ts are embedded clause by clause as list
    functions over the rows of the table: [WHERE] is [filter], [ORDER BY] is
    a sort, [LIMIT] is [take], [GROUP BY] collects the distinct keys,
    [COUNT] is [length]. Where SQL leaves an order open (the groups of a
    [GROUP BY], rows that tie in an [ORDER BY]) the embedding takes one;
    no property below depends on which. The [REAL] arithmetic of the
    percentages is IEEE 754 binary64, written out on integers. *)

From Equations.Prop Require Import Equations Logic.
From Stdlib Require Import ZArith Lia.
From Stdlib Require QArith.
From Stdlib Require Reals Lra.
From Stdlib Require PrimFloat FloatOps Uint63Axioms.
From stdpp Require Import base tactics decidable option list sorting strings.

Local Open Scope string_scope.
Local Open Scope list_scope.
Local Open Scope Z_scope.

(** ** Data model *)

(** The argument of [recordTraffic] (interface [TrafficRecord]). An omitted
    optional field is [None]; the driver binds it as SQL [NULL]. *)
Module TrafficRecord.
Record t := mk {
  siteId : string;
  path : option string;
  userAgent : option string;
  ipAddress : option string;
  country : option string;
  city : option string;
  referrer : option string;
  requestType : option string;
  timestamp : option Z
}.
#[global] Instance eq_dec : EqDecision t.
Proof. solve_decision. Defined.
End TrafficRecord.

(** A row of the [traffic] table (interface [TrafficDBRecord], with the
    column names of [CREATE TABLE traffic]). Timestamps are integers:
    [timestamp] in milliseconds, [created_at] in seconds. *)
Record TrafficDBRecord := mkRow {
  id : Z;
  site_id : string;
  timestamp : Z;
  path : option string;
  user_agent : option string;
  ip_address : option string;
  country : option string;
  city : option string;
  referrer : option string;
  request_type : option string;
  created_at : Z
}.

#[global] Instance TrafficDBRecord_eq_dec : EqDecision TrafficDBRecord.
Proof. solve_decision. Defined.

(** The [traffic] table with its [sqlite_sequence] entry (the table is
    declared [id INTEGER PRIMARY KEY AUTOINCREMENT]). [rows] is in insertion
    order. *)
Record Table := mkTable {
  rows : list TrafficDBRecord;
  seq : Z
}.

Definition empty_table : Table := mkTable [] 0.

(** The state of the driver's [Database] object held in [this.db]. *)
Inductive Database := Open | Closed.

(** A [TrafficDB] object with the database it is backed by. [db = None] is
    [this.db === null]. [storage] is the content of the database at
    [dbPath]; for the paths [":memory:"] and [""] every [open] starts a
    fresh one. [unfinalized] is the number of statements that were
    prepared on the connection and not finalized: db.ts finalizes a
    statement after it has run, so one that fails stays on the connection,
    until the garbage collector finalizes it. *)
Record TrafficDB := mkDB {
  dbPath : string;
  db : option Database;
  storage : Table;
  unfinalized : nat
}.

(** [new TrafficDB(dbPath)], where [disk] is what the file at [dbPath]
    holds ([empty_table] when there is none). *)
Definition new_TrafficDB (dbPath : string) (disk : Table) : TrafficDB :=
  mkDB dbPath None disk 0.

(** ** Errors and the state-and-error monad of the methods *)

Inductive Error := JsError (message : string).

Definition NotInitializedError : Error := JsError "Database not initialized".
Definition SqliteMisuse : Error := JsError "SQLITE_MISUSE: Database is closed".
Definition SqliteFull : Error := JsError "SQLITE_FULL: database or disk is full".
Definition SqliteMismatch : Error := JsError "SQLITE_MISMATCH: datatype mismatch".
Definition SqliteBusy : Error :=
  JsError "SQLITE_BUSY: unable to close due to unfinalized statements or unfinished backups".

Inductive Result (A : Type) :=
| Ok (a : A)
| Throw (e : Error).
Arguments Ok {A} a.
Arguments Throw {A} e.

(** A method of [TrafficDB]: it runs on [this] and returns or throws,
    leaving a new [this]. *)
Definition M (A : Type) : Type := TrafficDB → Result A * TrafficDB.

Definition throw {A} (e : Error) : M A := λ self, (Throw e, self).

#[global] Instance M_ret : MRet M := λ A a self, (Ok a, self).
#[global] Instance M_bind : MBind M := λ A B k m self,
  match m self with
  | (Ok a, self') => k a self'
  | (Throw e, self') => (Throw e, self')
  end.

(** [if (!this.db) throw new Error("Database not initialized")] *)
Definition require_db : M Database :=
  λ self, match db self with
          | None => throw NotInitializedError self
          | Some h => (mret h : M Database) self
          end.

(** A statement run through the driver on handle [h]: on a handle that
    was closed the driver (node-sqlite3) rejects every call, [close]
    too, with [SQLITE_MISUSE]; on an open one the statement [stmt] runs
    against the table. This is [db.all] and [db.get], where the driver
    prepares the statement and finalizes it itself, whatever the
    outcome. *)
Definition run_on {A} (h : Database) (stmt : Table → Result A * Table) : M A :=
  λ self, match h with
          | Closed => (Throw SqliteMisuse, self)
          | Open =>
              let '(r, t) := stmt (storage self) in
              (r, mkDB (dbPath self) (db self) t (unfinalized self))
          end.

(** A statement the method prepares, runs and finalizes itself:
    [const stmt = await this.db.prepare(...); await stmt.run(...) (or
    stmt.all(...)); await stmt.finalize();]. On a closed handle [prepare]
    is rejected and there is no statement. On an open one, when the run
    throws, [finalize] is not reached and the statement stays on the
    connection. *)
Definition run_prepared {A} (h : Database) (stmt : Table → Result A * Table)
    : M A :=
  λ self, match h with
          | Closed => (Throw SqliteMisuse, self)
          | Open =>
              match stmt (storage self) with
              | (Ok a, t) =>
                  (Ok a, mkDB (dbPath self) (db self) t (unfinalized self))
              | (Throw e, t) =>
                  (Throw e,
                   mkDB (dbPath self) (db self) t (S (unfinalized self)))
              end
          end.

(** A [SELECT]: it reads the table and leaves it as it is. *)
Definition select {A} (q : Table → A) : Table → Result A * Table :=
  λ t, (Ok (q t), t).

(** ** Lifecycle: [initialize] and [close] *)

(** The paths that do not name a database file: [":memory:"] is a
    database in memory, and the empty path a private temporary database,
    deleted when its connection is closed. Both are empty at every
    [open]. *)
Definition volatile (dbPath : string) : Prop :=
  dbPath = ":memory:" ∨ dbPath = "".

#[global] Instance volatile_dec dbPath : Decision (volatile dbPath).
Proof. unfold volatile. apply _. Defined.

(** [initialize]: open the database at [dbPath] and run
    [CREATE TABLE IF NOT EXISTS traffic ...; CREATE INDEX IF NOT EXISTS ...].
    A table that exists is kept; a database in memory and a temporary one
    start empty. The connection is a new one, with no statement on
    it. *)
Definition initialize : M unit :=
  λ self,
    let t := if decide (volatile (dbPath self)) then empty_table
             else storage self in
    (Ok tt, mkDB (dbPath self) (Some Open) t 0).

(** [close]: [if (this.db) { await this.db.close(); }]. The field
    [this.db] is not reset. The driver does not close a connection that
    has statements which are not finalized: it rejects with
    [SQLITE_BUSY], and the connection stays open. *)
Definition close : M unit :=
  λ self, match db self with
          | None => (Ok tt, self)
          | Some Open =>
              if decide (unfinalized self = 0%nat)
              then (Ok tt, mkDB (dbPath self) (Some Closed) (storage self) 0)
              else (Throw SqliteBusy, self)
          | Some Closed => (Throw SqliteMisuse, self)
          end.

(** ** Append: [recordTraffic] *)

Definition max_rowid (l : list TrafficDBRecord) : Z :=
  foldr (λ r m, Z.max (id r) m) 0 l.

Definition MAX_ROWID : Z := 9223372036854775807.

(** [INSERT INTO traffic (site_id, timestamp, path, user_agent, ip_address,
    country, city, referrer, request_type) VALUES (?, ...)] at engine time
    [now_s] (the default [unixepoch()] of [created_at]). AUTOINCREMENT
    gives the row an id one above the largest id the table ever held. *)
Definition insert_traffic (now_s : Z) (siteId : string) (ts : Z)
    (rec : TrafficRecord.t) (t : Table) : Result unit * Table :=
  let last := Z.max (seq t) (max_rowid (rows t)) in
  if decide (MAX_ROWID ≤ last) then (Throw SqliteFull, t)
  else
    let r := {| id := last + 1;
                site_id := siteId;
                timestamp := ts;
                path := TrafficRecord.path rec;
                user_agent := TrafficRecord.userAgent rec;
                ip_address := TrafficRecord.ipAddress rec;
                country := TrafficRecord.country rec;
                city := TrafficRecord.city rec;
                referrer := TrafficRecord.referrer rec;
                request_type := TrafficRecord.requestType rec;
                created_at := now_s |} in
    (Ok tt, mkTable (rows t ++ [r]) (last + 1)).

(** [recordTraffic(rec)] called when [Date.now()] is [now_ms] and the
    engine clock is [now_s]. *)
Definition recordTraffic (now_ms now_s : Z) (rec : TrafficRecord.t) : M unit :=
  let ts := default now_ms (TrafficRecord.timestamp rec) in
  h ← require_db;
  run_prepared h (insert_traffic now_s (TrafficRecord.siteId rec) ts rec).

(** ** The cursor stream reader: [queryTrafficStream] and [queryTraffic] *)

(** [WHERE site_id = ? AND timestamp >= ? AND timestamp <= ?] *)
Definition in_window (siteId : string) (startTime endTime : Z)
    (r : TrafficDBRecord) : Prop :=
  site_id r = siteId ∧ startTime ≤ timestamp r ∧ timestamp r ≤ endTime.

#[global] Instance in_window_dec siteId startTime endTime r :
  Decision (in_window siteId startTime endTime r).
Proof. unfold in_window. apply _. Defined.

(** [ORDER BY id ASC] *)
Definition id_le (a b : TrafficDBRecord) : Prop := id a ≤ id b.

#[global] Instance id_le_dec a b : Decision (id_le a b).
Proof. unfold id_le. apply _. Defined.

Definition order_by_id (l : list TrafficDBRecord) : list TrafficDBRecord :=
  merge_sort id_le l.

(** [LIMIT n], for an integer [n] as the engine has it, a 64-bit one: a
    negative bound is no bound. *)
Definition sql_limit {A} (n : Z) (l : list A) : list A :=
  if decide (n < 0) then l else take (Z.to_nat n) l.

(** The integer the engine has for [LIMIT ?] when the number [n] is bound
    to it. The driver binds a number outside the 32-bit integers as a
    float, and the engine takes a float for [LIMIT] only when it is an
    integer strictly between [-2^63] and [2^63]; for another one the
    statement fails with [SQLITE_MISMATCH]. *)
Definition bound_limit (n : Z) : Result Z :=
  if decide (- 2 ^ 63 < n < 2 ^ 63) then Ok n else Throw SqliteMismatch.

(** The batch statement of the stream:
    [SELECT * FROM traffic WHERE site_id = ? AND timestamp >= ?
     AND timestamp <= ? AND id > ? ORDER BY id ASC LIMIT ?] *)
Definition select_batch (siteId : string) (startTime endTime lastId batchSize : Z)
    (t : Table) : list TrafficDBRecord :=
  sql_limit batchSize
    (order_by_id
       (filter (λ r, in_window siteId startTime endTime r ∧ lastId < id r)
               (rows t))).

(** [for (const record of batch) { yield record; lastId = record.id; }] *)
Definition advance (lastId : Z) (batch : list TrafficDBRecord) : Z :=
  foldl (λ _ r, id r) lastId batch.

(** The rows the cursor has not passed yet; their number is what the
    loop of the stream decreases. *)
Definition beyond (lastId : Z) (t : Table) : list TrafficDBRecord :=
  filter (λ r, lastId < id r) (rows t).

Lemma advance_last lastId batch r :
  last batch = Some r → advance lastId batch = id r.
Proof.
  unfold advance. revert lastId.
  induction batch as [|x batch IH]; intros lastId Hl; [done|].
  destruct batch as [|y batch]; simpl in *; [by simplify_eq | by apply IH].
Qed.

Lemma select_batch_elem siteId startTime endTime lastId batchSize t r :
  r ∈ select_batch siteId startTime endTime lastId batchSize t →
  r ∈ rows t ∧ in_window siteId startTime endTime r ∧ lastId < id r.
Proof.
  unfold select_batch, sql_limit, order_by_id. intros Hr.
  assert (r ∈ merge_sort id_le
            (filter (λ r, in_window siteId startTime endTime r ∧ lastId < id r)
               (rows t))) as Hm.
  { case_decide; [done|]. by eapply subseteq_take. }
  rewrite merge_sort_Permutation in Hm.
  apply list_elem_of_filter in Hm as [[? ?] ?]. done.
Qed.

Lemma beyond_advance siteId startTime endTime lastId batchSize t r batch :
  select_batch siteId startTime endTime lastId batchSize t = r :: batch →
  (length (beyond (advance lastId (r :: batch)) t)
   < length (beyond lastId t))%nat.
Proof.
  intros Hb.
  destruct (last (r :: batch)) as [x|] eqn:Hx;
    [|by apply last_None in Hx].
  rewrite (advance_last _ _ x Hx).
  assert (x ∈ select_batch siteId startTime endTime lastId batchSize t) as Hin.
  { rewrite Hb. by apply last_Some_elem_of. }
  apply select_batch_elem in Hin as (Hrows & _ & Hlt).
  unfold beyond.
  rewrite <-(list_filter_filter_l (λ r, id x < id r) (λ r, lastId < id r))
    by (intros; lia).
  apply (length_filter_lt _ _ x); [|lia].
  apply list_elem_of_filter. done.
Qed.

(** The loop of [queryTrafficStream] from cursor [lastId] on: the records
    it yields, in the order it yields them. It ends: every round with a
    non-empty batch moves the cursor past a row it had not passed. *)
Equations stream_from (siteId : string) (startTime endTime batchSize : Z)
    (t : Table) (lastId : Z) : list TrafficDBRecord
    by wf (length (beyond lastId t)) lt :=
  stream_from siteId startTime endTime batchSize t lastId
    with inspect (select_batch siteId startTime endTime lastId batchSize t) := {
    | exist _ [] _ => [];
    | exist _ (r :: batch) Hb =>
        (r :: batch) ++
        stream_from siteId startTime endTime batchSize t
          (advance lastId (r :: batch)) }.
Next Obligation.
  intros. eapply beyond_advance. exact Hb.
Qed.

(** [queryTrafficStream({siteId, startTime, endTime, batchSize = 1000})]:
    the sequence of records the generator yields when it is consumed to its
    end, the table being the same for every batch. With a [batchSize]
    that [LIMIT ?] does not take, the statement of the first batch fails,
    before any record is yielded, and is not finalized. *)
Definition queryTrafficStream (siteId : string) (startTime endTime : Z)
    (batchSize : option Z) : M (list TrafficDBRecord) :=
  let batchSize := default 1000 batchSize in
  h ← require_db;
  run_prepared h (λ t,
    match bound_limit batchSize with
    | Ok limit =>
        select (λ t, stream_from siteId startTime endTime limit t 0) t
    | Throw e => (Throw e, t)
    end).

(** [queryTraffic(params)]: push every record of the stream on [results]. *)
Definition queryTraffic (siteId : string) (startTime endTime : Z)
    (batchSize : option Z) : M (list TrafficDBRecord) :=
  records ← queryTrafficStream siteId startTime endTime batchSize;
  mret (foldl (λ results record, results ++ [record]) [] records).

(** ** Well-formed tables *)

Definition id_lt (a b : TrafficDBRecord) : Prop := id a < id b.

(** What [id INTEGER PRIMARY KEY AUTOINCREMENT] keeps true of a table that
    only this class writes: ids are positive, never above the sequence
    value, and strictly ascending in insertion order. *)
Record table_ok (t : Table) : Prop := {
  ok_sorted : StronglySorted id_lt (rows t);
  ok_range : Forall (λ r, 0 < id r ≤ seq t) (rows t);
  ok_seq : 0 ≤ seq t
}.

(** [t'] holds the rows of [t], unchanged and in place, followed by rows
    with ids the table [t] had never given out. *)
Definition extends (t t' : Table) : Prop :=
  seq t ≤ seq t' ∧
  ∃ new, rows t' = rows t ++ new ∧ Forall (λ r, seq t < id r) new.

(** ** Dates of the engine *)

(** A date value of the engine is represented by its day number, the
    number of days since 1970-01-01, and rendered as text by [date_text].
    The engine's date functions are specified for the dates 0000-01-01 to
    9999-12-31, and these are the dates of this model. Past 9999-12-31
    they give [NULL], here [None]. Before 0000-01-01 the engine gives texts
    with a negative year, such as '-0001-12-31', down to -4713-11-24, and
    [NULL] below; these texts are not modelled, and [None] stands for all
    of them. Such a text is neither equal to the text of a date from
    0000-01-01 on nor above one, and neither is [NULL]: the daily views of
    the model are those of the engine whenever the start of the range is
    not before 0000-01-01, whatever the end of the range and the creation
    times of the events are. The theorems that give the rows of the daily
    views take the start of the range from 0000-01-01 on. *)
Definition DAY_MIN : Z := -719528.
Definition DAY_MAX : Z := 2932896.

(** [date(secs, 'unixepoch')] *)
Definition sql_date (secs : Z) : option Z :=
  let d := secs / 86400 in
  if decide (DAY_MIN ≤ d ≤ DAY_MAX) then Some d else None.

(** [date(d, '+1 day')] *)
Definition sql_date_plus_1_day (d : option Z) : option Z :=
  match d with
  | Some a => if decide (DAY_MIN ≤ a + 1 ≤ DAY_MAX) then Some (a + 1) else None
  | None => None
  end.

(** The (year, month, day) of a day number in the proleptic Gregorian
    calendar. *)
Definition civil_from_days (z : Z) : Z * Z * Z :=
  let z := z + 719468 in
  let era := z / 146097 in
  let doe := z - era * 146097 in
  let yoe := (doe - doe / 1460 + doe / 36524 - doe / 146096) / 365 in
  let y := yoe + era * 400 in
  let doy := doe - (365 * yoe + yoe / 4 - yoe / 100) in
  let mp := (5 * doy + 2) / 153 in
  let d := doy - (153 * mp + 2) / 5 + 1 in
  let m := if decide (mp < 10) then mp + 3 else mp - 9 in
  (if decide (m ≤ 2) then y + 1 else y, m, d).

Definition digit (n : Z) : Ascii.ascii := Ascii.ascii_of_nat (Z.to_nat (48 + n)).

Definition pad2 (n : Z) : string :=
  String (digit (n / 10)) (String (digit (n mod 10)) "").

Definition pad4 (n : Z) : string :=
  (pad2 (n / 100) +:+ pad2 (n mod 100))%string.

(** The text ['YYYY-MM-DD'] of a date. *)
Definition date_text (z : Z) : string :=
  let '(y, m, d) := civil_from_days z in
  (pad4 y +:+ "-" +:+ pad2 m +:+ "-" +:+ pad2 d)%string.

(** The order of dates as (year, month, day). *)
Definition date_lt (a b : Z * Z * Z) : Prop :=
  a.1.1 < b.1.1 ∨
  (a.1.1 = b.1.1 ∧ (a.1.2 < b.1.2 ∨ (a.1.2 = b.1.2 ∧ a.2 < b.2))).

(** The days of an era of 400 years before its year [yoe]. *)
Definition days_before_year (yoe : Z) : Z := 365 * yoe + yoe / 4 - yoe / 100.

(** ** Daily views: [getDailyViews] and [getDailyViewsByPath] *)

Module DailyViews.
Record t := mk {
  date : option string;
  count : nat
}.
End DailyViews.

(** The distance of a date from the end of the spine, which the recursion
    of the [dates] table decreases. *)
Definition days_left (date stop : option Z) : nat :=
  match date, stop with
  | Some a, Some b => Z.to_nat (b - a)
  | _, _ => 0%nat
  end.

(** The recursive table
    [WITH RECURSIVE dates(date) AS (SELECT date(?, 'unixepoch') UNION ALL
     SELECT date(date, '+1 day') FROM dates WHERE date < date(?, 'unixepoch'))]
    from the row [date] on: the row itself, and the rows the recursive
    step adds for it. A comparison with [NULL] is not true. *)
Equations? dates_from (date stop : option Z) : list (option Z)
    by wf (days_left date stop) lt :=
  dates_from (Some a) (Some b) with decide (a < b) := {
    | left _ => Some a :: dates_from (sql_date_plus_1_day (Some a)) (Some b);
    | right _ => [Some a] };
  dates_from date _ := [date].
Proof.
  unfold sql_date_plus_1_day. case_decide; simpl; lia.
Qed.

Definition dates (start_s end_s : Z) : list (option Z) :=
  dates_from (sql_date start_s) (sql_date end_s).

(** The join condition [traffic.site_id = ? AND
    date(traffic.created_at, 'unixepoch') = dates.date], with the extra
    conjunct [extra] of [getDailyViewsByPath]. An equality with [NULL] is
    not true. *)
Definition joins (siteId : string) (extra : TrafficDBRecord → Prop)
    (date : option Z) (r : TrafficDBRecord) : Prop :=
  site_id r = siteId ∧
  (is_Some date ∧ sql_date (created_at r) = date) ∧
  extra r.

#[global] Instance joins_dec siteId extra `{∀ r, Decision (extra r)} date r :
  Decision (joins siteId extra date r).
Proof. unfold joins. apply _. Defined.

(** [SELECT dates.date, COUNT(traffic.id) as count FROM dates
     LEFT JOIN traffic ON (...) GROUP BY dates.date ORDER BY dates.date ASC].
    The dates of the spine are distinct and ascending, so each is a group
    of its own and the order of the spine is the order of the result. *)
Definition daily_views (siteId : string) (extra : TrafficDBRecord → Prop)
    `{∀ r, Decision (extra r)} (start_s end_s : Z) (t : Table)
    : list DailyViews.t :=
  (λ date, DailyViews.mk (date_text <$> date)
             (length (filter (joins siteId extra date) (rows t))))
  <$> dates start_s end_s.

(** [getDailyViews({siteId, startTime, endTime})], the bounds being
    [Math.floor(startTime / 1000)] and [Math.floor(endTime / 1000)]. *)
Definition getDailyViews (siteId : string) (startTime endTime : Z)
    : M (list DailyViews.t) :=
  h ← require_db;
  run_on h (select (daily_views siteId (λ _, True)
                      (startTime / 1000) (endTime / 1000))).

(** JavaScript truthiness of an optional string: [undefined] and [""] are
    falsy. *)
Definition truthy (s : option string) : Prop :=
  match s with
  | Some s => s ≠ ""
  | None => False
  end.

#[global] Instance truthy_dec s : Decision (truthy s).
Proof. destruct s; simpl; apply _. Defined.

(** [getDailyViewsByPath({siteId, startTime, endTime, path})]: the join has
    the conjunct [traffic.path = ?] when [path] is truthy. *)
Definition getDailyViewsByPath (siteId : string) (startTime endTime : Z)
    (path_ : option string) : M (list DailyViews.t) :=
  h ← require_db;
  if decide (truthy path_) then
    run_on h (select (daily_views siteId (λ r, path r = path_)
                        (startTime / 1000) (endTime / 1000)))
  else
    run_on h (select (daily_views siteId (λ _, True)
                        (startTime / 1000) (endTime / 1000))).

(** ** Grouped counts *)

(** [SELECT key, COUNT( * ) ... GROUP BY key] over the key column [keys]
    of the selected rows: every distinct key (a [NULL] key is a group like
    any other), with the number of rows that have it. *)
Definition group_count (keys : list (option string))
    : list (option string * nat) :=
  (λ k, (k, length (filter (k =.) keys))) <$> remove_dups keys.

(** [COALESCE(key, placeholder)] *)
Definition coalesce (placeholder : string) (k : option string) : string :=
  default placeholder k.

(** [ORDER BY count DESC]. The engine leaves the order of rows with the
    same count open; the sort below puts them in some order, and nothing
    that is proved about a sorted result depends on which. *)
Definition count_ge {A} (a b : A * nat) : Prop := (b.2 ≤ a.2)%nat.

#[global] Instance count_ge_dec {A} (a b : A * nat) : Decision (count_ge a b).
Proof. unfold count_ge. apply _. Defined.

Definition order_by_count_desc {A} (l : list (A * nat)) : list (A * nat) :=
  merge_sort count_ge l.

(** The common table [WITH x_counts AS (SELECT COALESCE(x, placeholder) as
    x, COUNT( * ) as count FROM traffic WHERE site_id = ? AND timestamp >= ?
    AND timestamp <= ? GROUP BY x)] of the breakdowns, for the column
    [col]. *)
Definition key_counts (col : TrafficDBRecord → option string)
    (placeholder : string) (siteId : string) (startTime endTime : Z)
    (t : Table) : list (string * nat) :=
  (λ kc, (coalesce placeholder kc.1, kc.2))
  <$> group_count (col <$> filter (in_window siteId startTime endTime) (rows t)).

(** ** Summary stats: [getTrafficStats] *)

Record TrafficStats := mkStats {
  total_requests : nat;
  unique_visitors : nat;
  total_website_requests : nat;
  total_server_requests : nat;
  top_referrers : list (string * nat)
}.

(** [SELECT COUNT( * ), COUNT(DISTINCT ip_address),
     COUNT(CASE WHEN request_type = 'static' OR request_type IS NULL THEN 1 END),
     COUNT(CASE WHEN request_type = 'api' THEN 1 END)
     FROM traffic WHERE site_id = ? AND timestamp >= ? AND timestamp <= ?]
    and the top referrers
    [SELECT COALESCE(referrer, '(direct)') as referrer, COUNT( * ) as count
     ... GROUP BY referrer ORDER BY count DESC LIMIT 10]. *)
Definition traffic_stats (siteId : string) (startTime endTime : Z)
    (t : Table) : TrafficStats :=
  let matching := filter (in_window siteId startTime endTime) (rows t) in
  {| total_requests := length matching;
     unique_visitors := length (remove_dups (omap ip_address matching));
     total_website_requests :=
       length (filter (λ r, request_type r = Some "static" ∨
                            request_type r = None) matching);
     total_server_requests :=
       length (filter (λ r, request_type r = Some "api") matching);
     top_referrers :=
       sql_limit 10
         (order_by_count_desc
            (key_counts referrer "(direct)" siteId startTime endTime t)) |}.

Definition getTrafficStats (siteId : string) (startTime endTime : Z)
    : M TrafficStats :=
  h ← require_db;
  run_on h (select (traffic_stats siteId startTime endTime)).

(** ** Breakdowns: [getReferrerBreakdown], [getPathsBreakdown],
    [getCountryBreakdown] *)

(** A row of a breakdown: the key ([referrer], [path] or [country]), its
    count, and its percentage in hundredths of a percent ([Some 1250] is
    12.50); [None] is [NULL]. *)
Module Breakdown.
Record t := mk {
  key : string;
  count : nat;
  percentage : option Z
}.
End Breakdown.

(** [SELECT SUM(count) as total FROM x_counts]: [NULL] over no rows. *)
Definition sql_sum (counts : list nat) : option nat :=
  match counts with
  | [] => None
  | _ => Some (sum_list counts)
  end.

(** ** Floating point numbers of the engine

    A [REAL] of the engine is an IEEE 754 binary64 number. The numbers
    that the percentages go through are positive or zero and far from
    the ends of the exponent range, so a number is represented by the
    integer [mantissa] and the [exponent] of [mantissa * 2 ^ exponent],
    the mantissa of a number other than zero having 53 bits, and the
    exponent is not bounded. *)
Record Double := mkDouble { mantissa : Z; exponent : Z }.

(** The integer nearest to [n / d], the even one of two that are equally
    near (the rounding of IEEE 754 arithmetic). *)
Definition round_nearest_even (n d : Z) : Z :=
  let q := n / d in
  let r := n mod d in
  if decide (2 * r < d) then q
  else if decide (d < 2 * r) then q + 1
  else if Z.even q then q else q + 1.

(** [n / d / 2 ^ e] as a fraction of integers. *)
Definition scaled_num (n e : Z) : Z := n * 2 ^ Z.max 0 (- e).
Definition scaled_den (d e : Z) : Z := d * 2 ^ Z.max 0 e.

(** The number [m * 2 ^ e] for a mantissa [m] from [2 ^ 52] to [2 ^ 53]:
    the mantissa [2 ^ 53], which a rounding upwards can give, has 54 bits
    and is carried into the exponent. *)
Definition normalize (m e : Z) : Double :=
  if decide (m = 2 ^ 53) then mkDouble (2 ^ 52) (e + 1) else mkDouble m e.

(** The binary64 number nearest to [n / d], for [0 ≤ n] and [0 < d]: the
    exponent [e] is the one with [2 ^ 52 ≤ n / d / 2 ^ e < 2 ^ 53]. *)
Definition round53 (n d : Z) : Double :=
  if decide (0 < n) then
    let e0 := Z.log2 n - Z.log2 d - 53 in
    let e := if decide (scaled_num n e0 < 2 ^ 53 * scaled_den d e0)
             then e0 else e0 + 1 in
    normalize (round_nearest_even (scaled_num n e) (scaled_den d e)) e
  else mkDouble 0 0.

(** [CAST(c AS FLOAT)] of an integer [c], and the integer 100 where it
    meets a [REAL]. *)
Definition of_int (c : Z) : Double := round53 c 1.

(** [x / y] and [x * y] on [REAL]s. *)
Definition fdiv (x y : Double) : Double :=
  let r := round53 (mantissa x) (mantissa y) in
  mkDouble (mantissa r) (exponent r + exponent x - exponent y).

Definition fmul (x y : Double) : Double :=
  let r := round53 (mantissa x * mantissa y) 1 in
  mkDouble (mantissa r) (exponent r + exponent x + exponent y).

(** [ROUND(x, 2)], in hundredths: the hundredth nearest to the number [x]
    itself, a half rounded away from zero. *)
Definition round_hundredths (x : Double) : Z :=
  (2 * scaled_num (100 * mantissa x) (- exponent x)
   + scaled_den 1 (- exponent x))
  / (2 * scaled_den 1 (- exponent x)).

(** The real number a [Double] stands for. *)
Definition double_value (x : Double) : Rdefinitions.R :=
  Rdefinitions.Rmult (Rdefinitions.IZR (mantissa x))
                     (Rfunctions.powerRZ (Rdefinitions.IZR 2) (exponent x)).

(** [ROUND(CAST(count AS FLOAT) / total * 100, 2)], in hundredths: the
    count is made a [REAL], divided by the total, the quotient multiplied
    by 100, each operation rounding to the nearest binary64 number, and
    the product rounded to hundredths. Arithmetic on [NULL] and a division
    by zero give [NULL]. *)
Definition round_percentage (count : nat) (total : option nat) : option Z :=
  match total with
  | Some (S n) =>
      Some (round_hundredths
              (fmul (fdiv (of_int (Z.of_nat count)) (of_int (Z.of_nat (S n))))
                    (of_int 100)))
  | _ => None
  end.

(** The same product in the binary64 arithmetic of the machine, for
    comparison: the number it gives, if it is positive or zero and
    finite. *)
Definition hardware_double (f : PrimFloat.float) : option Double :=
  match FloatOps.Prim2SF f with
  | SpecFloat.S754_zero false => Some (mkDouble 0 0)
  | SpecFloat.S754_finite false m e => Some (mkDouble (Zpos m) e)
  | _ => None
  end.

Definition hardware_percentage (c T : Z) : option Double :=
  hardware_double
    (PrimFloat.mul
       (PrimFloat.div (PrimFloat.of_uint63 (Uint63Axioms.of_Z c))
                      (PrimFloat.of_uint63 (Uint63Axioms.of_Z T)))
       (PrimFloat.of_uint63 (Uint63Axioms.of_Z 100))).

Definition same_number (x : Double) (y : option Double) : bool :=
  match y with
  | Some y => bool_decide (mantissa x = 0 ∧ mantissa y = 0
                           ∨ mantissa x = mantissa y ∧ exponent x = exponent y)
  | None => false
  end.

(** The counts [c ≤ T] for the totals [T] of [totals]. *)
Definition counts_of (totals : list Z) : list (Z * Z) :=
  T ← totals; c ← seqZ 0 (T + 1); [(c, T)].

(** [SELECT x_counts.x, x_counts.count, ROUND(...) as percentage
     FROM x_counts, total_count ORDER BY count DESC] *)
Definition breakdown (col : TrafficDBRecord → option string)
    (placeholder : string) (siteId : string) (startTime endTime : Z)
    (t : Table) : list Breakdown.t :=
  let counts := key_counts col placeholder siteId startTime endTime t in
  let total_count := [sql_sum counts.*2] in
  (λ row : string * nat * option nat,
     Breakdown.mk row.1.1 row.1.2 (round_percentage row.1.2 row.2))
  <$> merge_sort (λ a b, count_ge a.1 b.1)
        (c ← counts; total ← total_count; [(c, total)]).

Definition getReferrerBreakdown (siteId : string) (startTime endTime : Z)
    : M (list Breakdown.t) :=
  h ← require_db;
  run_on h (select (breakdown referrer "(direct)" siteId startTime endTime)).

Definition getPathsBreakdown (siteId : string) (startTime endTime : Z)
    : M (list Breakdown.t) :=
  h ← require_db;
  run_on h (select (breakdown path "(no path)" siteId startTime endTime)).

Definition getCountryBreakdown (siteId : string) (startTime endTime : Z)
    : M (list Breakdown.t) :=
  h ← require_db;
  run_on h (select (breakdown country "(unknown)" siteId startTime endTime)).

(** ** Latest events: [getLatestTraffic] *)

(** [SELECT * FROM traffic [WHERE site_id = ?] ORDER BY id DESC LIMIT 100],
    the condition being there when [siteId] is truthy. *)
Definition getLatestTraffic (siteId : option string)
    : M (list TrafficDBRecord) :=
  h ← require_db;
  run_on h (select (λ t,
    let selected :=
      if decide (truthy siteId)
      then filter (λ r, Some (site_id r) = siteId) (rows t)
      else rows t in
    sql_limit 100 (reverse (order_by_id selected)))).

(** ** The batch sizes of the stream *)

(** The batch sizes [LIMIT ?] takes: none given (the default is 1000), or
    an integer strictly between [-2^63] and [2^63]. *)
Definition limit_ok (batchSize : option Z) : Prop :=
  ∀ n, batchSize = Some n → - 2 ^ 63 < n < 2 ^ 63.

(** ** What the specification asks of a breakdown report *)

(** The sum of the percentages of a report, in hundredths. *)
Definition total_percentage (report : list Breakdown.t) : Z :=
  foldr (λ row acc, default 0 (Breakdown.percentage row) + acc) 0 report.

(** [count / total * 100] rounded to two decimal places, in hundredths
    and in exact arithmetic, a half rounded away from zero. *)
Definition nearest_hundredth (count total : nat) : Z :=
  (2 * (Z.of_nat count * 10000) + Z.of_nat total) / (2 * Z.of_nat total).

(** The percentage of a row with [count] of [total] events is a number of
    hundredths [p] within 0.005 * (1 + 10^-9) of [count / total * 100];
    when there are fewer than 10^10 events it is within 0.005, so that no
    hundredth is nearer. *)
Definition percentage_ok (count total : nat) (percentage : option Z) : Prop :=
  ∃ p, percentage = Some p ∧
       2 * 10 ^ 9 * Z.abs (p * Z.of_nat total - 10000 * Z.of_nat count)
       ≤ (10 ^ 9 + 1) * Z.of_nat total ∧
       (Z.of_nat total < 10 ^ 10 →
        Z.abs (2 * (p * Z.of_nat total - 10000 * Z.of_nat count))
        ≤ Z.of_nat total).

(** A report over [total] matching events: the counts add up to [total];
    the rows are in descending order of count; the report is empty when
    [total] is 0; otherwise every row has a percentage as above, and the
    percentages add up to 100.00 up to half a hundredth per row. *)
Definition report_ok (total : nat) (report : list Breakdown.t) : Prop :=
  sum_list (Breakdown.count <$> report) = total ∧
  StronglySorted (λ a b, Breakdown.count b ≤ Breakdown.count a)%nat report ∧
  (total = 0%nat → report = []) ∧
  ((0 < total)%nat →
   (∀ row, row ∈ report →
      percentage_ok (Breakdown.count row) total (Breakdown.percentage row)) ∧
   Z.abs (2 * (total_percentage report - 10000)) ≤ Z.of_nat (length report)).

(** ** What the specification asks of the daily views *)

(** The range of event times whose date the engine has: from
    0000-01-01T00:00:00.000Z to 9999-12-31T23:59:59.999Z. *)
Definition DATE_MIN_MS : Z := -62167219200000.
Definition DATE_MAX_MS : Z := 253402300799999.

(** Two times, in milliseconds and not before 0000-01-01, of which the
    engine has the same date: they are on the same day, or both are past
    9999-12-31, where there is no date. *)
Definition same_date (x y : Z) : Prop :=
  DATE_MIN_MS ≤ x ∧ DATE_MIN_MS ≤ y ∧
  (x / 1000 / 86400 = y / 1000 / 86400 ∨ (DATE_MAX_MS < x ∧ DATE_MAX_MS < y)).

(** The order of text values (the engine compares them byte by byte). *)
Definition text_lt (s1 s2 : string) : Prop := String.compare s1 s2 = Lt.

(** Two rows of daily views of which the first has the earlier date. *)
Definition date_ascending (v w : DailyViews.t) : Prop :=
  match DailyViews.date v, DailyViews.date w with
  | Some x, Some y => text_lt x y
  | _, _ => False
  end.

(** The row of day [d] for site [siteId]: its date as text, and the number
    of events of the site, with [keep], whose [created_at] is on that
    day. *)
Definition day_row (siteId : string) (keep : TrafficDBRecord → Prop)
    `{∀ r, Decision (keep r)} (t : Table) (d : Z) : DailyViews.t :=
  DailyViews.mk (Some (date_text d))
    (length (filter (λ r, site_id r = siteId ∧ created_at r / 86400 = d ∧ keep r)
                    (rows t))).

(** The store with the timestamp of every event [r] replaced by [f r]. *)
Definition retime (f : TrafficDBRecord → Z) (self : TrafficDB) : TrafficDB :=
  mkDB (dbPath self) (db self)
    (mkTable
       ((λ r, mkRow (id r) (site_id r) (f r) (path r) (user_agent r)
                (ip_address r) (country r) (city r) (referrer r)
                (request_type r) (created_at r)) <$> rows (storage self))
       (seq (storage self)))
    (unfinalized self).

(** ** The methods as calls *)

(** A call of a method of [TrafficDB] with its arguments; [now_ms] and
    [now_s] are the clocks [recordTraffic] reads. *)
Inductive Call :=
| Initialize
| Close
| RecordTraffic (now_ms now_s : Z) (rec : TrafficRecord.t)
| QueryTrafficStream (siteId : string) (startTime endTime : Z) (batchSize : option Z)
| QueryTraffic (siteId : string) (startTime endTime : Z) (batchSize : option Z)
| GetDailyViews (siteId : string) (startTime endTime : Z)
| GetDailyViewsByPath (siteId : string) (startTime endTime : Z) (path_ : option string)
| GetTrafficStats (siteId : string) (startTime endTime : Z)
| GetReferrerBreakdown (siteId : string) (startTime endTime : Z)
| GetPathsBreakdown (siteId : string) (startTime endTime : Z)
| GetLatestTraffic (siteId : option string)
| GetCountryBreakdown (siteId : string) (startTime endTime : Z).

#[global] Instance Call_eq_dec : EqDecision Call.
Proof. solve_decision. Defined.

(** How a method ended ([None]: it returned; [Some e]: it threw [e]) and
    the store it left. *)
Definition outcome {A} (m : M A) (self : TrafficDB) : option Error * TrafficDB :=
  match m self with
  | (Ok _, self') => (None, self')
  | (Throw e, self') => (Some e, self')
  end.

Definition call (c : Call) : TrafficDB → option Error * TrafficDB :=
  match c with
  | Initialize => outcome initialize
  | Close => outcome close
  | RecordTraffic now_ms now_s rec => outcome (recordTraffic now_ms now_s rec)
  | QueryTrafficStream siteId s e b => outcome (queryTrafficStream siteId s e b)
  | QueryTraffic siteId s e b => outcome (queryTraffic siteId s e b)
  | GetDailyViews siteId s e => outcome (getDailyViews siteId s e)
  | GetDailyViewsByPath siteId s e p => outcome (getDailyViewsByPath siteId s e p)
  | GetTrafficStats siteId s e => outcome (getTrafficStats siteId s e)
  | GetReferrerBreakdown siteId s e => outcome (getReferrerBreakdown siteId s e)
  | GetPathsBreakdown siteId s e => outcome (getPathsBreakdown siteId s e)
  | GetLatestTraffic siteId => outcome (getLatestTraffic siteId)
  | GetCountryBreakdown siteId s e => outcome (getCountryBreakdown siteId s e)
  end.

(** What happens to a store: a method is called, or the garbage collector
    finalizes the statements that were left on the connection. *)
Inductive Event :=
| Method (c : Call)
| Collect.

#[global] Instance Event_eq_dec : EqDecision Event.
Proof. solve_decision. Defined.

Definition collect (self : TrafficDB) : TrafficDB :=
  mkDB (dbPath self) (db self) (storage self) 0.

Definition step (ev : Event) (self : TrafficDB) : TrafficDB :=
  match ev with
  | Method c => (call c self).2
  | Collect => collect self
  end.

(** The store after a sequence of events, whether the calls return or
    throw. *)
Definition run (events : list Event) (self : TrafficDB) : TrafficDB :=
  foldl (λ self ev, step ev self) self events.

(** ** An example store *)

(** A store as the running service has it: opened on [traffic.db], with
    three events of two sites recorded through [recordTraffic]. *)
Definition visit (siteId : string) (ts : Z) (p r ty : option string)
    : TrafficRecord.t :=
  TrafficRecord.mk siteId p None (Some "10.0.0.1") None None r ty (Some ts).

Definition example_store : TrafficDB :=
  let s0 := (initialize (new_TrafficDB "traffic.db" empty_table)).2 in
  let s1 := (recordTraffic 0 86400 (visit "site-a" 1000 (Some "/") None None) s0).2 in
  let s2 := (recordTraffic 0 86400 (visit "site-b" 2000 None None (Some "api")) s1).2 in
  (recordTraffic 0 172800 (visit "site-a" 3000 (Some "/blog") (Some "https://google.com") (Some "api")) s2).2.

(** The first event of [example_store]: neither referrer nor country. *)
Definition first_visit : TrafficDBRecord :=
  mkRow 1 "site-a" 1000 (Some "/") None (Some "10.0.0.1") None None None None
        86400.

(** A store with 160 events of site-a, of which the first 23 came from a
    referrer. *)
Definition referred_visit (i : nat) : TrafficDBRecord :=
  mkRow (Z.of_nat i) "site-a" 1000 (Some "/") None (Some "10.0.0.1") None None
        (if decide (i ≤ 23)%nat then Some "https://example.com" else None)
        None 86400.

Definition busy_store : TrafficDB :=
  mkDB "traffic.db" (Some Open)
       (mkTable (referred_visit <$> List.seq 1 160) 160) 0.

(** The store of the service after [initialize], and after a [close]. *)
Definition opened_store : TrafficDB :=
  (initialize (new_TrafficDB "traffic.db" empty_table)).2.

Definition closed_store : TrafficDB := (close opened_store).2.

(** ** Further notions for the store *)

(** The rows [getLatestTraffic] selects from: those of the site when
    [siteId] is truthy, every row otherwise. *)
Definition selected_rows (siteId : option string) (t : Table)
    : list TrafficDBRecord :=
  if decide (truthy siteId)
  then filter (λ r, Some (site_id r) = siteId) (rows t)
  else rows t.

(** The row a [recordTraffic(rec)] that returns adds to table [t], when
    [Date.now()] is [now_ms] and the engine clock [now_s]. *)
Definition recorded (now_ms now_s : Z) (rec : TrafficRecord.t) (t : Table)
    : TrafficDBRecord :=
  {| id := seq t + 1;
     site_id := TrafficRecord.siteId rec;
     timestamp := default now_ms (TrafficRecord.timestamp rec);
     path := TrafficRecord.path rec;
     user_agent := TrafficRecord.userAgent rec;
     ip_address := TrafficRecord.ipAddress rec;
     country := TrafficRecord.country rec;
     city := TrafficRecord.city rec;
     referrer := TrafficRecord.referrer rec;
     request_type := TrafficRecord.requestType rec;
     created_at := now_s |}.


(** The row a breakdown on column [col] computes for the events of
    [events] that hold [k] in this column. *)
Definition group_row (col : TrafficDBRecord → option string)
    (placeholder : string) (events : list TrafficDBRecord)
    (k : option string) : Breakdown.t :=
  let count := length (filter (λ r, col r = k) events) in
  Breakdown.mk (coalesce placeholder k) count
    (round_percentage count (Some (length events))).

Definition rows_by_group (col : TrafficDBRecord → option string)
    (placeholder : string) (events : list TrafficDBRecord)
    (report : list Breakdown.t) : Prop :=
  report ≡ₚ group_row col placeholder events <$> remove_dups (col <$> events).

(** What the specification asks of the row for the value [k] of the
    column [col] among [events]: its key is the text [k], or the
    placeholder when [k] is [NULL]; its count is the number of events that
    hold [k]; its percentage is the share of these among all [events]. *)
Definition group_row_ok (col : TrafficDBRecord → option string)
    (placeholder : string) (events : list TrafficDBRecord)
    (k : option string) (row : Breakdown.t) : Prop :=
  Breakdown.key row = match k with Some text => text | None => placeholder end ∧
  Breakdown.count row = length (filter (λ r, col r = k) events) ∧
  percentage_ok (Breakdown.count row) (length events) (Breakdown.percentage row).

(** A report on column [col] of the events [events]: one row for every
    value the column takes among them, [NULL] being a value like any
    other, in some order. *)
Definition grouped_report (col : TrafficDBRecord → option string)
    (placeholder : string) (events : list TrafficDBRecord)
    (report : list Breakdown.t) : Prop :=
  ∃ rows, report ≡ₚ rows ∧
          Forall2 (group_row_ok col placeholder events)
                  (remove_dups (col <$> events)) rows.

(** A report with two rows, at least, that have the key [key]. *)
Definition key_twice (key : string) (report : list Breakdown.t) : Prop :=
  ∃ row1 row2 rest,
    report ≡ₚ row1 :: row2 :: rest ∧
    Breakdown.key row1 = key ∧ Breakdown.key row2 = key.

(** [example_store] after a fourth event of site-a, whose referrer is the
    text "(direct)". *)
Definition direct_store : TrafficDB :=
  (recordTraffic 0 172800
     (visit "site-a" 3500 (Some "/") (Some "(direct)") None) example_store).2.

(** * The service (index.ts) *)

(** ** Tokens: [slowEquals] and [verifyToken] *)

(** Strings are sequences of code units below 256 here, which covers the
    values of an HTTP header. *)

(** [ToInt32]: the integer modulo 2^32, read as a signed 32-bit value. *)
Definition to_int32 (z : Z) : Z :=
  let m := z mod 2 ^ 32 in
  if decide (m < 2 ^ 31) then m else m - 2 ^ 32.

(** [s.charCodeAt(i)]: the code unit at index [i], and [NaN] (here
    [None]) past the end. *)
Definition charCodeAt (s : string) (i : nat) : option Z :=
  (λ c, Z.of_nat (Ascii.nat_of_ascii c)) <$> String.get i s.

(** [x ^ y] and [x | y]: both operands go through [ToInt32], [NaN]
    becoming 0. *)
Definition js_xor (x y : option Z) : Z :=
  Z.lxor (to_int32 (default 0 x)) (to_int32 (default 0 y)).

Definition js_or (x y : Z) : Z := Z.lor (to_int32 x) (to_int32 y).

(** [slowEquals(a, b)]; an argument that is [undefined] is [None]. *)
Definition slowEquals (a b : option string) : bool :=
  match a, b with
  | Some a, Some b =>
      if decide (a = "" ∨ b = "" ∨ String.length a ≠ String.length b)
      then false
      else
        let result :=
          foldl (λ result i, js_or result (js_xor (charCodeAt a i) (charCodeAt b i)))
                0 (List.seq 0 (String.length a)) in
        bool_decide (result = 0)
  | _, _ => false
  end.

(** What the middleware answers: a JSON body with a status, or the call
    of the next handler. *)
Inductive Answer :=
| Json (message : string) (status : Z)
| Next.

(** [verifyToken(c, next)], for the header [X-Orbiter-Analytics-Token] of
    the request and the variable [ADMIN_KEY] of the environment, each
    absent ([None]) or a string. *)
Definition verifyToken (token ADMIN_KEY : option string) : Answer :=
  if decide (truthy token) then
    if slowEquals token ADMIN_KEY then Next
    else Json "Unauthorized" 401
  else Json "Unauthorized" 401.

(** * Disk space (monitor.ts) *)

Module DiskPartition.
Record t := mk {
  filesystem : string;
  size : option string;
  used : option string;
  available : option string;
  usePercentage : string;
  mountpoint : option string
}.
End DiskPartition.

(** ** The output of [df -h]: [checkDiskSpace] *)

(** White space of [trim] and of [\s], among the code units below 256:
    tab, line feed, vertical tab, form feed, carriage return, space and
    no-break space. *)
Definition is_space (c : Ascii.ascii) : bool :=
  bool_decide (Ascii.nat_of_ascii c ∈ [9; 10; 11; 12; 13; 32; 160]%nat).

Definition cons_head (c : Ascii.ascii) (l : list string) : list string :=
  match l with
  | s :: l => String c s :: l
  | [] => [String c ""]
  end.

(** The line feed ['\n']. *)
Definition line_feed : Ascii.ascii := Ascii.ascii_of_nat 10.

(** [s.split('\n')] *)
Fixpoint split_lines (s : string) : list string :=
  match s with
  | "" => [""]
  | String c s =>
      if decide (c = line_feed) then "" :: split_lines s
      else cons_head c (split_lines s)
  end.

(** [s.split(/\s+/)]: the pieces between the runs of white space; a run
    at the start or at the end leaves an empty piece there. [in_run] says
    that the code unit before was white space. *)
Fixpoint split_spaces (in_run : bool) (s : string) : list string :=
  match s with
  | "" => [""]
  | String c s =>
      if is_space c then
        if in_run then split_spaces true s else "" :: split_spaces true s
      else cons_head c (split_spaces false s)
  end.

Fixpoint trim_start (s : string) : string :=
  match s with
  | String c s' => if is_space c then trim_start s' else s
  | "" => ""
  end.

(** [s.trim()] *)
Definition trim (s : string) : string :=
  String.rev (trim_start (String.rev (trim_start s))).

(** [s.replace('%', '')]: the first ['%'] is taken out. *)
Fixpoint replace_percent (s : string) : string :=
  match s with
  | String c s' => if decide (c = Ascii.ascii_of_nat 37) then s' else String c (replace_percent s')
  | "" => ""
  end.

(** [const [filesystem, size, used, available, usePercentage, mountpoint]
    = fields], and the partition made of them: a piece that is missing is
    [undefined]; a use percentage that is missing or empty is "0". The
    first piece is never missing. *)
Definition partition_of (fields : list string) : DiskPartition.t :=
  DiskPartition.mk
    (default "" (fields !! 0%nat)) (fields !! 1%nat) (fields !! 2%nat)
    (fields !! 3%nat)
    (match fields !! 4%nat with
     | Some usePercentage =>
         if decide (usePercentage ≠ "") then replace_percent usePercentage
         else "0"
     | None => "0"
     end)
    (fields !! 5%nat).

Definition parse_line (line : string) : DiskPartition.t :=
  partition_of (split_spaces false line).

(** [checkDiskSpace()], for what running [df -h] gave: the texts
    [(stdout, stderr)], or the error it failed with. *)
Definition checkDiskSpace (df : Result (string * string))
    : Result (list DiskPartition.t) :=
  match df with
  | Ok (stdout, stderr) =>
      if decide (stderr ≠ "")
      then Throw (JsError ("Error executing df command: " +:+ stderr))
      else
        let lines := split_lines stdout in
        Ok (parse_line
            <$> filter (λ line, trim line ≠ "") (drop 1 lines))
  | Throw (JsError message) =>
      Throw (JsError ("Failed to check disk space: " +:+ message))
  end.

(** ** Output of the usual form *)

Fixpoint no_space (s : string) : bool :=
  match s with
  | "" => true
  | String c s => negb (is_space c) && no_space s
  end.

Fixpoint all_space (s : string) : bool :=
  match s with
  | "" => true
  | String c s => is_space c && all_space s
  end.

Fixpoint no_line_feed (s : string) : bool :=
  match s with
  | "" => true
  | String c s => negb (bool_decide (c = line_feed)) && no_line_feed s
  end.

(** A word: a text that is not empty and has no white space. A gap:
    white space, not empty, without line feed. *)
Definition word (s : string) : Prop := s ≠ "" ∧ no_space s.
Definition gap (s : string) : Prop :=
  s ≠ "" ∧ all_space s ∧ no_line_feed s.

(** A row of the output: a first word, and further words each after a
    gap; and its line. *)
Definition DfRow : Type := string * list (string * string).

Definition row_fields (row : DfRow) : list string := row.1 :: row.2.*2.

Definition row_line (row : DfRow) : string :=
  row.1 +:+ foldr (λ gw rest, gw.1 +:+ gw.2 +:+ rest) "" row.2.

Definition row_ok (row : DfRow) : Prop :=
  word row.1 ∧ Forall (λ gw, gap gw.1 ∧ word gw.2) row.2.

(** The lines [ls], each ended by a line feed. *)
Definition unlines (ls : list string) : string :=
  foldr (λ l rest, l +:+ String line_feed rest) "" ls.

(** ['%'] *)
Definition percent_sign : Ascii.ascii := Ascii.ascii_of_nat 37.

Fixpoint no_percent (s : string) : bool :=
  match s with
  | "" => true
  | String c s => negb (bool_decide (c = percent_sign)) && no_percent s
  end.

(** A line of [df -h] as the command prints it: the columns Filesystem,
    Size, Used, Avail, Use% and Mounted on, a gap between one and the
    next; the Use% column is a number [use] followed by ['%']. The words
    of [more], each after a gap, are what follows the sixth column (the
    rest of a mount point with white space in it). *)
Module DfLine.
Record t := mk {
  filesystem : string;
  gap1 : string;
  size : string;
  gap2 : string;
  used : string;
  gap3 : string;
  available : string;
  gap4 : string;
  use : string;
  gap5 : string;
  mountpoint : string;
  more : list (string * string)
}.
End DfLine.

Definition line_text (l : DfLine.t) : string :=
  DfLine.filesystem l +:+ DfLine.gap1 l +:+ DfLine.size l +:+ DfLine.gap2 l
  +:+ DfLine.used l +:+ DfLine.gap3 l +:+ DfLine.available l
  +:+ DfLine.gap4 l +:+ (DfLine.use l +:+ "%") +:+ DfLine.gap5 l
  +:+ DfLine.mountpoint l
  +:+ foldr (λ gw rest, gw.1 +:+ gw.2 +:+ rest) "" (DfLine.more l).

Definition line_ok (l : DfLine.t) : Prop :=
  word (DfLine.filesystem l) ∧ gap (DfLine.gap1 l) ∧
  word (DfLine.size l) ∧ gap (DfLine.gap2 l) ∧
  word (DfLine.used l) ∧ gap (DfLine.gap3 l) ∧
  word (DfLine.available l) ∧ gap (DfLine.gap4 l) ∧
  (no_space (DfLine.use l) ∧ no_percent (DfLine.use l)) ∧
  gap (DfLine.gap5 l) ∧
  word (DfLine.mountpoint l) ∧
  Forall (λ gw, gap gw.1 ∧ word gw.2) (DfLine.more l).

(** The partition that the specification asks for a line: the first six
    columns, the Use% column without its ['%']. *)
Definition line_partition (l : DfLine.t) : DiskPartition.t :=
  DiskPartition.mk (DfLine.filesystem l) (Some (DfLine.size l))
    (Some (DfLine.used l)) (Some (DfLine.available l)) (DfLine.use l)
    (Some (DfLine.mountpoint l)).

(** The words and gaps of a line. *)
Definition line_row (l : DfLine.t) : DfRow :=
  (DfLine.filesystem l,
   [(DfLine.gap1 l, DfLine.size l); (DfLine.gap2 l, DfLine.used l);
    (DfLine.gap3 l, DfLine.available l);
    (DfLine.gap4 l, DfLine.use l +:+ "%");
    (DfLine.gap5 l, DfLine.mountpoint l)] ++ DfLine.more l).

(** ** Alerts: [monitorDiskSpace] *)

Inductive Level := critical | warning.

Module DiskSpaceAlert.
Record t := mk {
  partition : DiskPartition.t;
  level : Level;
  message : string
}.
End DiskSpaceAlert.

(** [Partial<MonitoringThresholds>], with integer thresholds. *)
Module Thresholds.
Record t := mk {
  critical : option Z;
  warning : option Z
}.
End Thresholds.

Section monitor.

(** [parseInt(s)], with [None] for [NaN], and the text of a number in a
    template. *)
Variable parseInt : string → option Z.
Variable toString : Z → string.

(** [usage >= threshold]: a comparison with [NaN] is false. *)
Definition usage_ge (usage : option Z) (threshold : Z) : Prop :=
  match usage with
  | Some u => threshold ≤ u
  | None => False
  end.

#[global] Instance usage_ge_dec usage threshold :
  Decision (usage_ge usage threshold).
Proof. destruct usage; simpl; apply _. Defined.

(** The text of a value in a template; [undefined] gives "undefined". *)
Definition text_of (s : option string) : string := default "undefined" s.

(** [monitorDiskSpace(customThresholds)], for what [checkDiskSpace()]
    gave. *)
Definition monitorDiskSpace (customThresholds : option Thresholds.t)
    (diskSpace : Result (list DiskPartition.t))
    : Result (list DiskPartition.t * list DiskSpaceAlert.t) :=
  let critical_ := default 90 (customThresholds ≫= Thresholds.critical) in
  let warning_ := default 80 (customThresholds ≫= Thresholds.warning) in
  match diskSpace with
  | Ok diskSpace =>
      let relevantPartitions :=
        filter (λ partition,
                  ¬ String.prefix "tmpfs" (DiskPartition.filesystem partition) ∧
                  ¬ String.prefix "efivarfs" (DiskPartition.filesystem partition))
               diskSpace in
      let alerts :=
        foldl (λ alerts partition,
                 let usage := parseInt (DiskPartition.usePercentage partition) in
                 if decide (usage_ge usage critical_) then
                   alerts ++
                   [DiskSpaceAlert.mk partition critical
                      ("CRITICAL: " +:+ text_of (DiskPartition.mountpoint partition)
                       +:+ " is at " +:+ toString (default 0 usage)
                       +:+ "% usage!")]
                 else if decide (usage_ge usage warning_) then
                   alerts ++
                   [DiskSpaceAlert.mk partition warning
                      ("WARNING: " +:+ text_of (DiskPartition.mountpoint partition)
                       +:+ " is at " +:+ toString (default 0 usage)
                       +:+ "% usage")]
                 else alerts)
              [] relevantPartitions in
      Ok (relevantPartitions, alerts)
  | Throw (JsError message) =>
      Throw (JsError ("Error monitoring disk space: " +:+ message))
  end.

End monitor.

(** ** An example output *)

Definition example_header : string :=
  "Filesystem      Size  Used Avail Use% Mounted on".

Definition example_lines : list DfLine.t :=
  [DfLine.mk "/dev/sda1" "        " "50G" "   " "46G" "  " "4.0G" "  " "92"
             " " "/" [];
   DfLine.mk "tmpfs" "           " "3.9G" "     " "0" "  " "3.9G" "   " "0"
             " " "/dev/shm" [];
   DfLine.mk "/dev/sdb1" "       " "100G" "   " "85G" "   " "15G" "  " "85"
             " " "/data" [];
   DfLine.mk "/dev/sdc1" " " "10G" " " "1G" " " "9G" " " "10"
             " " "/mnt/my" [(" ", "disk")]].

Definition example_df : string :=
  example_header +:+ String line_feed (unlines (line_text <$> example_lines)).

(** * Test data (testData.ts) *)

(** [REFERRERS], as [Object.entries] lists it: the keys in the order of
    the literal, each with its weight. A key of an object is a string, so
    the key written [null] is the string "null". *)
Definition REFERRERS : list (string * Z) :=
  [("https://google.com", 35);
   ("https://twitter.com", 20);
   ("https://facebook.com", 15);
   ("https://github.com", 10);
   ("https://hn.algolia.com", 8);
   ("https://linkedin.com", 7);
   ("null", 5)].

(** The loop of [getWeightedReferrer] over the entries left, from the sum
    so far; [None] is [null]. *)
Fixpoint weighted (rand : QArith_base.Q) (entries : list (string * Z))
    (sum : Z) : option string :=
  match entries with
  | [] => None
  | (referrer, weight) :: entries =>
      let sum := sum + weight in
      if QArith_base.Qle_bool rand (QArith_base.inject_Z sum)
      then Some referrer
      else weighted rand entries sum
  end.

(** [getWeightedReferrer()] when [Math.random() * 100] is the number
    [rand]. *)
Definition getWeightedReferrer (rand : QArith_base.Q) : option string :=
  weighted rand REFERRERS 0.

(** [getWeightedReferrer() || ""], the referrer [generateTestData] gives
    an event. *)
Definition generated_referrer (rand : QArith_base.Q) : string :=
  let referrer := getWeightedReferrer rand in
  if decide (truthy referrer) then default "" referrer else "".

(** * Properties *)

(** Linear arithmetic with divisions by constants. *)
Ltac div_lia := Z.div_mod_to_equations; lia.

(** ** Sorted row lists *)

#[global] Instance id_lt_trans : Transitive id_lt.
Proof. unfold id_lt. intros a b c. lia. Qed.

#[global] Instance id_le_trans : Transitive id_le.
Proof. unfold id_le. intros a b c. lia. Qed.

#[global] Instance id_le_total : Total id_le.
Proof. unfold id_le. intros a b. lia. Qed.

Lemma StronglySorted_filter {A} (R : relation A) (P : A → Prop)
    `{∀ x, Decision (P x)} (l : list A) :
  StronglySorted R l → StronglySorted R (filter P l).
Proof.
  induction 1 as [|x l Hl IH Hx]; [constructor|].
  rewrite filter_cons. case_decide; [|done].
  constructor; [done|]. rewrite Forall_forall in Hx |- *.
  intros y [_ Hy]%list_elem_of_filter. by apply Hx.
Qed.

Lemma id_lt_sorted_le l : StronglySorted id_lt l → StronglySorted id_le l.
Proof.
  induction 1 as [|x l Hl IH Hx]; constructor; [done|].
  eapply Forall_impl; [exact Hx|]. unfold id_lt, id_le. intros; lia.
Qed.


(** On rows already in ascending id order [ORDER BY id ASC] changes
    nothing. *)
Lemma order_by_id_sorted l : StronglySorted id_lt l → order_by_id l = l.
Proof.
  intros Hl. unfold order_by_id.
  apply (StronglySorted_unique_strong id_le).
  - intros x1 x2 Hx1 Hx2 H12 H21. unfold id_le in *.
    rewrite merge_sort_Permutation in Hx1.
    assert (id x1 = id x2) as Hid by lia.
    apply list_elem_of_lookup in Hx1 as [i Hi], Hx2 as [j Hj].
    destruct (decide (i = j)) as [->|Hne]; [congruence|].
    exfalso.
    assert (∀ i j a b, (i < j)%nat → l !! i = Some a → l !! j = Some b →
                       id a < id b) as Hmono.
    { clear -Hl. induction Hl as [|x l Hl IH Hx]; intros i j a b Hij Ha Hb;
        [done|].
      destruct i as [|i], j as [|j]; simpl in *; try lia.
      - simplify_eq. rewrite Forall_forall in Hx.
        apply (Hx b). by eapply list_elem_of_lookup_2.
      - eapply (IH i j); [lia|done..]. }
    destruct (decide (i < j)%nat).
    + pose proof (Hmono i j x1 x2 ltac:(done) Hi Hj). lia.
    + pose proof (Hmono j i x2 x1 ltac:(lia) Hj Hi). lia.
  - apply StronglySorted_merge_sort; apply _.
  - by apply id_lt_sorted_le.
  - apply merge_sort_Permutation.
Qed.

(** ** The cursor stream *)

Lemma sql_limit_nil {A} (n : Z) (l : list A) :
  n ≠ 0 → sql_limit n l = [] → l = [].
Proof.
  unfold sql_limit. intros Hn. case_decide; [done|].
  destruct l as [|x l]; [done|].
  destruct (Z.to_nat n) eqn:Hz; [lia|done].
Qed.

Lemma sql_limit_prefix {A} (n : Z) (l : list A) :
  ∃ rest, l = sql_limit n l ++ rest.
Proof.
  unfold sql_limit. case_decide.
  - exists []. by rewrite app_nil_r.
  - exists (drop (Z.to_nat n) l). by rewrite take_drop.
Qed.

Lemma sorted_last_max l x y :
  StronglySorted id_lt l → last l = Some x → y ∈ l → id y ≤ id x.
Proof.
  intros Hl Hx Hy.
  apply last_Some in Hx as [l' ->].
  apply StronglySorted_app in Hl as (Hlt & _ & _).
  apply elem_of_app in Hy as [Hy|Hy].
  - specialize (Hlt y x Hy). unfold id_lt in Hlt.
    assert (x ∈ [x]) as Hxx by apply list_elem_of_here.
    specialize (Hlt Hxx). lia.
  - apply list_elem_of_singleton in Hy as ->. lia.
Qed.

Lemma filter_all {A} (P : A → Prop) `{∀ x, Decision (P x)} (l : list A) :
  Forall P l → filter P l = l.
Proof.
  induction 1 as [|x l Hx Hl IH]; [done|].
  by rewrite filter_cons_True, IH.
Qed.

Lemma filter_none {A} (P : A → Prop) `{∀ x, Decision (P x)} (l : list A) :
  Forall (λ x, ¬ P x) l → filter P l = [].
Proof.
  induction 1 as [|x l Hx Hl IH]; [done|].
  by rewrite filter_cons_False.
Qed.

(** From any cursor position the loop yields exactly the rows of the
    window beyond the cursor, whatever the (non-zero) batch size. *)
Lemma stream_from_sorted siteId startTime endTime batchSize t lastId :
  StronglySorted id_lt (rows t) → batchSize ≠ 0 →
  stream_from siteId startTime endTime batchSize t lastId
  = filter (λ r, in_window siteId startTime endTime r ∧ lastId < id r) (rows t).
Proof.
  intros Hs Hbs.
  funelim (stream_from siteId startTime endTime batchSize t lastId).
  - clear Heqcall H. unfold select_batch in e.
    apply sql_limit_nil in e; [|done].
    rewrite order_by_id_sorted in e by by apply StronglySorted_filter.
    done.
  - clear Heqcall H0. rewrite H by done. clear H.
    set (L := filter (λ r, in_window siteId startTime endTime r ∧ lastId < id r)
                     (rows t)).
    assert (StronglySorted id_lt L) as HL by by apply StronglySorted_filter.
    unfold select_batch in Hb. fold L in Hb.
    rewrite order_by_id_sorted in Hb by done.
    destruct (sql_limit_prefix batchSize L) as [rest Hrest].
    rewrite Hb in Hrest.
    destruct (last (r :: batch)) as [x|] eqn:Hx; [|by apply last_None in Hx].
    rewrite (advance_last _ _ x Hx).
    assert (x ∈ L) as HxL.
    { rewrite Hrest. apply elem_of_app. left. by apply last_Some_elem_of. }
    assert (lastId < id x) as Hlx.
    { apply list_elem_of_filter in HxL as [[_ ?] _]. done. }
    rewrite (list_filter_iff _ (λ r, id x < id r ∧
       (in_window siteId startTime endTime r ∧ lastId < id r)))
      by (intros; intuition lia).
    rewrite <-list_filter_filter. fold L.
    rewrite Hrest in HL |- *.
    pose proof HL as (Hcross & Hbatch & _)%StronglySorted_app.
    rewrite filter_app.
    rewrite filter_none, filter_all; [done| |].
    + apply Forall_forall. intros y Hy.
      apply (Hcross x y); [by apply last_Some_elem_of|done].
    + apply Forall_forall. intros y Hy.
      pose proof (sorted_last_max _ x y Hbatch Hx Hy). lia.
Qed.

Lemma filter_ext_in {A} (P Q : A → Prop) `{∀ x, Decision (P x)}
    `{∀ x, Decision (Q x)} (l : list A) :
  (∀ x, x ∈ l → P x ↔ Q x) → filter P l = filter Q l.
Proof.
  induction l as [|x l IH]; intros HPQ; [done|].
  rewrite !filter_cons, IH by (intros; apply HPQ; by right).
  pose proof (HPQ x ltac:(left)). repeat case_decide; tauto.
Qed.

Lemma foldl_push {A} (l acc : list A) :
  foldl (λ results record, results ++ [record]) acc l = acc ++ l.
Proof.
  revert acc. induction l as [|x l IH]; intros acc; simpl.
  - by rewrite app_nil_r.
  - by rewrite IH, <-app_assoc.
Qed.

Lemma table_ok_positive t r : table_ok t → r ∈ rows t → 0 < id r.
Proof.
  intros [_ Hr _] Hin. rewrite Forall_forall in Hr. by apply Hr.
Qed.

Lemma bound_limit_ok batchSize :
  limit_ok batchSize →
  bound_limit (default 1000 batchSize) = Ok (default 1000 batchSize).
Proof.
  intros Hl. unfold bound_limit. rewrite decide_True; [done|].
  destruct batchSize as [n|]; simpl; [by apply Hl|lia].
Qed.


Lemma queryTrafficStream_stream self siteId startTime endTime batchSize :
  db self = Some Open → limit_ok batchSize →
  queryTrafficStream siteId startTime endTime batchSize self
  = (Ok (stream_from siteId startTime endTime (default 1000 batchSize)
           (storage self) 0), self).
Proof.
  intros Hopen Hl.
  unfold queryTrafficStream, mbind, M_bind, require_db, run_prepared, select.
  rewrite (bound_limit_ok _ Hl).
  destruct self as [p d t u]; simpl in *. by subst d.
Qed.

(** What the stream and its wrapper return on an open store with a
    well-formed table. *)
Lemma queryTrafficStream_open self siteId startTime endTime batchSize :
  db self = Some Open → table_ok (storage self) →
  batchSize ≠ Some 0 → limit_ok batchSize →
  queryTrafficStream siteId startTime endTime batchSize self
  = (Ok (filter (in_window siteId startTime endTime) (rows (storage self))),
     self).
Proof.
  intros Hopen Hok Hbs Hl.
  rewrite queryTrafficStream_stream by done. do 2 f_equal.
  rewrite stream_from_sorted.
  - apply filter_ext_in. intros r Hin. split; [tauto|].
    intros Hr. split; [done|]. by eapply table_ok_positive.
  - apply Hok.
  - destruct batchSize as [b|]; simpl; [congruence|done].
Qed.

Lemma queryTraffic_open self siteId startTime endTime batchSize :
  db self = Some Open → table_ok (storage self) →
  batchSize ≠ Some 0 → limit_ok batchSize →
  queryTraffic siteId startTime endTime batchSize self
  = (Ok (filter (in_window siteId startTime endTime) (rows (storage self))),
     self).
Proof.
  intros Hopen Hok Hbs Hl.
  unfold queryTraffic. unfold mbind at 1, M_bind.
  rewrite queryTrafficStream_open by done.
  unfold mret, M_ret. by rewrite foldl_push.
Qed.






(** ** Lifecycle and the append-only table *)

Lemma require_db_none {A} (k : Database → M A) self :
  db self = None → (require_db ≫= k) self = (Throw NotInitializedError, self).
Proof. intros Hdb. unfold mbind, M_bind, require_db. by rewrite Hdb. Qed.

(** C7: on a store that [initialize] has not been called on, every method
    other than [initialize] and [close] throws the error "Database not
    initialized", which differs from the errors of the driver, and leaves
    the store as it was. *)
Theorem not_initialized_error (self : TrafficDB) :
  db self = None →
  (∀ now_ms now_s rec,
     recordTraffic now_ms now_s rec self = (Throw NotInitializedError, self)) ∧
  (∀ siteId startTime endTime batchSize,
     queryTrafficStream siteId startTime endTime batchSize self
     = (Throw NotInitializedError, self)) ∧
  (∀ siteId startTime endTime batchSize,
     queryTraffic siteId startTime endTime batchSize self
     = (Throw NotInitializedError, self)) ∧
  (∀ siteId startTime endTime,
     getDailyViews siteId startTime endTime self
     = (Throw NotInitializedError, self)) ∧
  (∀ siteId startTime endTime path_,
     getDailyViewsByPath siteId startTime endTime path_ self
     = (Throw NotInitializedError, self)) ∧
  (∀ siteId startTime endTime,
     getTrafficStats siteId startTime endTime self
     = (Throw NotInitializedError, self)) ∧
  (∀ siteId startTime endTime,
     getReferrerBreakdown siteId startTime endTime self
     = (Throw NotInitializedError, self)) ∧
  (∀ siteId startTime endTime,
     getPathsBreakdown siteId startTime endTime self
     = (Throw NotInitializedError, self)) ∧
  (∀ siteId startTime endTime,
     getCountryBreakdown siteId startTime endTime self
     = (Throw NotInitializedError, self)) ∧
  (∀ siteId, getLatestTraffic siteId self = (Throw NotInitializedError, self)) ∧
  (∀ c, c ≠ Initialize → c ≠ Close →
        call c self = (Some NotInitializedError, self)) ∧
  NotInitializedError ≠ SqliteMisuse ∧
  NotInitializedError ≠ SqliteFull.
Proof.
  intros Hdb.
  assert (∀ now_ms now_s rec,
     recordTraffic now_ms now_s rec self = (Throw NotInitializedError, self))
    as Hrec by (intros; by apply require_db_none).
  assert (∀ siteId startTime endTime batchSize,
     queryTrafficStream siteId startTime endTime batchSize self
     = (Throw NotInitializedError, self))
    as Hstream by (intros; by apply require_db_none).
  assert (∀ siteId startTime endTime batchSize,
     queryTraffic siteId startTime endTime batchSize self
     = (Throw NotInitializedError, self)) as Hquery.
  { intros. unfold queryTraffic. unfold mbind at 1, M_bind. by rewrite Hstream. }
  assert (∀ siteId startTime endTime path_,
     getDailyViewsByPath siteId startTime endTime path_ self
     = (Throw NotInitializedError, self))
    as Hbypath by (intros; by apply require_db_none).
  repeat split; try done; try (intros; by apply require_db_none).
  intros c Hi Hc.
  destruct c; try done; simpl; unfold outcome;
    first [ by rewrite Hrec | by rewrite Hstream | by rewrite Hquery
          | by rewrite Hbypath
          | unfold getDailyViews, getTrafficStats, getReferrerBreakdown,
              getPathsBreakdown, getCountryBreakdown, getLatestTraffic;
            by rewrite require_db_none ].
Qed.

Lemma not_initialized_error_witness :
  db (new_TrafficDB "traffic.db" empty_table) = None ∧
  getTrafficStats "site-a" 0 5000 (new_TrafficDB "traffic.db" empty_table)
  = (Throw NotInitializedError, new_TrafficDB "traffic.db" empty_table).
Proof.
  split; [reflexivity|].
  apply (not_initialized_error (new_TrafficDB "traffic.db" empty_table)).
  reflexivity.
Defined.

Lemma extends_refl t : extends t t.
Proof. split; [lia|]. exists []. by rewrite app_nil_r. Qed.

Lemma extends_trans t1 t2 t3 : extends t1 t2 → extends t2 t3 → extends t1 t3.
Proof.
  intros [Hs1 (n1 & Hr1 & Hn1)] [Hs2 (n2 & Hr2 & Hn2)].
  split; [lia|]. exists (n1 ++ n2). split.
  - by rewrite Hr2, Hr1, <-app_assoc.
  - apply Forall_app. split; [done|].
    eapply Forall_impl; [exact Hn2|]. simpl. intros; lia.
Qed.

Lemma max_rowid_ok t : table_ok t → Z.max (seq t) (max_rowid (rows t)) = seq t.
Proof.
  intros [_ Hr Hs]. apply Z.max_l.
  induction Hr as [|x l Hx Hl IH]; simpl; lia.
Qed.

(** The [INSERT] of [recordTraffic] on a well-formed table: when it
    succeeds, it adds one row at the end, under a new largest id. *)
Lemma insert_traffic_spec now_s siteId ts rec t :
  table_ok t →
  (insert_traffic now_s siteId ts rec t = (Throw SqliteFull, t)) ∨
  (∃ r, insert_traffic now_s siteId ts rec t
          = (Ok tt, mkTable (rows t ++ [r]) (id r)) ∧
        id r = seq t + 1 ∧
        site_id r = siteId ∧ timestamp r = ts ∧ created_at r = now_s ∧
        table_ok (mkTable (rows t ++ [r]) (id r))).
Proof.
  intros Hok. unfold insert_traffic. rewrite (max_rowid_ok t Hok).
  case_decide; [by left|right].
  eexists (mkRow (seq t + 1) _ _ _ _ _ _ _ _ _ _).
  split; [reflexivity|]. simpl. repeat split; simpl.
  - destruct Hok as [Hs Hr H0]. apply StronglySorted_app_2; [|done|].
    + intros x1 x2 Hx1 ->%list_elem_of_singleton. unfold id_lt. simpl.
      rewrite Forall_forall in Hr. specialize (Hr _ Hx1). simpl in Hr. lia.
    + repeat constructor.
  - destruct Hok as [Hs Hr H0]. apply Forall_app. split.
    + eapply Forall_impl; [exact Hr|]. simpl. intros; lia.
    + repeat constructor; simpl; lia.
  - destruct Hok as [Hs Hr H0]. lia.
Qed.

(** A method that only runs a [SELECT] leaves the store as it was. *)
Lemma select_method {A} (q : Table → A) self :
  ∃ r, (require_db ≫= λ h, run_on h (select q)) self = (r, self).
Proof. destruct self as [p [[]|] t u]; simpl; eauto. Qed.

Lemma outcome_select {A} (q : Table → A) self :
  (outcome (require_db ≫= λ h, run_on h (select q)) self).2 = self.
Proof.
  unfold outcome. destruct (select_method q self) as [r ->]. by destruct r.
Qed.

(** The stream leaves the path, the handle and the table as they were;
    when it throws on an open handle it leaves a statement. *)
Lemma queryTrafficStream_storage siteId startTime endTime batchSize self :
  ∃ r u, queryTrafficStream siteId startTime endTime batchSize self
         = (r, mkDB (dbPath self) (db self) (storage self) u).
Proof.
  unfold queryTrafficStream, mbind, M_bind, require_db, run_prepared, select.
  destruct self as [p [[]|] t u]; simpl; eauto.
  destruct (bound_limit _); simpl; eauto.
Qed.

Lemma read_call_storage c self :
  c ≠ Initialize → c ≠ Close →
  (∀ now_ms now_s rec, c ≠ RecordTraffic now_ms now_s rec) →
  ∃ u, (call c self).2 = mkDB (dbPath self) (db self) (storage self) u.
Proof.
  intros Hi Hc Hr.
  assert (∃ u, self = mkDB (dbPath self) (db self) (storage self) u) as Hself
    by (destruct self; simpl; eauto).
  destruct c; try done; simpl;
    try (match goal with
         | |- ∃ u, (outcome ?m self).2 = _ =>
             assert ((outcome m self).2 = self) as ->
               by apply outcome_select
         end; exact Hself).
  - by destruct (Hr now_ms now_s rec).
  - unfold outcome.
    destruct (queryTrafficStream_storage siteId startTime endTime batchSize self)
      as (r & u & ->).
    destruct r; simpl; eauto.
  - unfold outcome, queryTraffic. unfold mbind at 1, M_bind.
    destruct (queryTrafficStream_storage siteId startTime endTime batchSize self)
      as (r & u & ->).
    destruct r; simpl; eauto.
  - unfold outcome, getDailyViewsByPath, mbind, M_bind, require_db.
    destruct self as [p [[]|] t u]; simpl; eauto; case_decide; simpl; eauto.
Qed.

(** Every call keeps the table well formed and extends it, a new
    [initialize] on a database in memory or a temporary one apart. *)
Lemma call_extends c self :
  table_ok (storage self) →
  (volatile (dbPath self) → c ≠ Initialize) →
  dbPath (call c self).2 = dbPath self ∧
  table_ok (storage (call c self).2) ∧
  extends (storage self) (storage (call c self).2).
Proof.
  intros Hok Hmem.
  destruct c;
    try (edestruct (read_call_storage) as [u ->]; [done..|];
         by auto using extends_refl).
  - simpl. unfold outcome, initialize. simpl.
    case_decide; [by destruct Hmem|]. auto using extends_refl.
  - simpl. unfold outcome, close.
    destruct self as [p [[]|] t u]; simpl in *; auto using extends_refl.
    case_decide; simpl; auto using extends_refl.
  - simpl. unfold outcome, recordTraffic, mbind, M_bind, require_db,
      run_prepared.
    destruct self as [p [[]|] t u]; simpl in *; auto using extends_refl.
    destruct (insert_traffic_spec now_s (TrafficRecord.siteId rec)
                (default now_ms (TrafficRecord.timestamp rec)) rec t Hok)
      as [->|(r & -> & Hid & _ & _ & _ & Hok')]; simpl;
      [auto using extends_refl|].
    repeat split; try apply Hok'; simpl; [lia|].
    exists [r]. split; [done|]. repeat constructor. lia.
Qed.

Lemma step_extends ev self :
  table_ok (storage self) →
  (volatile (dbPath self) → ev ≠ Method Initialize) →
  dbPath (step ev self) = dbPath self ∧
  table_ok (storage (step ev self)) ∧
  extends (storage self) (storage (step ev self)).
Proof.
  intros Hok Hmem. destruct ev as [c|]; simpl.
  - apply call_extends; [done|]. intros Hv ->. by apply Hmem.
  - auto using extends_refl.
Qed.

Lemma run_cons ev events self :
  run (ev :: events) self = run events (step ev self).
Proof. done. Qed.

Lemma run_extends events self :
  table_ok (storage self) →
  (volatile (dbPath self) → Method Initialize ∉ events) →
  table_ok (storage (run events self)) ∧
  extends (storage self) (storage (run events self)).
Proof.
  revert self. induction events as [|ev events IH]; intros self Hok Hmem.
  { auto using extends_refl. }
  rewrite run_cons.
  destruct (step_extends ev self Hok) as (Hp & Hok' & Hext).
  { intros Hm ->. apply (Hmem Hm). left. }
  destruct (IH (step ev self) Hok') as [Hok'' Hext'].
  { rewrite Hp. intros Hm Hin. apply (Hmem Hm). by right. }
  eauto using extends_trans.
Qed.

(** Every store that can be reached from a well-formed table has a
    well-formed table; so has every store reached from an empty one. *)
Lemma run_table_ok events self :
  table_ok (storage self) → table_ok (storage (run events self)).
Proof.
  revert self. induction events as [|ev events IH]; intros self Hok; [done|].
  rewrite run_cons. apply IH.
  destruct (decide (ev = Method Initialize)) as [->|Hc].
  - simpl. unfold outcome, initialize. simpl. case_decide; [|done].
    split; simpl; [constructor..|lia].
  - by apply step_extends.
Qed.

(** C2 (amended): on a well-formed table, whatever methods are called and
    whenever statements are collected, as long as [initialize] is not
    called again on a store whose database is in memory or temporary (it
    opens a new, empty database): the rows the table had stay, unchanged
    and in place, and the rows added have ids the table had never given
    out; the ids of the table stay strictly increasing in insertion order,
    so without repeats; and a [recordTraffic] that returns adds exactly
    one row, whose id is larger than every id of the table. *)
Theorem ids_strictly_increasing (self : TrafficDB) (events : list Event) :
  table_ok (storage self) →
  (dbPath self = ":memory:" ∨ dbPath self = "" → Method Initialize ∉ events) →
  (∃ new, rows (storage (run events self)) = rows (storage self) ++ new ∧
          Forall (λ r, seq (storage self) < id r) new) ∧
  StronglySorted id_lt (rows (storage (run events self))) ∧
  NoDup (id <$> rows (storage (run events self))) ∧
  (∀ now_ms now_s rec self',
     recordTraffic now_ms now_s rec (run events self) = (Ok tt, self') →
     ∃ r, rows (storage self') = rows (storage (run events self)) ++ [r] ∧
          Forall (λ x, id x < id r) (rows (storage (run events self)))).
Proof.
  intros Hok Hmem.
  destruct (run_extends events self Hok Hmem) as [Hok' [_ Hnew]].
  split; [done|]. split; [apply Hok'|]. split.
  { destruct Hok' as [Hs _ _]. clear -Hs.
    induction Hs as [|x l Hl IH Hx]; simpl; constructor; [|done].
    rewrite list_elem_of_fmap. intros (y & Hid & Hy).
    rewrite Forall_forall in Hx. specialize (Hx y Hy). unfold id_lt in Hx. lia. }
  intros now_ms now_s rec self' Hrec.
  unfold recordTraffic, mbind, M_bind, require_db, run_prepared in Hrec.
  destruct (run events self) as [p [[]|] t u]; simpl in *; try done.
  destruct (insert_traffic_spec now_s (TrafficRecord.siteId rec)
              (default now_ms (TrafficRecord.timestamp rec)) rec t Hok')
    as [Hfull|(r & Hins & Hid & _ & _ & _ & Hok'')];
    [rewrite Hfull in Hrec; done|].
  rewrite Hins in Hrec. simplify_eq. simpl. exists r. split; [done|].
  destruct Hok' as [_ Hr _]. eapply Forall_impl; [exact Hr|]. simpl. intros; lia.
Qed.

Lemma ids_strictly_increasing_witness :
  table_ok (storage example_store) ∧
  StronglySorted id_lt
    (rows (storage (run [Method (RecordTraffic 5 6
                                   (visit "site-a" 4000 None None None));
                         Method Close; Collect; Method Initialize;
                         Method (RecordTraffic 7 8
                                   (visit "site-b" 4500 None None None))]
                      example_store))).
Proof.
  assert (table_ok (storage example_store)) as Hok.
  { split; simpl; repeat constructor; unfold id_lt; simpl; lia. }
  split; [exact Hok|].
  apply (ids_strictly_increasing example_store _ Hok).
  intros [Hmem|Hmem]; discriminate Hmem.
Defined.

(** On a store in memory, which is what the constructor gives when no
    path is passed, a second [initialize] opens a new database: the event
    recorded before is gone, and the next event is given its id, 1,
    again. *)
Lemma ids_reissued_in_memory :
  storage (run [Method Initialize;
                Method (RecordTraffic 5 6 (visit "site-a" 4000 None None None))]
             (new_TrafficDB ":memory:" empty_table))
  = mkTable [mkRow 1 "site-a" 4000 None None (Some "10.0.0.1") None None
               None None 6] 1 ∧
  storage (run [Method Initialize;
                Method (RecordTraffic 5 6 (visit "site-a" 4000 None None None));
                Method Initialize]
             (new_TrafficDB ":memory:" empty_table))
  = empty_table ∧
  storage (run [Method Initialize;
                Method (RecordTraffic 5 6 (visit "site-a" 4000 None None None));
                Method Initialize;
                Method (RecordTraffic 7 8 (visit "site-b" 4500 None None None))]
             (new_TrafficDB ":memory:" empty_table))
  = mkTable [mkRow 1 "site-b" 4500 None None (Some "10.0.0.1") None None
               None None 8] 1.
Proof. repeat split. Qed.

(** [close] on a store that was never opened returns and changes
    nothing. *)
Lemma close_never_opened self :
  db self = None → close self = (Ok tt, self).
Proof. intros Hdb. unfold close. by rewrite Hdb. Qed.

(** After a [close] that returned on an opened store, [this.db] still
    holds the handle, now closed, and a further [close] passes it to the
    driver again, which rejects it. *)
Lemma close_after_close self self' :
  is_Some (db self) → close self = (Ok tt, self') →
  close self' = (Throw SqliteMisuse, self').
Proof.
  intros [h Hh]. unfold close. rewrite Hh.
  destruct h; [case_decide|]; intros ?; by simplify_eq.
Qed.

(** C8: [close] on a store that was never opened is a no-op that
    returns; on the opened store the first [close] returns, and the second
    [close] in a row throws the driver's [SQLITE_MISUSE] error. *)
Theorem close_twice :
  close (new_TrafficDB "traffic.db" empty_table)
  = (Ok tt, new_TrafficDB "traffic.db" empty_table) ∧
  close opened_store = (Ok tt, closed_store) ∧
  close closed_store = (Throw SqliteMisuse, closed_store).
Proof. repeat split. Qed.

(** ** Grouped counts *)

Section group_count.
Context {K : Type} `{EqDecision K}.
Implicit Types (k : K) (ks keys : list K).

Lemma length_filter_elem_of_cons k ks keys :
  k ∉ ks →
  length (filter (λ x, x ∈ k :: ks) keys)
  = (length (filter (k =.) keys) + length (filter (λ x, x ∈ ks) keys))%nat.
Proof.
  intros Hk. induction keys as [|x keys IH]; [done|].
  rewrite !filter_cons.
  destruct (decide (k = x)) as [->|Hne].
  - rewrite decide_True by left. rewrite decide_False by done.
    simpl. lia.
  - destruct (decide (x ∈ ks)) as [Hin|Hnin].
    + rewrite decide_True by by right. simpl. lia.
    + rewrite decide_False; [done|].
      intros [->|?]%elem_of_cons; done.
Qed.

Lemma sum_counts_NoDup ks keys :
  NoDup ks →
  sum_list ((λ k, length (filter (k =.) keys)) <$> ks)
  = length (filter (λ x, x ∈ ks) keys).
Proof.
  induction 1 as [|k ks Hk Hnd IH]; simpl.
  - rewrite filter_none; [done|].
    apply Forall_forall. intros x _ Hx. by apply not_elem_of_nil in Hx.
  - rewrite length_filter_elem_of_cons, <-IH by done. reflexivity.
Qed.
End group_count.

(** The counts of the groups add up to the number of grouped rows. *)
Lemma group_count_sum keys : sum_list (group_count keys).*2 = length keys.
Proof.
  unfold group_count. rewrite <-list_fmap_compose.
  change (sum_list ((λ k, length (filter (k =.) keys)) <$> remove_dups keys)
          = length keys).
  rewrite (sum_counts_NoDup _ keys) by apply NoDup_remove_dups.
  rewrite filter_all; [done|].
  apply Forall_forall. intros x Hx. by apply elem_of_remove_dups.
Qed.

(** Every key of the column has its group, with its number of rows. *)
Lemma group_count_elem keys k :
  k ∈ keys → (k, length (filter (k =.) keys)) ∈ group_count keys.
Proof.
  intros Hk. unfold group_count. apply list_elem_of_fmap.
  exists k. split; [done|]. by apply elem_of_remove_dups.
Qed.

Lemma key_counts_sum col placeholder siteId startTime endTime t :
  sum_list (key_counts col placeholder siteId startTime endTime t).*2
  = length (filter (in_window siteId startTime endTime) (rows t)).
Proof.
  unfold key_counts. rewrite <-list_fmap_compose.
  change (sum_list (group_count
            (col <$> filter (in_window siteId startTime endTime) (rows t))).*2
          = length (filter (in_window siteId startTime endTime) (rows t))).
  by rewrite group_count_sum, length_fmap.
Qed.

#[global] Instance count_ge_trans {A} : Transitive (@count_ge A).
Proof. unfold count_ge. intros a b c. lia. Qed.

#[global] Instance count_ge_total {A} : Total (@count_ge A).
Proof. unfold count_ge. intros a b. lia. Qed.

(** ** Breakdown reports *)

Lemma cross_total {A B} (counts : list A) (T : B) :
  (c ← counts; total ← [T]; [(c, total)]) = (λ c, (c, T)) <$> counts.
Proof.
  induction counts as [|c counts IH]; [done|].
  cbn. by f_equal.
Qed.

(** *** The rounding of the engine's arithmetic *)

Lemma round_nearest_even_near n d :
  0 ≤ n → 0 < d →
  Z.abs (2 * (round_nearest_even n d * d - n)) ≤ d
  ∧ n / d ≤ round_nearest_even n d.
Proof.
  intros Hn Hd. unfold round_nearest_even.
  repeat case_decide; destruct (Z.even (n / d)); div_lia.
Qed.

Lemma scaled_lower n d :
  0 < n → 0 < d →
  let e0 := Z.log2 n - Z.log2 d - 53 in
  let e := if decide (scaled_num n e0 < 2 ^ 53 * scaled_den d e0)
           then e0 else e0 + 1 in
  0 < scaled_den d e ∧ 2 ^ 52 * scaled_den d e ≤ scaled_num n e.
Proof.
  intros Hn Hd e0 e.
  destruct (Z.log2_spec n Hn) as [Hn1 Hn2].
  destruct (Z.log2_spec d Hd) as [Hd1 Hd2].
  pose proof (Z.log2_nonneg n) as Hln. pose proof (Z.log2_nonneg d) as Hld.
  rewrite Z.pow_succ_r in Hn2, Hd2 by done.
  set (ln := Z.log2 n) in *. set (ld := Z.log2 d) in *.
  set (P := 2 ^ ln) in *. set (Q := 2 ^ ld) in *.
  assert (0 < P) by (by apply Z.pow_pos_nonneg).
  assert (0 < Q) by (by apply Z.pow_pos_nonneg).
  unfold scaled_num, scaled_den in *.
  destruct (decide (0 ≤ e0)) as [He0|He0].
  - assert (2 ^ e0 * (2 ^ 53 * Q) = P) as HP.
    { unfold P, Q. rewrite <-!Z.pow_add_r by lia. f_equal. unfold e0. lia. }
    assert (0 < 2 ^ e0) as HE by (by apply Z.pow_pos_nonneg).
    set (E := 2 ^ e0) in *.
    subst e. rewrite (Z.max_l 0 (- e0)), (Z.max_r 0 e0) by lia.
    fold E. change (2 ^ 0) with 1. case_decide as Hc.
    + rewrite (Z.max_l 0 (- e0)), (Z.max_r 0 e0) by lia. fold E.
      change (2 ^ 0) with 1. split; [lia|]. nia.
    + rewrite (Z.max_l 0 (- (e0 + 1))), (Z.max_r 0 (e0 + 1)) by lia.
      rewrite Z.pow_add_r by lia. fold E. change (2 ^ 0) with 1.
      change (2 ^ 1) with 2. split; [lia|]. lia.
  - assert (2 ^ (- e0) * P = 2 ^ 53 * Q) as HP.
    { unfold P, Q. rewrite <-!Z.pow_add_r by lia. f_equal. unfold e0. lia. }
    assert (0 < 2 ^ (- e0 - 1)) as HF by (apply Z.pow_pos_nonneg; lia).
    assert (2 ^ (- e0) = 2 * 2 ^ (- e0 - 1)) as HF2.
    { rewrite <-Z.pow_succ_r by lia. f_equal. lia. }
    set (F' := 2 ^ (- e0 - 1)) in *. rewrite HF2 in HP.
    subst e. rewrite (Z.max_r 0 (- e0)), (Z.max_l 0 e0) by lia.
    rewrite HF2. change (2 ^ 0) with 1. case_decide as Hc.
    + rewrite (Z.max_r 0 (- e0)), (Z.max_l 0 e0), HF2 by lia.
      change (2 ^ 0) with 1. split; [lia|]. nia.
    + rewrite (Z.max_r 0 (- (e0 + 1))), (Z.max_l 0 (e0 + 1)) by lia.
      replace (- (e0 + 1)) with (- e0 - 1) by lia. fold F'.
      change (2 ^ 0) with 1. split; [lia|]. lia.
Qed.

Section double_error.
Import Reals Lra.
Local Open Scope R_scope.

Local Abbreviation u := (/ 9007199254740992).

Lemma IZR_pow2 k : (0 ≤ k)%Z → IZR (2 ^ k) = powerRZ 2 k.
Proof.
  intros Hk. rewrite <-(Z2Nat.id k) by done.
  rewrite <-pow_IZR. by rewrite pow_powerRZ.
Qed.

Lemma powerRZ2_pos k : 0 < powerRZ 2 k.
Proof. apply powerRZ_lt. lra. Qed.

Lemma powerRZ2_opp k : powerRZ 2 (- k) * powerRZ 2 k = 1.
Proof.
  rewrite <-powerRZ_add by lra. replace (- k + k)%Z with 0%Z by lia. done.
Qed.

Lemma scaled_value n d e :
  IZR (scaled_num n e) * powerRZ 2 e * IZR d = IZR n * IZR (scaled_den d e).
Proof.
  unfold scaled_num, scaled_den. rewrite !mult_IZR.
  destruct (decide (0 ≤ e)%Z).
  - rewrite (Z.max_l 0 (- e)), (Z.max_r 0 e) by lia.
    rewrite !IZR_pow2 by lia. simpl. ring.
  - rewrite (Z.max_r 0 (- e)), (Z.max_l 0 e) by lia.
    rewrite !IZR_pow2 by lia. simpl.
    transitivity (IZR n * (powerRZ 2 (- e) * powerRZ 2 e) * IZR d); [ring|].
    rewrite powerRZ2_opp. ring.
Qed.

Lemma double_value_normalize m e :
  double_value (normalize m e) = IZR m * powerRZ 2 e.
Proof.
  unfold normalize, double_value. case_decide as Hm; [|done].
  cbn [mantissa exponent]. rewrite Hm, powerRZ_add by lra.
  change (IZR (2 ^ 52)) with 4503599627370496.
  change (IZR (2 ^ 53)) with 9007199254740992. simpl. lra.
Qed.

Lemma mantissa_normalize m e :
  (0 < m)%Z → (0 < mantissa (normalize m e))%Z.
Proof. unfold normalize. by case_decide. Qed.

Lemma round53_value n d :
  (0 < n)%Z → (0 < d)%Z →
  (1 - u) * IZR n <= double_value (round53 n d) * IZR d
  ∧ double_value (round53 n d) * IZR d <= (1 + u) * IZR n
  ∧ (0 < mantissa (round53 n d))%Z.
Proof.
  intros Hn Hd. unfold round53. rewrite decide_True by done.
  pose proof (scaled_lower n d Hn Hd) as [HD HND]. simpl in HD, HND.
  set (e := if decide (_ < _)%Z then _ else _) in *.
  cbv zeta. rewrite double_value_normalize.
  pose proof (scaled_value n d e) as Hv.
  assert (0 ≤ scaled_num n e)%Z as HN by lia.
  destruct (round_nearest_even_near _ _ HN HD) as [Hm Hq].
  set (N := scaled_num n e) in *. set (D := scaled_den d e) in *.
  set (m := round_nearest_even N D) in *.
  assert (0 < m)%Z as Hmpos.
  { eapply Z.lt_le_trans; [|exact Hq]. apply Z.div_str_pos. lia. }
  pose proof (powerRZ2_pos e) as Hp. set (p := powerRZ 2 e) in *.
  apply IZR_lt in HD, Hd. apply IZR_le in HND. rewrite mult_IZR in HND.
  assert (IZR m * IZR D - IZR N <= IZR D / 2
          ∧ - (IZR D / 2) <= IZR m * IZR D - IZR N) as [Hm1 Hm2].
  { rewrite <-mult_IZR, <-minus_IZR.
    assert (2 * IZR (m * D - N) <= IZR D ∧ - IZR D <= 2 * IZR (m * D - N));
      [|lra].
    rewrite <-mult_IZR, <-opp_IZR. split; apply IZR_le; lia. }
  change (IZR (2 ^ 52)) with 4503599627370496 in HND.
  set (a := IZR m * IZR D) in *.
  assert ((1 - u) * IZR N <= a ∧ a <= (1 + u) * IZR N) as [Ha1 Ha2] by lra.
  assert (0 < p * IZR d) as Hpd by (by apply Rmult_lt_0_compat).
  split_and!; [| |by apply mantissa_normalize].
  - apply (Rmult_le_reg_r (IZR D)); [done|].
    replace ((1 - u) * IZR n * IZR D) with ((1 - u) * (IZR n * IZR D)) by ring.
    rewrite <-Hv.
    replace (IZR m * p * IZR d * IZR D) with (a * (p * IZR d)) by (unfold a; ring).
    replace ((1 - u) * (IZR N * p * IZR d)) with ((1 - u) * IZR N * (p * IZR d)) by ring.
    apply Rmult_le_compat_r; lra.
  - apply (Rmult_le_reg_r (IZR D)); [done|].
    replace ((1 + u) * IZR n * IZR D) with ((1 + u) * (IZR n * IZR D)) by ring.
    rewrite <-Hv.
    replace (IZR m * p * IZR d * IZR D) with (a * (p * IZR d)) by (unfold a; ring).
    replace ((1 + u) * (IZR N * p * IZR d)) with ((1 + u) * IZR N * (p * IZR d)) by ring.
    apply Rmult_le_compat_r; lra.
Qed.

Lemma of_int_value c :
  (0 < c)%Z →
  (1 - u) * IZR c <= double_value (of_int c)
  ∧ double_value (of_int c) <= (1 + u) * IZR c
  ∧ (0 < mantissa (of_int c))%Z.
Proof.
  intros Hc. destruct (round53_value c 1 Hc) as (H1 & H2 & H3); [done|].
  rewrite Rmult_1_r in H1, H2. done.
Qed.

Lemma double_value_pos x : (0 < mantissa x)%Z → 0 < double_value x.
Proof.
  intros Hx. apply Rmult_lt_0_compat; [by apply IZR_lt|apply powerRZ2_pos].
Qed.

Lemma fdiv_value x y :
  (0 < mantissa x)%Z → (0 < mantissa y)%Z →
  (1 - u) * double_value x <= double_value (fdiv x y) * double_value y
  ∧ double_value (fdiv x y) * double_value y <= (1 + u) * double_value x
  ∧ (0 < mantissa (fdiv x y))%Z.
Proof.
  intros Hx Hy. destruct (round53_value _ _ Hx Hy) as (H1 & H2 & H3).
  unfold fdiv, double_value in *. cbn [mantissa exponent].
  set (r := round53 (mantissa x) (mantissa y)) in *.
  unfold Z.sub. rewrite !powerRZ_add by lra.
  pose proof (powerRZ2_opp (exponent y)) as Hey.
  pose proof (powerRZ2_pos (exponent x)) as Hex.
  set (px := powerRZ 2 (exponent x)) in *.
  replace (IZR (mantissa r) * (powerRZ 2 (exponent r) * px * powerRZ 2 (- exponent y))
           * (IZR (mantissa y) * powerRZ 2 (exponent y)))
    with (IZR (mantissa r) * powerRZ 2 (exponent r) * IZR (mantissa y) * px
          * (powerRZ 2 (- exponent y) * powerRZ 2 (exponent y))) by ring.
  rewrite Hey, Rmult_1_r. split_and!; [| |done].
  - rewrite <-Rmult_assoc. apply Rmult_le_compat_r; lra.
  - rewrite <-Rmult_assoc. apply Rmult_le_compat_r; lra.
Qed.

Lemma fmul_value x y :
  (0 < mantissa x)%Z → (0 < mantissa y)%Z →
  (1 - u) * (double_value x * double_value y) <= double_value (fmul x y)
  ∧ double_value (fmul x y) <= (1 + u) * (double_value x * double_value y)
  ∧ (0 < mantissa (fmul x y))%Z.
Proof.
  intros Hx Hy.
  assert (0 < mantissa x * mantissa y)%Z as Hxy by lia.
  destruct (round53_value _ 1 Hxy) as (H1 & H2 & H3); [done|].
  rewrite Rmult_1_r, mult_IZR in H1, H2.
  unfold fmul, double_value in *. cbn [mantissa exponent].
  set (r := round53 (mantissa x * mantissa y) 1) in *.
  rewrite !powerRZ_add by lra.
  pose proof (powerRZ2_pos (exponent x)) as Hex.
  pose proof (powerRZ2_pos (exponent y)) as Hey.
  set (px := powerRZ 2 (exponent x)) in *. set (py := powerRZ 2 (exponent y)) in *.
  assert (0 < px * py) as Hp by (by apply Rmult_lt_0_compat).
  replace (IZR (mantissa r) * (powerRZ 2 (exponent r) * px * py))
    with (IZR (mantissa r) * powerRZ 2 (exponent r) * (px * py)) by ring.
  replace (IZR (mantissa x) * px * (IZR (mantissa y) * py))
    with (IZR (mantissa x) * IZR (mantissa y) * (px * py)) by ring.
  set (v := IZR (mantissa x) * IZR (mantissa y)) in *.
  split_and!; [| |done].
  - replace ((1 - u) * (v * (px * py))) with ((1 - u) * v * (px * py)) by ring.
    apply Rmult_le_compat_r; lra.
  - replace ((1 + u) * (v * (px * py))) with ((1 + u) * v * (px * py)) by ring.
    apply Rmult_le_compat_r; lra.
Qed.

Lemma round_hundredths_value x :
  (0 ≤ mantissa x)%Z →
  2 * IZR (round_hundredths x) <= 200 * double_value x + 1
  ∧ 200 * double_value x + 1 < 2 * IZR (round_hundredths x) + 2.
Proof.
  intros Hx. unfold round_hundredths.
  pose proof (scaled_value (100 * mantissa x) 1 (- exponent x)) as Hv.
  assert (0 < scaled_den 1 (- exponent x))%Z as HD.
  { unfold scaled_den. rewrite Z.mul_1_l. apply Z.pow_pos_nonneg; lia. }
  set (N := scaled_num _ _) in *. set (D := scaled_den _ _) in *.
  set (k := ((2 * N + D) / (2 * D))%Z).
  assert (2 * D * k <= 2 * N + D ∧ 2 * N + D < 2 * D * k + 2 * D)%Z as [Hk1 Hk2]
    by (unfold k; div_lia).
  apply IZR_le in Hk1. apply IZR_lt in Hk2, HD.
  repeat (rewrite plus_IZR in Hk1 || rewrite mult_IZR in Hk1).
  repeat (rewrite plus_IZR in Hk2 || rewrite mult_IZR in Hk2).
  rewrite Rmult_1_r, mult_IZR in Hv.
  assert (IZR N = 100 * double_value x * IZR D) as HN.
  { unfold double_value.
    transitivity (IZR N * (powerRZ 2 (- exponent x) * powerRZ 2 (exponent x))).
    - rewrite powerRZ2_opp. ring.
    - rewrite <-Rmult_assoc, Hv. ring. }
  rewrite HN in Hk1, Hk2. set (v := double_value x) in *.
  split.
  - apply (Rmult_le_reg_r (IZR D)); [done|]. lra.
  - apply (Rmult_lt_reg_r (IZR D)); [done|]. lra.
Qed.

Lemma percentage_value c T :
  (0 < c)%Z → (c <= T)%Z →
  let k := round_hundredths (fmul (fdiv (of_int c) (of_int T)) (of_int 100)) in
  (10 ^ 10 * (2 * Z.abs (k * T - 10000 * c) - T) <= c)%Z.
Proof.
  intros Hc HcT k.
  assert (0 < T)%Z as HT by lia.
  destruct (of_int_value c Hc) as (Hc1 & Hc2 & Hcm).
  destruct (of_int_value T HT) as (HT1 & HT2 & HTm).
  destruct (of_int_value 100) as (Hh1 & Hh2 & Hhm); [done|].
  destruct (fdiv_value _ _ Hcm HTm) as (Hq1 & Hq2 & Hqm).
  destruct (fmul_value _ _ Hqm Hhm) as (Hf1 & Hf2 & Hfm).
  destruct (round_hundredths_value (fmul (fdiv (of_int c) (of_int T)) (of_int 100)))
    as [Hk1 Hk2]; [lia|].
  fold k in Hk1, Hk2.
  pose proof (double_value_pos _ Hqm) as Hq0.
  pose proof (double_value_pos _ Hfm) as Hf0.
  apply IZR_lt in Hc, HT. apply IZR_le in HcT.
  set (V1 := double_value (of_int c)) in *.
  set (V2 := double_value (of_int T)) in *.
  set (Vq := double_value (fdiv (of_int c) (of_int T))) in *.
  set (Vh := double_value (of_int 100)) in *.
  set (Vf := double_value (fmul (fdiv (of_int c) (of_int T)) (of_int 100))) in *.
  set (rc := IZR c) in *. set (rT := IZR T) in *.
  assert (Vq * ((1 - u) * rT) <= Vq * V2) as Ha1
    by (apply Rmult_le_compat_l; lra).
  assert (Vq * V2 <= Vq * ((1 + u) * rT)) as Ha2
    by (apply Rmult_le_compat_l; lra).
  assert (Vq * ((1 - u) * 100) <= Vq * Vh) as Hb1
    by (apply Rmult_le_compat_l; lra).
  assert (Vq * Vh <= Vq * ((1 + u) * 100)) as Hb2
    by (apply Rmult_le_compat_l; lra).
  set (qT := Vq * rT) in *.
  assert (Vq * ((1 - u) * rT) = (1 - u) * qT) as Hr1 by (unfold qT; ring).
  assert (Vq * ((1 + u) * rT) = (1 + u) * qT) as Hr2 by (unfold qT; ring).
  rewrite Hr1 in Ha1. rewrite Hr2 in Ha2.
  assert (Vq * ((1 - u) * 100) = (1 - u) * 100 * Vq) as Hr3 by ring.
  assert (Vq * ((1 + u) * 100) = (1 + u) * 100 * Vq) as Hr4 by ring.
  rewrite Hr3 in Hb1. rewrite Hr4 in Hb2.
  assert ((1 - u) * ((1 - u) * 100 * Vq) <= Vf
          ∧ Vf <= (1 + u) * ((1 + u) * 100 * Vq)) as [Hg1 Hg2] by lra.
  assert ((1 - u) * ((1 - u) * 100 * qT) <= Vf * rT
          ∧ Vf * rT <= (1 + u) * ((1 + u) * 100 * qT)) as [Hg3 Hg4].
  { split.
    - replace ((1 - u) * ((1 - u) * 100 * qT))
        with ((1 - u) * ((1 - u) * 100 * Vq) * rT) by (unfold qT; ring).
      apply Rmult_le_compat_r; lra.
    - replace ((1 + u) * ((1 + u) * 100 * qT))
        with ((1 + u) * ((1 + u) * 100 * Vq) * rT) by (unfold qT; ring).
      apply Rmult_le_compat_r; lra. }
  set (fT := Vf * rT) in *.
  assert (2 * (IZR k * rT) <= 200 * fT + rT
          ∧ 200 * fT + rT < 2 * (IZR k * rT) + 2 * rT) as [Hk3 Hk4].
  { split.
    - replace (200 * fT + rT) with ((200 * Vf + 1) * rT) by (unfold fT; ring).
      rewrite <-Rmult_assoc. apply Rmult_le_compat_r; lra.
    - replace (200 * fT + rT) with ((200 * Vf + 1) * rT) by (unfold fT; ring).
      replace (2 * (IZR k * rT) + 2 * rT) with ((2 * IZR k + 2) * rT) by ring.
      apply Rmult_lt_compat_r; lra. }
  set (kT := IZR k * rT) in *.
  assert (10000000000 * (2 * (kT - 10000 * rc) - rT) <= rc
          ∧ 10000000000 * (2 * (10000 * rc - kT) - rT) <= rc)
    as [Hz1 Hz2] by (split; lra).
  unfold kT, rc, rT in Hz1, Hz2.
  rewrite <-!mult_IZR, <-!minus_IZR, <-!mult_IZR, <-!minus_IZR, <-!mult_IZR
    in Hz1.
  rewrite <-!mult_IZR, <-!minus_IZR, <-!mult_IZR, <-!minus_IZR, <-!mult_IZR
    in Hz2.
  apply le_IZR in Hz1, Hz2. lia.
Qed.
End double_error.

(** The arithmetic above gives the numbers the machine gives: for every
    count of the totals up to 40, of 160 and of 320, and for some larger
    counts and totals. *)
Example double_arithmetic_ex :
  forallb (λ p, same_number (fmul (fdiv (of_int p.1) (of_int p.2)) (of_int 100))
                            (hardware_percentage p.1 p.2))
          (counts_of (seqZ 1 40 ++ [160; 320])
           ++ [(86399, 86400); (1, 1000003); (333334, 1000003);
               (12345678901, 98765432109);
               (9007199254740993, 9007199254740995)])
  = true.
Proof. vm_compute. reflexivity. Qed.

Lemma round_hundredths_zero (e : Z) : round_hundredths (mkDouble 0 e) = 0.
Proof.
  unfold round_hundredths, scaled_num, scaled_den. cbn [mantissa exponent].
  assert (0 < 2 ^ Z.max 0 (- e)) by (apply Z.pow_pos_nonneg; lia).
  set (D := 2 ^ Z.max 0 (- e)) in *.
  replace (2 * (100 * 0 * 2 ^ Z.max 0 (- - e)) + 1 * D) with D by lia.
  apply Z.div_small. lia.
Qed.

(** The percentage of [c] events of [T] is within half a hundredth of
    [c / T * 100], up to [c * 10^-10] of a half hundredth of [T]. *)
Lemma round_percentage_near (c T : nat) :
  (c ≤ T)%nat → (0 < T)%nat →
  ∃ p, round_percentage c (Some T) = Some p ∧
       10 ^ 10 * (2 * Z.abs (p * Z.of_nat T - 10000 * Z.of_nat c) - Z.of_nat T)
       ≤ Z.of_nat c.
Proof.
  intros HcT HT. destruct T as [|n]; [lia|].
  unfold round_percentage. eexists. split; [reflexivity|].
  destruct c as [|c].
  - change (of_int (Z.of_nat 0)) with (mkDouble 0 0).
    unfold fdiv, fmul. cbn [mantissa exponent round53 decide].
    change (round53 0 (mantissa (of_int (Z.of_nat (S n))))) with (mkDouble 0 0).
    cbn [mantissa exponent]. rewrite Z.mul_0_l.
    change (round53 0 1) with (mkDouble 0 0). cbn [mantissa exponent].
    rewrite round_hundredths_zero. lia.
  - apply percentage_value; lia.
Qed.

Lemma round_percentage_ok (c T : nat) :
  (c ≤ T)%nat → (0 < T)%nat →
  percentage_ok c T (round_percentage c (Some T)).
Proof.
  intros HcT HT.
  destruct (round_percentage_near c T HcT HT) as (p & -> & Hp).
  exists p. split; [done|]. split; [lia|]. intros Hsmall. lia.
Qed.

Lemma count_le_sum (report : list Breakdown.t) (row : Breakdown.t) :
  row ∈ report →
  (Breakdown.count row ≤ sum_list (Breakdown.count <$> report))%nat.
Proof.
  induction report as [|x report IH]; [by intros ?%elem_of_nil|].
  rewrite elem_of_cons, fmap_cons. simpl. intros [->|Hin]; [lia|].
  specialize (IH Hin). lia.
Qed.

Lemma total_percentage_bounds (T : nat) (report : list Breakdown.t) :
  (0 < T)%nat →
  Forall (λ row, (Breakdown.count row ≤ T)%nat ∧
                 Breakdown.percentage row
                 = round_percentage (Breakdown.count row) (Some T)) report →
  10 ^ 10 * (2 * Z.abs (total_percentage report * Z.of_nat T
                        - 10000 * Z.of_nat (sum_list (Breakdown.count <$> report)))
             - Z.of_nat (length report) * Z.of_nat T)
  ≤ Z.of_nat (sum_list (Breakdown.count <$> report)).
Proof.
  intros HT.
  induction 1 as [|row report [Hle Hrow] Hrep IH]; [simpl; lia|].
  destruct (round_percentage_near _ T Hle HT) as (p & Hp & Hnear).
  rewrite Hp in Hrow.
  rewrite fmap_cons. cbn [length total_percentage foldr sum_list_with].
  fold (total_percentage report). rewrite Hrow. cbn [default].
  rewrite Nat2Z.inj_add, Nat2Z.inj_succ. cbn [Datatypes.id].
  set (c := Z.of_nat (Breakdown.count row)) in *. clearbody c.
  set (C := Z.of_nat (sum_list (Breakdown.count <$> report))) in *. clearbody C.
  set (P := total_percentage report) in *. clearbody P.
  set (n := Z.of_nat (length report)) in *. clearbody n.
  set (Z := Z.of_nat T) in *. clearbody Z.
  lia.
Qed.

Lemma sql_sum_positive (counts : list nat) (T : nat) :
  sum_list counts = T → (0 < T)%nat → sql_sum counts = Some T.
Proof. intros <- Hpos. destruct counts; [simpl in Hpos; lia|done]. Qed.

(** The report of a breakdown query is what the specification asks. *)
Lemma breakdown_ok col placeholder siteId startTime endTime t :
  report_ok (length (filter (in_window siteId startTime endTime) (rows t)))
            (breakdown col placeholder siteId startTime endTime t).
Proof.
  unfold breakdown. rewrite cross_total.
  pose proof (key_counts_sum col placeholder siteId startTime endTime t) as Hsum.
  set (counts := key_counts col placeholder siteId startTime endTime t) in *.
  set (total := length (filter (in_window siteId startTime endTime) (rows t))) in *.
  set (T := sql_sum counts.*2).
  set (R := λ a b : string * nat * option nat, count_ge a.1 b.1).
  assert (Transitive R) by (intros a b c; unfold R, count_ge; lia).
  assert (Total R) by (intros a b; unfold R, count_ge; lia).
  set (sorted := merge_sort R ((λ c, (c, T)) <$> counts)).
  assert (sorted ≡ₚ (λ c, (c, T)) <$> counts) as Hperm
    by apply merge_sort_Permutation.
  set (mk := λ row : string * nat * option nat,
               Breakdown.mk row.1.1 row.1.2 (round_percentage row.1.2 row.2)).
  assert (Breakdown.count <$> (mk <$> sorted) ≡ₚ counts.*2) as Hcounts.
  { rewrite <-list_fmap_compose, Hperm, <-list_fmap_compose. done. }
  assert (sum_list (Breakdown.count <$> (mk <$> sorted)) = total) as Hsum'
    by (by rewrite Hcounts).
  assert (Forall (λ row, (Breakdown.count row ≤ total)%nat ∧
                         Breakdown.percentage row
                         = round_percentage (Breakdown.count row) T)
                 (mk <$> sorted)) as Hpct.
  { apply Forall_forall. intros row Hrow. split.
    - rewrite <-Hsum'. by apply count_le_sum.
    - apply list_elem_of_fmap in Hrow as (x & -> & Hx). simpl.
      rewrite Hperm in Hx. apply list_elem_of_fmap in Hx as (c & -> & _).
      done. }
  split; [done|]. split.
  { apply (StronglySorted_fmap mk R); [done|].
    by apply StronglySorted_merge_sort. }
  split.
  { intros Hzero. unfold total in Hzero. apply nil_length_inv in Hzero.
    unfold sorted, counts, key_counts. by rewrite Hzero. }
  intros Hpos.
  assert (T = Some total) as HT by by apply sql_sum_positive.
  rewrite HT in Hpct. split.
  - intros row Hrow. rewrite Forall_forall in Hpct.
    destruct (Hpct row Hrow) as [Hle ->]. by apply round_percentage_ok.
  - pose proof (total_percentage_bounds total (mk <$> sorted) Hpos Hpct) as Hb.
    rewrite Hsum' in Hb.
    set (P := total_percentage (mk <$> sorted)) in *. clearbody P.
    set (k := Z.of_nat (length (mk <$> sorted))) in *. clearbody k.
    assert (0 < Z.of_nat total) as HZ by lia.
    set (Z := Z.of_nat total) in *. clearbody Z.
    assert (10 ^ 10 * (2 * Z.abs (P - 10000) - k) * Z ≤ Z) as Hb'.
    { replace (P * Z - 10000 * Z) with ((P - 10000) * Z) in Hb by lia.
      rewrite Z.abs_mul, (Z.abs_eq Z) in Hb by lia. lia. }
    assert (2 * Z.abs (P - 10000) - k ≤ 0); [|lia].
    destruct (decide (2 * Z.abs (P - 10000) - k ≤ 0)) as [|Hn]; [done|].
    assert (10 ^ 10 * Z ≤ 10 ^ 10 * (2 * Z.abs (P - 10000) - k) * Z); [|lia].
    rewrite <-Z.mul_assoc. apply Z.mul_le_mono_nonneg_l; [lia|].
    rewrite <-(Z.mul_1_l Z) at 1. apply Z.mul_le_mono_nonneg_r; lia.
Qed.

Lemma run_select_open {A} (q : Table → A) self :
  db self = Some Open →
  (require_db ≫= λ h, run_on h (select q)) self = (Ok (q (storage self)), self).
Proof. destruct self as [p d t]; simpl. by intros ->. Qed.

(** C4 (amended): on an open store, each of [getReferrerBreakdown],
    [getPathsBreakdown] and [getCountryBreakdown] over (siteId, startTime,
    endTime) returns a report whose counts add up to the number of
    matching events, in descending order of count, empty when no event
    matches (nothing is thrown), and in which, when events match, every
    percentage is within 0.005 * (1 + 10^-9) of [count / total * 100],
    and within 0.005 of it when fewer than 10^10 events match, so that no
    hundredth is nearer; the percentages add up to 100.00 up to half a
    hundredth per row. *)
Theorem breakdown_reports (self : TrafficDB) (siteId : string)
    (startTime endTime : Z) :
  db self = Some Open →
  ∃ referrers paths countries,
    getReferrerBreakdown siteId startTime endTime self = (Ok referrers, self) ∧
    getPathsBreakdown siteId startTime endTime self = (Ok paths, self) ∧
    getCountryBreakdown siteId startTime endTime self = (Ok countries, self) ∧
    report_ok (length (filter (in_window siteId startTime endTime)
                              (rows (storage self)))) referrers ∧
    report_ok (length (filter (in_window siteId startTime endTime)
                              (rows (storage self)))) paths ∧
    report_ok (length (filter (in_window siteId startTime endTime)
                              (rows (storage self)))) countries.
Proof.
  intros Hopen.
  exists (breakdown referrer "(direct)" siteId startTime endTime (storage self)),
         (breakdown path "(no path)" siteId startTime endTime (storage self)),
         (breakdown country "(unknown)" siteId startTime endTime (storage self)).
  unfold getReferrerBreakdown, getPathsBreakdown, getCountryBreakdown.
  rewrite !run_select_open by done.
  do 3 (split; [done|]).
  split; [apply breakdown_ok|]. split; apply breakdown_ok.
Qed.

Lemma breakdown_reports_witness :
  ∃ referrers paths countries,
    getReferrerBreakdown "site-a" 0 5000 example_store
    = (Ok referrers, example_store) ∧
    getPathsBreakdown "site-a" 0 5000 example_store = (Ok paths, example_store) ∧
    getCountryBreakdown "site-a" 0 5000 example_store
    = (Ok countries, example_store) ∧
    report_ok (length (filter (in_window "site-a" 0 5000)
                              (rows (storage example_store)))) referrers ∧
    report_ok (length (filter (in_window "site-a" 0 5000)
                              (rows (storage example_store)))) paths ∧
    report_ok (length (filter (in_window "site-a" 0 5000)
                              (rows (storage example_store)))) countries.
Proof.
  apply (breakdown_reports example_store "site-a" 0 5000). reflexivity.
Defined.

(** The percentage is not always [count / total * 100] rounded to two
    decimal places. Of the 160 events of [busy_store] 23 came from a
    referrer: 14.375 percent, 14.38 when rounded (a half away from zero, or
    to the even hundredth). The quotient is rounded to a binary64 number,
    and so is its product with 100, which is 14.37499999999999822...: the
    report has 14.37. *)
Lemma percentage_not_rounded :
  getReferrerBreakdown "site-a" 0 5000 busy_store
  = (Ok [Breakdown.mk "(direct)" 137 (Some 8563);
         Breakdown.mk "https://example.com" 23 (Some 1437)], busy_store) ∧
  length (filter (in_window "site-a" 0 5000) (rows (storage busy_store)))
  = 160%nat ∧
  nearest_hundredth 23 160 = 1438 ∧
  fmul (fdiv (of_int 23) (of_int 160)) (of_int 100)
  = mkDouble 8092405580431359 (-49).
Proof. vm_compute. repeat split. Qed.

(** The referrers of site-a in [example_store]; the order of rows with the
    same count is the engine's choice. *)
Example breakdown_ex :
  ∃ report,
    getReferrerBreakdown "site-a" 0 5000 example_store
    = (Ok report, example_store) ∧
    report ≡ₚ [Breakdown.mk "(direct)" 1 (Some 5000);
               Breakdown.mk "https://google.com" 1 (Some 5000)].
Proof. eexists. split; [reflexivity|]. vm_compute. done. Qed.

(** ** Summary stats *)

Lemma length_filter_split {A} (P Q : A → Prop) `{∀ x, Decision (P x)}
    `{∀ x, Decision (Q x)} (l : list A) :
  Forall (λ x, (P x ∨ Q x) ∧ ¬ (P x ∧ Q x)) l →
  length l = (length (filter P l) + length (filter Q l))%nat.
Proof.
  induction 1 as [|x l [Hor Hnand] Hl IH]; [done|].
  rewrite !filter_cons. simpl. rewrite IH.
  repeat case_decide; simpl; try lia; tauto.
Qed.

(** C5: on an open store, [getTrafficStats] over (siteId, startTime,
    endTime) reports: as [total_requests] the number of matching events;
    as [unique_visitors] the number of distinct non-null [ipAddress] values
    among them; as [total_website_requests] the number of those whose
    [requestType] is "static" or null; as [total_server_requests] the
    number of those whose [requestType] is "api"; and when every matching
    event has [requestType] null, "static" or "api", [total_requests] is
    the sum of the other two. *)
Theorem traffic_stats_counts (self : TrafficDB) (siteId : string)
    (startTime endTime : Z) :
  db self = Some Open →
  ∃ stats visitors,
    getTrafficStats siteId startTime endTime self = (Ok stats, self) ∧
    total_requests stats
    = length (filter (in_window siteId startTime endTime) (rows (storage self))) ∧
    NoDup visitors ∧
    (∀ ip, ip ∈ visitors ↔
           ∃ r, r ∈ rows (storage self) ∧ in_window siteId startTime endTime r ∧
                ip_address r = Some ip) ∧
    unique_visitors stats = length visitors ∧
    total_website_requests stats
    = length (filter (λ r, in_window siteId startTime endTime r ∧
                           (request_type r = Some "static" ∨ request_type r = None))
                     (rows (storage self))) ∧
    total_server_requests stats
    = length (filter (λ r, in_window siteId startTime endTime r ∧
                           request_type r = Some "api")
                     (rows (storage self))) ∧
    ((∀ r, r ∈ rows (storage self) → in_window siteId startTime endTime r →
           request_type r = None ∨ request_type r = Some "static" ∨
           request_type r = Some "api") →
     total_requests stats
     = (total_website_requests stats + total_server_requests stats)%nat).
Proof.
  intros Hopen.
  set (matching := filter (in_window siteId startTime endTime) (rows (storage self))).
  exists (traffic_stats siteId startTime endTime (storage self)),
         (remove_dups (omap ip_address matching)).
  unfold getTrafficStats. rewrite run_select_open by done.
  split; [done|]. split; [done|].
  split; [apply NoDup_remove_dups|]. split.
  { intros ip. rewrite elem_of_remove_dups, list_elem_of_omap.
    unfold matching. split.
    - intros (r & Hr & Hip). apply list_elem_of_filter in Hr as [? ?]. eauto.
    - intros (r & Hr & Hw & Hip). exists r. by rewrite list_elem_of_filter. }
  split; [done|]. split.
  { simpl. fold matching. unfold matching. rewrite list_filter_filter.
    f_equal. apply list_filter_iff. intros; tauto. }
  split.
  { simpl. fold matching. unfold matching. rewrite list_filter_filter.
    f_equal. apply list_filter_iff. intros; tauto. }
  intros Htypes. simpl. fold matching.
  apply length_filter_split. apply Forall_forall. intros r Hr.
  apply list_elem_of_filter in Hr as [Hw Hin].
  destruct (Htypes r Hin Hw) as [Ht|[Ht|Ht]]; rewrite Ht;
    split; try tauto; intros [Ha Hb]; try done; by destruct Ha.
Qed.

Lemma traffic_stats_counts_witness :
  db example_store = Some Open ∧
  ∃ stats visitors,
    getTrafficStats "site-a" 0 5000 example_store = (Ok stats, example_store) ∧
    total_requests stats
    = length (filter (in_window "site-a" 0 5000) (rows (storage example_store))) ∧
    NoDup visitors ∧
    (∀ ip, ip ∈ visitors ↔
           ∃ r, r ∈ rows (storage example_store) ∧ in_window "site-a" 0 5000 r ∧
                ip_address r = Some ip) ∧
    unique_visitors stats = length visitors ∧
    total_website_requests stats
    = length (filter (λ r, in_window "site-a" 0 5000 r ∧
                           (request_type r = Some "static" ∨ request_type r = None))
                     (rows (storage example_store))) ∧
    total_server_requests stats
    = length (filter (λ r, in_window "site-a" 0 5000 r ∧
                           request_type r = Some "api")
                     (rows (storage example_store))) ∧
    ((∀ r, r ∈ rows (storage example_store) → in_window "site-a" 0 5000 r →
           request_type r = None ∨ request_type r = Some "static" ∨
           request_type r = Some "api") →
     total_requests stats
     = (total_website_requests stats + total_server_requests stats)%nat).
Proof.
  split; [reflexivity|].
  apply (traffic_stats_counts example_store "site-a" 0 5000). reflexivity.
Defined.

(** The stats of site-a in [example_store]; the two referrers have the
    same count, and their order is the engine's choice. *)
Example traffic_stats_ex :
  ∃ stats,
    getTrafficStats "site-a" 0 5000 example_store = (Ok stats, example_store) ∧
    total_requests stats = 2%nat ∧ unique_visitors stats = 1%nat ∧
    total_website_requests stats = 1%nat ∧
    total_server_requests stats = 1%nat ∧
    top_referrers stats
    ≡ₚ [("(direct)", 1%nat); ("https://google.com", 1%nat)].
Proof. eexists. split; [reflexivity|]. vm_compute. by repeat split. Qed.

(** ** Placeholders for null keys *)

Lemma length_filter_fmap {A B} (f : A → B) (P : B → Prop)
    `{∀ y, Decision (P y)} (l : list A) :
  length (filter P (f <$> l)) = length (filter (λ x, P (f x)) l).
Proof.
  induction l as [|x l IH]; [done|].
  rewrite fmap_cons, !filter_cons. case_decide; simpl; by rewrite IH.
Qed.

(** The group of the events whose key is null is listed under the
    placeholder, with their number. *)
Lemma key_counts_null col placeholder siteId startTime endTime t r :
  r ∈ rows t → in_window siteId startTime endTime r → col r = None →
  (placeholder,
   length (filter (λ x, in_window siteId startTime endTime x ∧ col x = None)
                  (rows t)))
  ∈ key_counts col placeholder siteId startTime endTime t.
Proof.
  intros Hin Hw Hnull. unfold key_counts.
  set (matching := filter (in_window siteId startTime endTime) (rows t)).
  assert (None ∈ col <$> matching) as Hkey.
  { apply list_elem_of_fmap. exists r. split; [done|].
    by apply list_elem_of_filter. }
  apply group_count_elem in Hkey.
  apply list_elem_of_fmap. eexists. split; [|exact Hkey]. simpl.
  f_equal. rewrite length_filter_fmap. unfold matching.
  rewrite list_filter_filter. f_equal. apply list_filter_iff.
  intros x. split; intros [? ?]; split; congruence.
Qed.

Lemma breakdown_null col placeholder siteId startTime endTime t r :
  r ∈ rows t → in_window siteId startTime endTime r → col r = None →
  ∃ row, row ∈ breakdown col placeholder siteId startTime endTime t ∧
         Breakdown.key row = placeholder ∧
         Breakdown.count row
         = length (filter (λ x, in_window siteId startTime endTime x ∧
                                col x = None) (rows t)).
Proof.
  intros Hin Hw Hnull.
  pose proof (key_counts_null col placeholder _ _ _ _ _ Hin Hw Hnull) as Hkc.
  unfold breakdown. rewrite cross_total.
  eexists (Breakdown.mk _ _ _). split; [|done].
  apply list_elem_of_fmap. eexists (_, _, _). split; [reflexivity|].
  rewrite merge_sort_Permutation. apply list_elem_of_fmap.
  eexists. split; [reflexivity|exact Hkc].
Qed.

(** C6: on an open store, for an event of the window whose [referrer]
    is null, [getReferrerBreakdown] has a row under the key "(direct)" that
    counts the events of the window with a null [referrer]; likewise the
    row "(no path)" of [getPathsBreakdown] for a null [path] and the row
    "(unknown)" of [getCountryBreakdown] for a null [country]. The
    [top_referrers] of [getTrafficStats] are keys and counts of rows of the
    referrer breakdown, so null referrers are under "(direct)" there too,
    and the row "(direct)" is among them unless ten rows with counts at
    least as large fill the list. *)
Theorem null_keys_coalesced (self : TrafficDB) (siteId : string)
    (startTime endTime : Z) (r : TrafficDBRecord) :
  db self = Some Open →
  r ∈ rows (storage self) →
  in_window siteId startTime endTime r →
  ∃ referrers paths countries stats,
    getReferrerBreakdown siteId startTime endTime self = (Ok referrers, self) ∧
    getPathsBreakdown siteId startTime endTime self = (Ok paths, self) ∧
    getCountryBreakdown siteId startTime endTime self = (Ok countries, self) ∧
    getTrafficStats siteId startTime endTime self = (Ok stats, self) ∧
    (referrer r = None →
     ∃ row, row ∈ referrers ∧ Breakdown.key row = "(direct)" ∧
            Breakdown.count row
            = length (filter (λ x, in_window siteId startTime endTime x ∧
                                   referrer x = None) (rows (storage self)))) ∧
    (path r = None →
     ∃ row, row ∈ paths ∧ Breakdown.key row = "(no path)" ∧
            Breakdown.count row
            = length (filter (λ x, in_window siteId startTime endTime x ∧
                                   path x = None) (rows (storage self)))) ∧
    (country r = None →
     ∃ row, row ∈ countries ∧ Breakdown.key row = "(unknown)" ∧
            Breakdown.count row
            = length (filter (λ x, in_window siteId startTime endTime x ∧
                                   country x = None) (rows (storage self)))) ∧
    (∀ kc, kc ∈ top_referrers stats →
           ∃ row, row ∈ referrers ∧ Breakdown.key row = kc.1 ∧
                  Breakdown.count row = kc.2) ∧
    (referrer r = None →
     ("(direct)",
      length (filter (λ x, in_window siteId startTime endTime x ∧
                           referrer x = None) (rows (storage self))))
     ∈ top_referrers stats
     ∨ (length (top_referrers stats) = 10%nat ∧
        ∀ kc, kc ∈ top_referrers stats →
              (length (filter (λ x, in_window siteId startTime endTime x ∧
                                    referrer x = None) (rows (storage self)))
               ≤ kc.2)%nat)).
Proof.
  intros Hopen Hin Hw.
  exists (breakdown referrer "(direct)" siteId startTime endTime (storage self)),
         (breakdown path "(no path)" siteId startTime endTime (storage self)),
         (breakdown country "(unknown)" siteId startTime endTime (storage self)),
         (traffic_stats siteId startTime endTime (storage self)).
  unfold getReferrerBreakdown, getPathsBreakdown, getCountryBreakdown,
    getTrafficStats.
  rewrite !run_select_open by done.
  do 4 (split; [done|]).
  split; [by apply breakdown_null|].
  split; [by apply breakdown_null|].
  split; [by apply breakdown_null|].
  set (counts := key_counts referrer "(direct)" siteId startTime endTime
                   (storage self)).
  assert (StronglySorted count_ge (order_by_count_desc counts)) as Hsorted
    by (apply StronglySorted_merge_sort; apply _).
  assert (order_by_count_desc counts ≡ₚ counts) as Hperm
    by apply merge_sort_Permutation.
  assert (top_referrers (traffic_stats siteId startTime endTime (storage self))
          = take 10 (order_by_count_desc counts)) as Htop by done.
  rewrite Htop. split.
  - intros kc Hkc. apply subseteq_take in Hkc. rewrite Hperm in Hkc.
    unfold breakdown. rewrite cross_total.
    eexists (Breakdown.mk _ _ _). split; [|done].
    apply list_elem_of_fmap. eexists (_, _, _). split; [reflexivity|].
    rewrite merge_sort_Permutation. apply list_elem_of_fmap.
    eexists. split; [|exact Hkc]. by destruct kc.
  - intros Hnull.
    pose proof (key_counts_null referrer "(direct)" _ _ _ _ _ Hin Hw Hnull) as Hkc.
    fold counts in Hkc. rewrite <-Hperm in Hkc.
    rewrite <-(take_drop 10 (order_by_count_desc counts)) in Hkc, Hsorted.
    apply elem_of_app in Hkc as [Hkc|Hkc]; [by left|right].
    split.
    + rewrite length_take. apply Nat.min_l.
      destruct (decide (10 ≤ length (order_by_count_desc counts))%nat);
        [done|].
      rewrite drop_ge in Hkc by lia. by apply elem_of_nil in Hkc.
    + intros kc Hkc'.
      apply (StronglySorted_app_1_elem_of _ _ _ _ _ Hsorted Hkc' Hkc).
Qed.

Lemma null_keys_coalesced_witness :
  db example_store = Some Open ∧
  first_visit ∈ rows (storage example_store) ∧
  in_window "site-a" 0 5000 first_visit ∧
  ∃ referrers paths countries stats,
    getReferrerBreakdown "site-a" 0 5000 example_store = (Ok referrers, example_store) ∧
    getPathsBreakdown "site-a" 0 5000 example_store = (Ok paths, example_store) ∧
    getCountryBreakdown "site-a" 0 5000 example_store = (Ok countries, example_store) ∧
    getTrafficStats "site-a" 0 5000 example_store = (Ok stats, example_store) ∧
    (referrer first_visit = None →
     ∃ row, row ∈ referrers ∧ Breakdown.key row = "(direct)" ∧
            Breakdown.count row
            = length (filter (λ x, in_window "site-a" 0 5000 x ∧
                                   referrer x = None) (rows (storage example_store)))) ∧
    (path first_visit = None →
     ∃ row, row ∈ paths ∧ Breakdown.key row = "(no path)" ∧
            Breakdown.count row
            = length (filter (λ x, in_window "site-a" 0 5000 x ∧
                                   path x = None) (rows (storage example_store)))) ∧
    (country first_visit = None →
     ∃ row, row ∈ countries ∧ Breakdown.key row = "(unknown)" ∧
            Breakdown.count row
            = length (filter (λ x, in_window "site-a" 0 5000 x ∧
                                   country x = None) (rows (storage example_store)))) ∧
    (∀ kc, kc ∈ top_referrers stats →
           ∃ row, row ∈ referrers ∧ Breakdown.key row = kc.1 ∧
                  Breakdown.count row = kc.2) ∧
    (referrer first_visit = None →
     ("(direct)",
      length (filter (λ x, in_window "site-a" 0 5000 x ∧
                           referrer x = None) (rows (storage example_store))))
     ∈ top_referrers stats
     ∨ (length (top_referrers stats) = 10%nat ∧
        ∀ kc, kc ∈ top_referrers stats →
              (length (filter (λ x, in_window "site-a" 0 5000 x ∧
                                    referrer x = None) (rows (storage example_store)))
               ≤ kc.2)%nat)).
Proof.
  assert (first_visit ∈ rows (storage example_store)) as Hin by left.
  assert (in_window "site-a" 0 5000 first_visit) as Hw
    by (unfold in_window; simpl; split; [done|lia]).
  split; [reflexivity|]. split; [exact Hin|]. split; [exact Hw|].
  exact (null_keys_coalesced example_store "site-a" 0 5000 first_visit
           eq_refl Hin Hw).
Defined.

(** ** The calendar *)

Lemma year_of_era_spec doe :
  0 ≤ doe ≤ 146096 →
  0 ≤ (doe - doe / 1460 + doe / 36524 - doe / 146096) / 365 ≤ 399 ∧
  days_before_year ((doe - doe / 1460 + doe / 36524 - doe / 146096) / 365)
  ≤ doe ∧
  doe - days_before_year ((doe - doe / 1460 + doe / 36524 - doe / 146096) / 365)
  ≤ 365.
Proof.
  intros H. unfold days_before_year. div_lia.
Qed.

Lemma year_of_era_mono doe1 doe2 :
  0 ≤ doe1 → doe1 < doe2 → doe2 ≤ 146096 →
  (doe1 - doe1 / 1460 + doe1 / 36524 - doe1 / 146096) / 365
  ≤ (doe2 - doe2 / 1460 + doe2 / 36524 - doe2 / 146096) / 365.
Proof.
  intros H0 H1 H2. div_lia.
Qed.

Lemma month_spec doy :
  0 ≤ doy ≤ 365 →
  0 ≤ (5 * doy + 2) / 153 ≤ 11 ∧
  1 ≤ doy - (153 * ((5 * doy + 2) / 153) + 2) / 5 + 1 ≤ 31.
Proof. intros H. div_lia. Qed.

Lemma month_mono doy1 doy2 :
  0 ≤ doy1 → doy1 < doy2 → doy2 ≤ 365 →
  (5 * doy1 + 2) / 153 < (5 * doy2 + 2) / 153 ∨
  ((5 * doy1 + 2) / 153 = (5 * doy2 + 2) / 153 ∧
   doy1 - (153 * ((5 * doy1 + 2) / 153) + 2) / 5 + 1
   < doy2 - (153 * ((5 * doy2 + 2) / 153) + 2) / 5 + 1).
Proof. intros H0 H1 H2. div_lia. Qed.

Example date_text_examples :
  date_text 0 = "1970-01-01" ∧ date_text DAY_MIN = "0000-01-01" ∧
  date_text DAY_MAX = "9999-12-31" ∧ date_text (-25509) = "1900-02-28" ∧
  date_text (-25508) = "1900-03-01" ∧ date_text 11016 = "2000-02-29" ∧
  date_text 19782 = "2024-02-29" ∧ date_text 19783 = "2024-03-01" ∧
  date_text 20088 = "2024-12-31" ∧ date_text 20089 = "2025-01-01" ∧
  date_text 47540 = "2100-02-28" ∧ date_text 47541 = "2100-03-01".
Proof. repeat split. Qed.

(** Later days are later dates. *)
Lemma civil_from_days_lt z1 z2 :
  z1 < z2 → date_lt (civil_from_days z1) (civil_from_days z2).
Proof.
  intros Hlt. unfold civil_from_days. cbv zeta.
  set (e1 := (z1 + 719468) / 146097). set (e2 := (z2 + 719468) / 146097).
  set (doe1 := z1 + 719468 - e1 * 146097).
  set (doe2 := z2 + 719468 - e2 * 146097).
  assert (0 ≤ doe1 ≤ 146096 ∧ 0 ≤ doe2 ≤ 146096 ∧
          (e1 < e2 ∨ (e1 = e2 ∧ doe1 < doe2))) as (Hd1 & Hd2 & He).
  { unfold doe1, doe2, e1, e2. div_lia. }
  clearbody doe1 doe2 e1 e2. clear Hlt z1 z2.
  pose proof (year_of_era_spec doe1 Hd1) as (Hy1 & Hb1 & Hc1).
  pose proof (year_of_era_spec doe2 Hd2) as (Hy2 & Hb2 & Hc2).
  assert (e1 = e2 →
          (doe1 - doe1 / 1460 + doe1 / 36524 - doe1 / 146096) / 365
          ≤ (doe2 - doe2 / 1460 + doe2 / 36524 - doe2 / 146096) / 365) as Hym.
  { intros ->. apply year_of_era_mono; lia. }
  unfold days_before_year in *.
  set (yoe1 := (doe1 - doe1 / 1460 + doe1 / 36524 - doe1 / 146096) / 365) in *.
  set (yoe2 := (doe2 - doe2 / 1460 + doe2 / 36524 - doe2 / 146096) / 365) in *.
  set (doy1 := doe1 - (365 * yoe1 + yoe1 / 4 - yoe1 / 100)) in *.
  set (doy2 := doe2 - (365 * yoe2 + yoe2 / 4 - yoe2 / 100)) in *.
  assert (e1 = e2 → yoe1 = yoe2 → doy1 < doy2) as Hdoy.
  { intros -> Heq. unfold doy1, doy2. rewrite Heq. lia. }
  assert (0 ≤ doy1 ≤ 365) as Hr1 by lia.
  assert (0 ≤ doy2 ≤ 365) as Hr2 by lia.
  assert (e1 < e2 ∨
          (e1 = e2 ∧ (yoe1 < yoe2 ∨ (yoe1 = yoe2 ∧ doy1 < doy2)))) as Hlex.
  { destruct He as [?|[Heq Hdoe]]; [by left|right]. split; [done|].
    specialize (Hym Heq). destruct (decide (yoe1 = yoe2)); [|lia].
    right. split; [done|]. by apply Hdoy. }
  clearbody doy1 doy2 yoe1 yoe2.
  clear Hb1 Hb2 Hc1 Hc2 Hd1 Hd2 He Hym Hdoy doe1 doe2.
  pose proof (month_spec doy1 Hr1) as [Hm1 Hday1].
  pose proof (month_spec doy2 Hr2) as [Hm2 Hday2].
  assert (doy1 < doy2 →
          (5 * doy1 + 2) / 153 < (5 * doy2 + 2) / 153 ∨
          ((5 * doy1 + 2) / 153 = (5 * doy2 + 2) / 153 ∧
           doy1 - (153 * ((5 * doy1 + 2) / 153) + 2) / 5 + 1
           < doy2 - (153 * ((5 * doy2 + 2) / 153) + 2) / 5 + 1)) as Hmm.
  { intros. apply month_mono; lia. }
  set (mp1 := (5 * doy1 + 2) / 153) in *.
  set (mp2 := (5 * doy2 + 2) / 153) in *.
  set (d1 := doy1 - (153 * mp1 + 2) / 5 + 1) in *.
  set (d2 := doy2 - (153 * mp2 + 2) / 5 + 1) in *.
  clearbody d1 d2 mp1 mp2.
  unfold date_lt. simpl.
  repeat case_decide; lia.
Qed.

Lemma civil_from_days_month_day z :
  1 ≤ (civil_from_days z).1.2 ≤ 12 ∧ 1 ≤ (civil_from_days z).2 ≤ 31.
Proof.
  unfold civil_from_days. cbv zeta.
  set (e := (z + 719468) / 146097).
  set (doe := z + 719468 - e * 146097).
  assert (0 ≤ doe ≤ 146096) as Hd
    by (unfold doe, e; div_lia).
  clearbody doe.
  pose proof (year_of_era_spec doe Hd) as (_ & Hb & Hc).
  unfold days_before_year in *.
  set (yoe := (doe - doe / 1460 + doe / 36524 - doe / 146096) / 365) in *.
  set (doy := doe - (365 * yoe + yoe / 4 - yoe / 100)) in *.
  assert (0 ≤ doy ≤ 365) as Hr by lia. clearbody doy.
  pose proof (month_spec doy Hr) as [Hm Hday].
  set (mp := (5 * doy + 2) / 153) in *. simpl.
  repeat case_decide; lia.
Qed.

(** The days the engine has dates for are the days of the years 0000 to
    9999. *)
Lemma civil_from_days_year z :
  DAY_MIN ≤ z ≤ DAY_MAX → 0 ≤ (civil_from_days z).1.1 ≤ 9999.
Proof.
  intros [Hmin Hmax]. split.
  - destruct (decide (z = DAY_MIN)) as [->|Hne]; [done|].
    assert (DAY_MIN < z) as Hlt by lia.
    apply civil_from_days_lt in Hlt. unfold date_lt in Hlt.
    change (civil_from_days DAY_MIN) with (0, 1, 1) in Hlt.
    destruct (civil_from_days z) as [[y m] d]. simpl in *. lia.
  - destruct (decide (z = DAY_MAX)) as [->|Hne]; [done|].
    assert (z < DAY_MAX) as Hlt by lia.
    apply civil_from_days_lt in Hlt. unfold date_lt in Hlt.
    change (civil_from_days DAY_MAX) with (9999, 12, 31) in Hlt.
    pose proof (civil_from_days_month_day z) as Hmd.
    destruct (civil_from_days z) as [[y m] d]. simpl in *. lia.
Qed.

(** ** The text of a date *)

Lemma digit_compare a b :
  0 ≤ a ≤ 9 → 0 ≤ b ≤ 9 → Ascii.compare (digit a) (digit b) = (a ?= b).
Proof.
  intros Ha Hb.
  assert (a = 0 ∨ a = 1 ∨ a = 2 ∨ a = 3 ∨ a = 4 ∨ a = 5 ∨ a = 6 ∨ a = 7 ∨
          a = 8 ∨ a = 9) as Ha' by lia.
  assert (b = 0 ∨ b = 1 ∨ b = 2 ∨ b = 3 ∨ b = 4 ∨ b = 5 ∨ b = 6 ∨ b = 7 ∨
          b = 8 ∨ b = 9) as Hb' by lia.
  clear Ha Hb.
  repeat (destruct Ha' as [->|Ha']); try subst a;
    repeat (destruct Hb' as [->|Hb']); try subst b; reflexivity.
Qed.

(** Two-digit texts compare as their numbers do, then by what follows. *)
Lemma pad2_compare a b s t :
  0 ≤ a ≤ 99 → 0 ≤ b ≤ 99 →
  String.compare (pad2 a +:+ s) (pad2 b +:+ t)
  = match a ?= b with
    | Eq => String.compare s t
    | c => c
    end.
Proof.
  intros Ha Hb. unfold pad2. simpl.
  rewrite !digit_compare by (div_lia).
  destruct (Z.compare_spec (a / 10) (b / 10)),
           (Z.compare_spec (a mod 10) (b mod 10)),
           (Z.compare_spec a b);
    try done; exfalso; div_lia.
Qed.

Lemma pad4_compare a b s t :
  0 ≤ a ≤ 9999 → 0 ≤ b ≤ 9999 →
  String.compare (pad4 a +:+ s) (pad4 b +:+ t)
  = match a ?= b with
    | Eq => String.compare s t
    | c => c
    end.
Proof.
  intros Ha Hb. unfold pad4.
  change (String.compare (pad2 (a / 100) +:+ (pad2 (a mod 100) +:+ s))
                         (pad2 (b / 100) +:+ (pad2 (b mod 100) +:+ t))
          = match a ?= b with Eq => String.compare s t | c => c end).
  rewrite !pad2_compare by (div_lia).
  destruct (Z.compare_spec (a / 100) (b / 100)),
           (Z.compare_spec (a mod 100) (b mod 100)),
           (Z.compare_spec a b);
    try done; exfalso; div_lia.
Qed.

Lemma pad2_compare_end a b :
  0 ≤ a ≤ 99 → 0 ≤ b ≤ 99 → String.compare (pad2 a) (pad2 b) = (a ?= b).
Proof.
  intros Ha Hb.
  change (String.compare (pad2 a +:+ "") (pad2 b +:+ "") = (a ?= b)).
  rewrite pad2_compare by done. simpl. by destruct (a ?= b).
Qed.

Lemma dash_compare s t :
  String.compare ("-" +:+ s) ("-" +:+ t) = String.compare s t.
Proof. reflexivity. Qed.

(** Within the range of the engine, the texts of dates are in the order
    of the dates. *)
Lemma date_text_lt z1 z2 :
  DAY_MIN ≤ z1 → z1 < z2 → z2 ≤ DAY_MAX →
  text_lt (date_text z1) (date_text z2).
Proof.
  intros Hmin Hlt Hmax. unfold text_lt, date_text.
  pose proof (civil_from_days_lt z1 z2 Hlt) as Hd.
  pose proof (civil_from_days_year z1 ltac:(lia)) as Hy1.
  pose proof (civil_from_days_year z2 ltac:(lia)) as Hy2.
  pose proof (civil_from_days_month_day z1) as [Hm1 Hday1].
  pose proof (civil_from_days_month_day z2) as [Hm2 Hday2].
  destruct (civil_from_days z1) as [[y1 m1] d1].
  destruct (civil_from_days z2) as [[y2 m2] d2].
  unfold date_lt in Hd. cbn [fst snd] in Hd, Hy1, Hy2, Hm1, Hm2, Hday1, Hday2.
  rewrite pad4_compare, dash_compare, pad2_compare, dash_compare,
    pad2_compare_end by lia.
  destruct (Z.compare_spec y1 y2), (Z.compare_spec m1 m2),
           (Z.compare_spec d1 d2); try done; lia.
Qed.

(** ** The date spine *)

Lemma dates_from_null stop : dates_from None stop = [None].
Proof. by simp dates_from. Qed.

Lemma dates_from_null_stop a : dates_from (Some a) None = [Some a].
Proof. by simp dates_from. Qed.

Lemma dates_from_last a b : ¬ a < b → dates_from (Some a) (Some b) = [Some a].
Proof. intros Hge. simp dates_from. destruct (decide (a < b)); [done|]. by simp dates_from. Qed.

Lemma dates_from_next a b :
  a < b →
  dates_from (Some a) (Some b)
  = Some a :: dates_from (sql_date_plus_1_day (Some a)) (Some b).
Proof. intros Hlt. simp dates_from. destruct (decide (a < b)); [|done]. by simp dates_from. Qed.

(** Between two dates of the engine the recursion lists every day, first
    to last. *)
Lemma dates_from_spine a b :
  DAY_MIN ≤ a → a ≤ b → b ≤ DAY_MAX →
  dates_from (Some a) (Some b) = Some <$> seqZ a (b - a + 1).
Proof.
  intros Hmin Hab Hmax.
  remember (Z.to_nat (b - a)) as n eqn:Hn. revert a Hmin Hab Hn.
  induction n as [|n IH]; intros a Hmin Hab Hn.
  - assert (a = b) as -> by lia.
    rewrite dates_from_last by lia.
    replace (b - b + 1) with 1 by lia. done.
  - rewrite dates_from_next by lia.
    rewrite seqZ_cons by lia. rewrite fmap_cons. f_equal.
    unfold sql_date_plus_1_day. rewrite decide_True by lia.
    rewrite IH by lia. do 2 f_equal; lia.
Qed.

Lemma sql_date_Some secs d :
  sql_date secs = Some d ↔ d = secs / 86400 ∧ DAY_MIN ≤ d ≤ DAY_MAX.
Proof.
  unfold sql_date. case_decide; split.
  - intros [= <-]. done.
  - by intros [-> _].
  - done.
  - intros [-> ?]. done.
Qed.

(** ** Daily views *)

Lemma seqZ_sorted (lo hi a n : Z) :
  lo ≤ a → a + n - 1 ≤ hi →
  StronglySorted (λ x y, lo ≤ x ∧ x < y ∧ y ≤ hi) (seqZ a n).
Proof.
  intros Hlo Hhi.
  remember (Z.to_nat n) as k eqn:Hk. revert a n Hlo Hhi Hk.
  induction k as [|k IH]; intros a n Hlo Hhi Hk.
  - rewrite seqZ_nil by lia. constructor.
  - rewrite seqZ_cons by lia. constructor.
    + apply IH; lia.
    + apply Forall_seqZ. intros; lia.
Qed.

(** In the range of the engine the spine of [getDailyViews] is the days
    from the day of [start_s] to the day of [end_s]. *)
Lemma dates_spine start_s end_s :
  DAY_MIN * 86400 ≤ start_s → start_s ≤ end_s → end_s < (DAY_MAX + 1) * 86400 →
  dates start_s end_s
  = Some <$> seqZ (start_s / 86400) (end_s / 86400 - start_s / 86400 + 1).
Proof.
  intros Hmin Hle Hmax. unfold dates, sql_date, DAY_MIN, DAY_MAX in *.
  assert (-719528 ≤ start_s / 86400 ∧ start_s / 86400 ≤ end_s / 86400
          ∧ end_s / 86400 ≤ 2932896) as (? & ? & ?)
    by (div_lia).
  rewrite !decide_True by lia.
  apply dates_from_spine; unfold DAY_MIN, DAY_MAX; lia.
Qed.

Lemma daily_views_spine_rows siteId keep `{∀ r, Decision (keep r)}
    start_s end_s t :
  DAY_MIN * 86400 ≤ start_s → start_s ≤ end_s → end_s < (DAY_MAX + 1) * 86400 →
  daily_views siteId keep start_s end_s t
  = day_row siteId keep t
    <$> seqZ (start_s / 86400) (end_s / 86400 - start_s / 86400 + 1).
Proof.
  intros Hmin Hle Hmax. unfold daily_views.
  rewrite dates_spine by done. rewrite <-list_fmap_compose.
  apply list_fmap_ext. intros i d Hd. simpl. unfold day_row. do 2 f_equal.
  apply list_elem_of_lookup_2, elem_of_seqZ in Hd.
  assert (DAY_MIN ≤ d ≤ DAY_MAX) as Hr.
  { unfold DAY_MIN, DAY_MAX in *. div_lia. }
  apply list_filter_iff. intros r. unfold joins.
  rewrite sql_date_Some. split.
  - intros (? & (_ & ? & _) & ?). done.
  - intros (? & ? & ?). done.
Qed.

(** C3 (amended): on an open store, for every site and every
    startTime <= endTime within the range of dates of the engine
    (0000-01-01 to 9999-12-31), [getDailyViews] returns one row for every
    calendar day from the day of startTime to the day of endTime
    inclusive, N rows for a range of N days, rows of days without events
    having count 0; the count of a row is the number of events of the site
    whose [created_at] falls on that day; the dates are texts YYYY-MM-DD in
    ascending order. *)
Theorem daily_views_spine (self : TrafficDB) (siteId : string)
    (startTime endTime : Z) :
  db self = Some Open →
  DATE_MIN_MS ≤ startTime → startTime ≤ endTime → endTime ≤ DATE_MAX_MS →
  ∃ views,
    getDailyViews siteId startTime endTime self = (Ok views, self) ∧
    views = day_row siteId (λ _, True) (storage self)
            <$> seqZ (startTime / 1000 / 86400)
                     (endTime / 1000 / 86400 - startTime / 1000 / 86400 + 1) ∧
    Z.of_nat (length views)
    = endTime / 1000 / 86400 - startTime / 1000 / 86400 + 1 ∧
    StronglySorted date_ascending views.
Proof.
  intros Hopen Hmin Hle Hmax. unfold DATE_MIN_MS, DATE_MAX_MS in *.
  assert (DAY_MIN * 86400 ≤ startTime / 1000 ∧
          startTime / 1000 ≤ endTime / 1000 ∧
          endTime / 1000 < (DAY_MAX + 1) * 86400) as (Hs & Hse & He).
  { unfold DAY_MIN, DAY_MAX. div_lia. }
  eexists. unfold getDailyViews. rewrite run_select_open by done.
  split; [reflexivity|].
  rewrite daily_views_spine_rows by done.
  split; [done|]. split.
  - rewrite length_fmap, length_seqZ.
    unfold DAY_MIN, DAY_MAX in *. div_lia.
  - apply (StronglySorted_fmap _ (λ x y, DAY_MIN ≤ x ∧ x < y ∧ y ≤ DAY_MAX)).
    + intros x y (? & ? & ?). unfold date_ascending. simpl.
      by apply date_text_lt.
    + apply seqZ_sorted; unfold DAY_MIN, DAY_MAX in *;
        div_lia.
Qed.

Lemma daily_views_spine_witness :
  ∃ views,
    getDailyViews "site-a" 0 259200000 example_store = (Ok views, example_store) ∧
    views = day_row "site-a" (λ _, True) (storage example_store)
            <$> seqZ (0 / 1000 / 86400)
                     (259200000 / 1000 / 86400 - 0 / 1000 / 86400 + 1) ∧
    Z.of_nat (length views)
    = 259200000 / 1000 / 86400 - 0 / 1000 / 86400 + 1 ∧
    StronglySorted date_ascending views.
Proof.
  apply (daily_views_spine example_store "site-a" 0 259200000).
  - reflexivity.
  - unfold DATE_MIN_MS. lia.
  - lia.
  - unfold DATE_MAX_MS. lia.
Defined.

Example daily_views_ex :
  getDailyViews "site-a" 0 259200000 example_store
  = (Ok [DailyViews.mk (Some "1970-01-01") 0; DailyViews.mk (Some "1970-01-02") 1;
         DailyViews.mk (Some "1970-01-03") 1; DailyViews.mk (Some "1970-01-04") 0],
     example_store).
Proof. reflexivity. Qed.

(** Beyond 9999-12-31 the engine has no date: a range from 1970-01-01 to
    10000-01-01 yields the single row of its first day, and a range within
    the day 10000-01-01 yields a single row without date. *)
Lemma daily_views_beyond_range :
  getDailyViews "site-a" 0 253402300800000 example_store
  = (Ok [DailyViews.mk (Some "1970-01-01") 0], example_store) ∧
  0 ≤ 253402300800000 ∧
  253402300800000 / 1000 / 86400 - 0 / 1000 / 86400 + 1 = 2932898 ∧
  getDailyViews "site-a" 253402300800000 253402300800000 example_store
  = (Ok [DailyViews.mk None 0], example_store).
Proof. repeat split; try reflexivity. lia. Qed.

(** The rows of the daily views do not read the timestamps. *)
Lemma daily_views_retime siteId keep keep' `{∀ r, Decision (keep r)}
    `{∀ r, Decision (keep' r)} start_s end_s f self :
  (∀ r, keep' (mkRow (id r) (site_id r) (f r) (path r) (user_agent r)
                 (ip_address r) (country r) (city r) (referrer r)
                 (request_type r) (created_at r)) ↔ keep r) →
  daily_views siteId keep' start_s end_s (storage (retime f self))
  = daily_views siteId keep start_s end_s (storage self).
Proof.
  intros Hk. unfold daily_views. apply list_fmap_ext. intros i d _.
  f_equal. simpl. rewrite length_filter_fmap.
  f_equal. apply list_filter_iff. intros r. unfold joins. simpl.
  by rewrite Hk.
Qed.

(** C10: [getDailyViewsByPath] called without path, or with the empty
    path, returns what [getDailyViews] returns for the same arguments; with
    a non-empty path its rows are those of [getDailyViews] with the counts
    restricted to the events of exactly that path. *)
Theorem daily_views_by_path (self : TrafficDB) (siteId : string)
    (startTime endTime : Z) :
  getDailyViewsByPath siteId startTime endTime None self
  = getDailyViews siteId startTime endTime self ∧
  getDailyViewsByPath siteId startTime endTime (Some "") self
  = getDailyViews siteId startTime endTime self ∧
  (∀ p, p ≠ "" →
        getDailyViewsByPath siteId startTime endTime (Some p) self
        = (require_db ≫= λ h,
             run_on h (select (daily_views siteId (λ r, path r = Some p)
                                 (startTime / 1000) (endTime / 1000)))) self) ∧
  (∀ p, p ≠ "" → db self = Some Open →
        DATE_MIN_MS ≤ startTime → startTime ≤ endTime → endTime ≤ DATE_MAX_MS →
        getDailyViewsByPath siteId startTime endTime (Some p) self
        = (Ok (day_row siteId (λ r, path r = Some p) (storage self)
               <$> seqZ (startTime / 1000 / 86400)
                        (endTime / 1000 / 86400 - startTime / 1000 / 86400 + 1)),
           self)).
Proof.
  assert (∀ p, p ≠ "" →
     getDailyViewsByPath siteId startTime endTime (Some p) self
     = (require_db ≫= λ h,
          run_on h (select (daily_views siteId (λ r, path r = Some p)
                              (startTime / 1000) (endTime / 1000)))) self)
    as Hpath.
  { intros p Hp. unfold getDailyViewsByPath, mbind, M_bind.
    destruct (require_db self) as [[h|e] self']; [|done].
    by rewrite decide_True. }
  split; [|split; [|split]].
  - unfold getDailyViewsByPath, getDailyViews, mbind, M_bind.
    destruct (require_db self) as [[h|e] self']; done.
  - unfold getDailyViewsByPath, getDailyViews, mbind, M_bind.
    destruct (require_db self) as [[h|e] self']; [|done].
    rewrite decide_False; [done|]. simpl. by intros [].
  - done.
  - intros p Hp Hopen Hmin Hle Hmax. rewrite Hpath by done.
    rewrite run_select_open by done. do 2 f_equal.
    unfold DATE_MIN_MS, DATE_MAX_MS in *.
    apply daily_views_spine_rows; unfold DAY_MIN, DAY_MAX;
      div_lia.
Qed.

Lemma same_date_sql_date (x y : Z) :
  same_date x y → sql_date (x / 1000) = sql_date (y / 1000).
Proof.
  intros (_ & _ & [Hday|[Hx Hy]]); unfold sql_date.
  - by rewrite Hday.
  - unfold DATE_MAX_MS, DAY_MIN, DAY_MAX in *.
    rewrite !decide_False; [done| |]; div_lia.
Qed.

(** C9: [getDailyViews] and [getDailyViewsByPath] do not filter on the
    timestamp. Their result is the same whatever the timestamps of the
    events are; it is the same for start times of the same date and end
    times of the same date (times from 0000-01-01 on: the same day, or
    both past 9999-12-31); and for startTime <= endTime within the dates
    of the engine, an event of the site whose [created_at] is on a day from
    the day of startTime to the day of endTime is counted in the row of
    that day, wherever its timestamp lies: the row has the date of that
    day and counts the events of the site created on it (with the path
    asked for, in [getDailyViewsByPath] with a path). *)
Theorem daily_views_ignore_timestamp (self : TrafficDB) (siteId : string)
    (startTime endTime : Z) (path_ : option string) :
  db self = Some Open →
  (∀ f, (getDailyViews siteId startTime endTime (retime f self)).1
        = (getDailyViews siteId startTime endTime self).1 ∧
        (getDailyViewsByPath siteId startTime endTime path_ (retime f self)).1
        = (getDailyViewsByPath siteId startTime endTime path_ self).1) ∧
  (∀ startTime' endTime',
     same_date startTime' startTime → same_date endTime' endTime →
     getDailyViews siteId startTime' endTime' self
     = getDailyViews siteId startTime endTime self ∧
     getDailyViewsByPath siteId startTime' endTime' path_ self
     = getDailyViewsByPath siteId startTime endTime path_ self) ∧
  (DATE_MIN_MS ≤ startTime → startTime ≤ endTime → endTime ≤ DATE_MAX_MS →
   ∃ views,
     getDailyViews siteId startTime endTime self = (Ok views, self) ∧
     (∀ r, r ∈ rows (storage self) → site_id r = siteId →
           startTime / 1000 / 86400 ≤ created_at r / 86400
           ≤ endTime / 1000 / 86400 →
           ∃ v, v ∈ views ∧
                DailyViews.date v = Some (date_text (created_at r / 86400)) ∧
                DailyViews.count v
                = length (filter (λ x, site_id x = siteId ∧
                                       created_at x / 86400
                                       = created_at r / 86400)
                                 (rows (storage self))) ∧
                (0 < DailyViews.count v)%nat) ∧
     (∀ p, p ≠ "" →
        ∃ views_p,
          getDailyViewsByPath siteId startTime endTime (Some p) self
          = (Ok views_p, self) ∧
          ∀ r, r ∈ rows (storage self) → site_id r = siteId →
               path r = Some p →
               startTime / 1000 / 86400 ≤ created_at r / 86400
               ≤ endTime / 1000 / 86400 →
               ∃ v, v ∈ views_p ∧
                    DailyViews.date v
                    = Some (date_text (created_at r / 86400)) ∧
                    DailyViews.count v
                    = length (filter (λ x, site_id x = siteId ∧
                                           created_at x / 86400
                                           = created_at r / 86400 ∧
                                           path x = Some p)
                                     (rows (storage self))) ∧
                    (0 < DailyViews.count v)%nat)).
Proof.
  intros Hopen.
  split; [|split].
  - intros f.
    assert (db (retime f self) = Some Open) as Hopen' by done.
    unfold getDailyViews, getDailyViewsByPath.
    unfold mbind at 3 4, M_bind, require_db at 3 4.
    rewrite Hopen, Hopen'.
    destruct (decide (truthy path_));
      rewrite !run_select_open by done; simpl;
      split; f_equal; by apply daily_views_retime.
  - intros startTime' endTime' Hs%same_date_sql_date He%same_date_sql_date.
    unfold getDailyViews, getDailyViewsByPath, mbind, M_bind, require_db.
    rewrite Hopen. unfold run_on, select, daily_views, dates.
    rewrite Hs, He. destruct (decide (truthy path_)); done.
  - intros Hmin Hle Hmax.
    assert (DAY_MIN * 86400 ≤ startTime / 1000
            ∧ startTime / 1000 ≤ endTime / 1000
            ∧ endTime / 1000 < (DAY_MAX + 1) * 86400) as (Hs1 & Hs2 & Hs3).
    { unfold DATE_MIN_MS, DATE_MAX_MS, DAY_MIN, DAY_MAX in *. div_lia. }
    eexists. unfold getDailyViews. rewrite run_select_open by done.
    split; [reflexivity|]. split.
    + intros r Hin Hsite Hday.
      rewrite daily_views_spine_rows by done.
      eexists. split.
      { apply list_elem_of_fmap. exists (created_at r / 86400).
        split; [reflexivity|]. apply elem_of_seqZ. lia. }
      unfold day_row. cbn [DailyViews.date DailyViews.count].
      split; [done|].
      assert (filter (λ x, site_id x = siteId ∧
                           created_at x / 86400 = created_at r / 86400 ∧ True)
                     (rows (storage self))
              = filter (λ x, site_id x = siteId ∧
                             created_at x / 86400 = created_at r / 86400)
                       (rows (storage self))) as ->.
      { apply list_filter_iff. intros x. tauto. }
      split; [done|].
      apply list_elem_of_split in Hin as (l1 & l2 & ->).
      rewrite filter_app, filter_cons_True, length_app by done. simpl. lia.
    + intros p Hp. eexists.
      assert (getDailyViewsByPath siteId startTime endTime (Some p) self
              = (require_db ≫= λ h,
                   run_on h (select (daily_views siteId (λ r, path r = Some p)
                                       (startTime / 1000) (endTime / 1000))))
                  self) as ->.
      { unfold getDailyViewsByPath, mbind, M_bind.
        destruct (require_db self) as [[h|e] self']; [|done].
        by rewrite decide_True. }
      rewrite run_select_open by done.
      split; [reflexivity|].
      intros r Hin Hsite Hpath Hday.
      rewrite daily_views_spine_rows by done.
      eexists. split.
      { apply list_elem_of_fmap. exists (created_at r / 86400).
        split; [reflexivity|]. apply elem_of_seqZ. lia. }
      unfold day_row. cbn [DailyViews.date DailyViews.count].
      split; [done|]. split; [done|].
      apply list_elem_of_split in Hin as (l1 & l2 & ->).
      rewrite filter_app, filter_cons_True, length_app by done. simpl. lia.
Qed.

Lemma daily_views_ignore_timestamp_witness :
  db example_store = Some Open ∧
  first_visit ∈ rows (storage example_store) ∧
  timestamp first_visit < 86400000 ∧
  (∀ f, (getDailyViews "site-a" 86400000 259200000 (retime f example_store)).1
        = (getDailyViews "site-a" 86400000 259200000 example_store).1 ∧
        (getDailyViewsByPath "site-a" 86400000 259200000 (Some "/")
           (retime f example_store)).1
        = (getDailyViewsByPath "site-a" 86400000 259200000 (Some "/")
             example_store).1) ∧
  (getDailyViews "site-a" 86400999 259200000 example_store
   = getDailyViews "site-a" 86400000 259200000 example_store ∧
   getDailyViewsByPath "site-a" 86400999 259200000 (Some "/") example_store
   = getDailyViewsByPath "site-a" 86400000 259200000 (Some "/") example_store) ∧
  ∃ views,
    getDailyViews "site-a" 86400000 259200000 example_store
    = (Ok views, example_store) ∧
    (∃ v, v ∈ views ∧
          DailyViews.date v = Some (date_text (created_at first_visit / 86400)) ∧
          DailyViews.count v
          = length (filter (λ x, site_id x = "site-a" ∧
                                 created_at x / 86400
                                 = created_at first_visit / 86400)
                           (rows (storage example_store))) ∧
          (0 < DailyViews.count v)%nat) ∧
    ∃ views_p,
      getDailyViewsByPath "site-a" 86400000 259200000 (Some "/") example_store
      = (Ok views_p, example_store) ∧
      ∃ v, v ∈ views_p ∧
           DailyViews.date v = Some (date_text (created_at first_visit / 86400)) ∧
           DailyViews.count v
           = length (filter (λ x, site_id x = "site-a" ∧
                                  created_at x / 86400
                                  = created_at first_visit / 86400 ∧
                                  path x = Some "/")
                            (rows (storage example_store))) ∧
           (0 < DailyViews.count v)%nat.
Proof.
  assert (first_visit ∈ rows (storage example_store)) as Hin
    by (apply (list_elem_of_lookup_2 _ 0%nat); reflexivity).
  assert (86400000 / 1000 / 86400 ≤ created_at first_visit / 86400
          ≤ 259200000 / 1000 / 86400) as Hday
    by (split; apply Z.leb_le; reflexivity).
  destruct (daily_views_ignore_timestamp example_store "site-a"
              86400000 259200000 (Some "/") eq_refl) as (Hf & Hd & Hv).
  destruct Hv as (views & Hviews & Hrow & Hpath);
    [unfold DATE_MIN_MS; lia|lia|unfold DATE_MAX_MS; lia|].
  destruct (Hpath "/") as (views_p & Hviews_p & Hrow_p); [done|].
  split; [reflexivity|]. split; [exact Hin|]. split; [simpl; lia|].
  split; [exact Hf|]. split.
  { apply Hd; unfold same_date, DATE_MIN_MS, DATE_MAX_MS;
      (split; [lia|]); (split; [lia|]); left; reflexivity. }
  exists views. split; [exact Hviews|]. split.
  { exact (Hrow first_visit Hin eq_refl Hday). }
  exists views_p. split; [exact Hviews_p|].
  exact (Hrow_p first_visit Hin eq_refl eq_refl Hday).
Defined.

(** * More of the store *)

(** ** [getLatestTraffic] *)

Lemma StronglySorted_reverse {A} (R : relation A) (l : list A) :
  StronglySorted R l → StronglySorted (flip R) (reverse l).
Proof.
  induction 1 as [|x l Hl IH Hx]; [constructor|].
  rewrite reverse_cons. apply StronglySorted_app_2; [|done|repeat constructor].
  intros x1 x2 Hx1 ->%list_elem_of_singleton.
  rewrite elem_of_reverse in Hx1. rewrite Forall_forall in Hx. by apply Hx.
Qed.

Lemma StronglySorted_take {A} (R : relation A) (n : nat) (l : list A) :
  StronglySorted R l → StronglySorted R (take n l).
Proof.
  intros Hl. rewrite <-(take_drop n l) in Hl.
  by apply StronglySorted_app_1_l in Hl.
Qed.

Lemma selected_rows_sorted siteId t :
  table_ok t → StronglySorted id_lt (selected_rows siteId t).
Proof.
  intros [Hs _ _]. unfold selected_rows.
  case_decide; [by apply StronglySorted_filter|done].
Qed.

Lemma getLatestTraffic_open siteId self :
  db self = Some Open →
  getLatestTraffic siteId self
  = (Ok (take 100 (reverse (order_by_id (selected_rows siteId (storage self))))),
     self).
Proof.
  intros Hopen. unfold getLatestTraffic. by rewrite run_select_open.
Qed.

(** X1: on an open store with a well-formed table [getLatestTraffic] returns
    the 100 newest events (all of them when there are fewer), newest first:
    events of the given site, or of every site when no site is given or the
    empty one; an event that is left out is older than every event
    returned. *)
Theorem latest_traffic (self : TrafficDB) (siteId : option string) :
  db self = Some Open →
  table_ok (storage self) →
  ∃ latest,
    getLatestTraffic siteId self = (Ok latest, self) ∧
    length latest = (100 `min` length (selected_rows siteId (storage self)))%nat ∧
    StronglySorted (flip id_lt) latest ∧
    (∀ r, r ∈ latest → r ∈ selected_rows siteId (storage self)) ∧
    (∀ r x, r ∈ latest → x ∈ selected_rows siteId (storage self) →
            x ∉ latest → id x < id r).
Proof.
  intros Hopen Hok. eexists. split; [by apply getLatestTraffic_open|].
  pose proof (selected_rows_sorted siteId _ Hok) as Hs.
  rewrite order_by_id_sorted by done.
  set (sel := selected_rows siteId (storage self)) in *.
  pose proof (StronglySorted_reverse _ _ Hs) as Hrev.
  split; [by rewrite length_take, length_reverse|].
  split; [by apply StronglySorted_take|].
  split.
  - intros r Hr%subseteq_take. by rewrite elem_of_reverse in Hr.
  - intros r x Hr Hx Hnx.
    rewrite <-(take_drop 100 (reverse sel)) in Hrev.
    apply (StronglySorted_app_1_elem_of _ _ _ r x) in Hrev; [done..|].
    rewrite <-elem_of_reverse, <-(take_drop 100 (reverse sel)) in Hx.
    apply elem_of_app in Hx as [?|?]; done.
Qed.

Lemma latest_traffic_witness :
  db example_store = Some Open ∧
  table_ok (storage example_store) ∧
  ∃ latest,
    getLatestTraffic (Some "site-a") example_store = (Ok latest, example_store) ∧
    length latest
    = (100 `min` length (selected_rows (Some "site-a") (storage example_store)))%nat ∧
    StronglySorted (flip id_lt) latest ∧
    (∀ r, r ∈ latest → r ∈ selected_rows (Some "site-a") (storage example_store)) ∧
    (∀ r x, r ∈ latest →
            x ∈ selected_rows (Some "site-a") (storage example_store) →
            x ∉ latest → id x < id r).
Proof.
  assert (table_ok (storage example_store)) as Hok
    by (split; simpl; repeat constructor; unfold id_lt; simpl; lia).
  split; [reflexivity|]. split; [exact Hok|].
  exact (latest_traffic example_store (Some "site-a") eq_refl Hok).
Defined.

(** The latest events of site-a in [example_store], newest first. *)
Example newest_first_ex :
  id <$> (match (getLatestTraffic (Some "site-a") example_store).1 with
          | Ok latest => latest
          | Throw _ => []
          end) = [3; 1] ∧
  id <$> (match (getLatestTraffic (Some "") example_store).1 with
          | Ok latest => latest
          | Throw _ => []
          end) = [3; 2; 1].
Proof. split; reflexivity. Qed.

(** ** The stream, the append and the reports together *)

Lemma stream_from_zero siteId startTime endTime t lastId :
  stream_from siteId startTime endTime 0 t lastId = [].
Proof.
  funelim (stream_from siteId startTime endTime 0 t lastId); [done|].
  exfalso. clear -Hb. unfold select_batch, sql_limit in Hb.
  by rewrite decide_False in Hb by lia.
Qed.

Lemma queryTrafficStream_zero siteId startTime endTime self :
  db self = Some Open →
  queryTrafficStream siteId startTime endTime (Some 0) self = (Ok [], self).
Proof.
  intros Hopen. rewrite queryTrafficStream_stream; [|done|].
  - simpl. by rewrite stream_from_zero.
  - intros n [= <-]. lia.
Qed.

Lemma queryTraffic_zero siteId startTime endTime self :
  db self = Some Open →
  queryTraffic siteId startTime endTime (Some 0) self = (Ok [], self).
Proof.
  intros Hopen. unfold queryTraffic. unfold mbind at 1, M_bind.
  by rewrite queryTrafficStream_zero.
Qed.

(** X2: with a batch size of 0 the stream and its eager wrapper return no
    event at all, whatever the store holds, and do not throw. *)
Theorem queryTraffic_zero_batch (self : TrafficDB) (siteId : string)
    (startTime endTime : Z) :
  db self = Some Open →
  queryTrafficStream siteId startTime endTime (Some 0) self = (Ok [], self) ∧
  queryTraffic siteId startTime endTime (Some 0) self = (Ok [], self).
Proof.
  intros Hopen. split.
  - by apply queryTrafficStream_zero.
  - by apply queryTraffic_zero.
Qed.

Lemma queryTraffic_zero_batch_witness :
  db example_store = Some Open ∧
  queryTrafficStream "site-a" 0 5000 (Some 0) example_store
  = (Ok [], example_store) ∧
  queryTraffic "site-a" 0 5000 (Some 0) example_store = (Ok [], example_store).
Proof.
  split; [reflexivity|].
  apply (queryTraffic_zero_batch example_store "site-a" 0 5000). reflexivity.
Defined.

Lemma recordTraffic_open now_ms now_s rec self :
  db self = Some Open → table_ok (storage self) →
  seq (storage self) < MAX_ROWID →
  recordTraffic now_ms now_s rec self
  = (Ok tt,
     mkDB (dbPath self) (Some Open)
       (mkTable (rows (storage self) ++ [recorded now_ms now_s rec (storage self)])
                (seq (storage self) + 1))
       (unfinalized self)) ∧
  table_ok (mkTable (rows (storage self)
                     ++ [recorded now_ms now_s rec (storage self)])
                    (seq (storage self) + 1)).
Proof.
  intros Hopen Hok Hfull.
  unfold recordTraffic, mbind, M_bind, require_db, run_prepared.
  destruct self as [p d t u]; simpl in *. subst d. simpl.
  destruct (insert_traffic_spec now_s (TrafficRecord.siteId rec)
              (default now_ms (TrafficRecord.timestamp rec)) rec t Hok)
    as [Hthrow|(r & Hins & Hid & _ & _ & _ & Hok')].
  { exfalso. revert Hthrow. unfold insert_traffic.
    rewrite (max_rowid_ok t Hok). by rewrite decide_False by lia. }
  assert (r = recorded now_ms now_s rec t) as ->.
  { revert Hins. unfold insert_traffic. rewrite (max_rowid_ok t Hok).
    rewrite decide_False by lia. intros [= Hr _].
    by apply app_inj_tail in Hr as [_ <-]. }
  rewrite Hins. simpl in *. done.
Qed.



(** The reports on the window read the table through the events of the
    window only. *)
Lemma window_reports_ext siteId startTime endTime t t' :
  filter (in_window siteId startTime endTime) (rows t)
  = filter (in_window siteId startTime endTime) (rows t') →
  traffic_stats siteId startTime endTime t
  = traffic_stats siteId startTime endTime t' ∧
  ∀ col placeholder,
    breakdown col placeholder siteId startTime endTime t
    = breakdown col placeholder siteId startTime endTime t'.
Proof.
  intros Heq. split.
  - unfold traffic_stats, key_counts. by rewrite Heq.
  - intros col placeholder. unfold breakdown, key_counts. by rewrite Heq.
Qed.

(** X4: an event recorded for another site, or with a timestamp outside the
    window, changes none of the reports on the window: the summary stats
    and the three breakdowns are what they were. *)
Theorem record_outside_window (self : TrafficDB) (now_ms now_s : Z)
    (rec : TrafficRecord.t) (siteId : string) (startTime endTime : Z) :
  db self = Some Open →
  table_ok (storage self) →
  seq (storage self) < MAX_ROWID →
  ¬ (TrafficRecord.siteId rec = siteId ∧
     startTime ≤ default now_ms (TrafficRecord.timestamp rec) ∧
     default now_ms (TrafficRecord.timestamp rec) ≤ endTime) →
  ∃ self',
    recordTraffic now_ms now_s rec self = (Ok tt, self') ∧
    (getTrafficStats siteId startTime endTime self').1
    = (getTrafficStats siteId startTime endTime self).1 ∧
    (getReferrerBreakdown siteId startTime endTime self').1
    = (getReferrerBreakdown siteId startTime endTime self).1 ∧
    (getPathsBreakdown siteId startTime endTime self').1
    = (getPathsBreakdown siteId startTime endTime self).1 ∧
    (getCountryBreakdown siteId startTime endTime self').1
    = (getCountryBreakdown siteId startTime endTime self).1.
Proof.
  intros Hopen Hok Hfull Hout.
  destruct (recordTraffic_open now_ms now_s rec self Hopen Hok Hfull)
    as [Hrec _].
  eexists. split; [exact Hrec|].
  unfold getTrafficStats, getReferrerBreakdown, getPathsBreakdown,
    getCountryBreakdown.
  rewrite !run_select_open by done. simpl.
  destruct (window_reports_ext siteId startTime endTime
              (mkTable (rows (storage self)
                        ++ [recorded now_ms now_s rec (storage self)])
                       (seq (storage self) + 1))
              (storage self)) as [Hstats Hbreak].
  { simpl. rewrite filter_app, filter_cons_False, filter_nil, app_nil_r; done. }
  by rewrite Hstats, !Hbreak.
Qed.

Lemma record_outside_window_witness :
  db example_store = Some Open ∧
  table_ok (storage example_store) ∧
  seq (storage example_store) < MAX_ROWID ∧
  ∃ self',
    recordTraffic 7000 8 (visit "site-b" 4000 None None None) example_store
    = (Ok tt, self') ∧
    (getTrafficStats "site-a" 0 5000 self').1
    = (getTrafficStats "site-a" 0 5000 example_store).1 ∧
    (getReferrerBreakdown "site-a" 0 5000 self').1
    = (getReferrerBreakdown "site-a" 0 5000 example_store).1 ∧
    (getPathsBreakdown "site-a" 0 5000 self').1
    = (getPathsBreakdown "site-a" 0 5000 example_store).1 ∧
    (getCountryBreakdown "site-a" 0 5000 self').1
    = (getCountryBreakdown "site-a" 0 5000 example_store).1.
Proof.
  assert (table_ok (storage example_store)) as Hok
    by (split; simpl; repeat constructor; unfold id_lt; simpl; lia).
  assert (seq (storage example_store) < MAX_ROWID) as Hfull
    by (unfold MAX_ROWID; simpl; lia).
  split; [reflexivity|]. split; [exact Hok|]. split; [exact Hfull|].
  apply (record_outside_window example_store 7000 8
           (visit "site-b" 4000 None None None) "site-a" 0 5000 eq_refl Hok Hfull).
  simpl. intros [Hsite _]. discriminate Hsite.
Defined.

Lemma remove_dups_cons {A} `{EqDecision A} (y : A) (l : list A) :
  remove_dups (y :: l)
  = if decide (y ∈ l) then remove_dups l else y :: remove_dups l.
Proof. done. Qed.

Lemma length_remove_dups_snoc {A} `{EqDecision A} (l : list A) (x : A) :
  length (remove_dups (l ++ [x]))
  = if decide (x ∈ l) then length (remove_dups l)
    else S (length (remove_dups l)).
Proof.
  induction l as [|y l IH]; [done|].
  rewrite <-app_comm_cons, !remove_dups_cons.
  destruct (decide (y ∈ l ++ [x])) as [Hy|Hy]; rewrite elem_of_app in Hy.
  - destruct (decide (y ∈ l)) as [Hyl|Hyl].
    + rewrite IH.
      destruct (decide (x ∈ l)) as [Hxl|Hxl],
               (decide (x ∈ y :: l)) as [Hx|Hx];
        try done; rewrite elem_of_cons in Hx; [tauto|].
      destruct Hx as [->|?]; done.
    + destruct Hy as [?|Hyx%list_elem_of_singleton]; [done|]. subst y.
      rewrite IH. rewrite (decide_False (P := x ∈ l)) by done.
      rewrite decide_True by left. done.
  - rewrite (decide_False (P := y ∈ l)) by tauto. cbn [length]. rewrite IH.
    destruct (decide (x ∈ l)), (decide (x ∈ y :: l)) as [Hx|Hx];
      try done; rewrite elem_of_cons in Hx.
    + tauto.
    + destruct Hx as [->|?]; [|done]. exfalso. apply Hy. right.
      by apply list_elem_of_singleton.
Qed.

(** X5: an event recorded for the site and in the window counts once in the
    summary stats: [total_requests] grows by one; [total_website_requests]
    by one when its [requestType] is null or "static";
    [total_server_requests] by one when it is "api"; [unique_visitors] by
    one when its [ipAddress] is not null and new in the window. *)
Theorem record_counts_once (self : TrafficDB) (now_ms now_s : Z)
    (rec : TrafficRecord.t) (siteId : string) (startTime endTime : Z) :
  db self = Some Open →
  table_ok (storage self) →
  seq (storage self) < MAX_ROWID →
  TrafficRecord.siteId rec = siteId →
  startTime ≤ default now_ms (TrafficRecord.timestamp rec) ≤ endTime →
  ∃ self' before after,
    recordTraffic now_ms now_s rec self = (Ok tt, self') ∧
    getTrafficStats siteId startTime endTime self = (Ok before, self) ∧
    getTrafficStats siteId startTime endTime self' = (Ok after, self') ∧
    total_requests after = S (total_requests before) ∧
    total_website_requests after
    = (total_website_requests before
       + if decide (TrafficRecord.requestType rec = Some "static" ∨
                    TrafficRecord.requestType rec = None) then 1 else 0)%nat ∧
    total_server_requests after
    = (total_server_requests before
       + if decide (TrafficRecord.requestType rec = Some "api")
         then 1 else 0)%nat ∧
    unique_visitors after
    = (unique_visitors before
       + match TrafficRecord.ipAddress rec with
         | Some ip =>
             if decide (ip ∈ omap ip_address
                               (filter (in_window siteId startTime endTime)
                                       (rows (storage self))))
             then 0 else 1
         | None => 0
         end)%nat.
Proof.
  intros Hopen Hok Hfull Hsite Hts.
  destruct (recordTraffic_open now_ms now_s rec self Hopen Hok Hfull)
    as [Hrec _].
  eexists _, _, _. split; [exact Hrec|].
  unfold getTrafficStats. rewrite !run_select_open by done.
  split; [done|]. split; [done|]. simpl.
  set (r := recorded now_ms now_s rec (storage self)).
  assert (in_window siteId startTime endTime r) as Hw by (split; [done|subst r; simpl; lia]).
  rewrite filter_app, (filter_cons_True _ r), filter_nil by done.
  set (matching := filter (in_window siteId startTime endTime)
                          (rows (storage self))).
  split; [rewrite length_app; simpl; lia|].
  split.
  { rewrite filter_app, length_app, filter_cons, filter_nil.
    simpl request_type. by repeat case_decide. }
  split.
  { rewrite filter_app, length_app, filter_cons, filter_nil.
    simpl request_type. by repeat case_decide. }
  rewrite omap_app. simpl. fold matching.
  destruct (TrafficRecord.ipAddress rec) as [ip|]; simpl.
  - rewrite length_remove_dups_snoc. case_decide; lia.
  - rewrite app_nil_r. lia.
Qed.

Lemma record_counts_once_witness :
  db example_store = Some Open ∧
  table_ok (storage example_store) ∧
  seq (storage example_store) < MAX_ROWID ∧
  ∃ self' before after,
    recordTraffic 7000 8 (visit "site-a" 4000 None None (Some "api"))
      example_store = (Ok tt, self') ∧
    getTrafficStats "site-a" 0 5000 example_store = (Ok before, example_store) ∧
    getTrafficStats "site-a" 0 5000 self' = (Ok after, self') ∧
    total_requests after = S (total_requests before) ∧
    total_website_requests after = (total_website_requests before + 0)%nat ∧
    total_server_requests after = (total_server_requests before + 1)%nat ∧
    unique_visitors after = (unique_visitors before + 0)%nat.
Proof.
  assert (table_ok (storage example_store)) as Hok
    by (split; simpl; repeat constructor; unfold id_lt; simpl; lia).
  assert (seq (storage example_store) < MAX_ROWID) as Hfull
    by (unfold MAX_ROWID; simpl; lia).
  split; [reflexivity|]. split; [exact Hok|]. split; [exact Hfull|].
  apply (record_counts_once example_store 7000 8
           (visit "site-a" 4000 None None (Some "api")) "site-a" 0 5000
           eq_refl Hok Hfull eq_refl).
  simpl. lia.
Defined.

(** ** The lifecycle *)

(** X6: on a store that was closed every method but [initialize] is rejected
    by the driver with [SQLITE_MISUSE], [close] too, and the store stays
    as it is: the handle is still there, so the guard
    [if (!this.db)] lets the call through. *)
Theorem closed_store_rejects (self : TrafficDB) (c : Call) :
  db self = Some Closed →
  c ≠ Initialize →
  call c self = (Some SqliteMisuse, self).
Proof.
  intros Hdb Hc. destruct self as [p d t]. simpl in Hdb. subst d.
  destruct c; try done.
  unfold call, outcome, getDailyViewsByPath, mbind, M_bind, require_db. simpl.
  by case_decide.
Qed.

Lemma closed_store_rejects_witness :
  db closed_store = Some Closed ∧
  call (RecordTraffic 0 0 (visit "site-a" 1 None None None)) closed_store
  = (Some SqliteMisuse, closed_store) ∧
  call (GetLatestTraffic None) closed_store = (Some SqliteMisuse, closed_store).
Proof.
  split; [reflexivity|]. split.
  - apply (closed_store_rejects closed_store); [reflexivity|discriminate].
  - apply (closed_store_rejects closed_store); [reflexivity|discriminate].
Defined.

(** X7: a store on a database file, with no statement left on its
    connection, keeps its events over a [close] followed by an
    [initialize]: both return, and the store is what it was, handle open
    and table unchanged; an [initialize] on the open store leaves it as
    it is too. With a statement left on the connection, [close] throws
    [SQLITE_BUSY] and the store stays open. *)
Theorem close_then_initialize (self : TrafficDB) :
  db self = Some Open →
  dbPath self ≠ ":memory:" →
  dbPath self ≠ "" →
  (unfinalized self = 0%nat →
   (close ≫= λ _, initialize) self = (Ok tt, self) ∧
   initialize self = (Ok tt, self) ∧
   run [Method Close; Method Initialize] self = self) ∧
  (unfinalized self ≠ 0%nat → close self = (Throw SqliteBusy, self)).
Proof.
  intros Hdb Hp Hp'. destruct self as [p d t u]. simpl in *. subst d.
  split.
  - intros ->.
    unfold run, step, call, outcome, mbind, M_bind, close, initialize. simpl.
    rewrite decide_False; [done|]. by intros [?|?].
  - intros Hu. unfold close. simpl. by rewrite decide_False.
Qed.

Lemma close_then_initialize_witness :
  db example_store = Some Open ∧
  (close ≫= λ _, initialize) example_store = (Ok tt, example_store).
Proof.
  split; [reflexivity|].
  apply (close_then_initialize example_store);
    [reflexivity|discriminate|discriminate|reflexivity].
Defined.

(** A store whose last insert failed, the table being at its last id: the
    statement of the insert is left on the connection, and [close]
    throws. *)
Example close_after_failure_ex :
  recordTraffic 0 0 (visit "site-a" 1 None None None)
    (mkDB "traffic.db" (Some Open) (mkTable [] MAX_ROWID) 0)
  = (Throw SqliteFull,
     mkDB "traffic.db" (Some Open) (mkTable [] MAX_ROWID) 1) ∧
  close (mkDB "traffic.db" (Some Open) (mkTable [] MAX_ROWID) 1)
  = (Throw SqliteBusy,
     mkDB "traffic.db" (Some Open) (mkTable [] MAX_ROWID) 1) ∧
  close (collect (mkDB "traffic.db" (Some Open) (mkTable [] MAX_ROWID) 1))
  = (Ok tt, mkDB "traffic.db" (Some Closed) (mkTable [] MAX_ROWID) 0).
Proof. repeat split. Qed.

(** X8: a store on [":memory:"], the default path of the constructor, or
    on the empty path starts from an empty database at every
    [initialize]: the events recorded before are gone, and every window
    of every site is empty, for every batch size the engine takes. *)
Theorem initialize_in_memory_forgets (self : TrafficDB) (siteId : string)
    (startTime endTime : Z) (batchSize : option Z) :
  dbPath self = ":memory:" ∨ dbPath self = "" →
  limit_ok batchSize →
  ∃ self',
    initialize self = (Ok tt, self') ∧
    db self' = Some Open ∧
    rows (storage self') = [] ∧
    queryTraffic siteId startTime endTime batchSize self' = (Ok [], self') ∧
    getLatestTraffic None self' = (Ok [], self').
Proof.
  intros Hp Hl. destruct self as [p d t u]. simpl in Hp.
  eexists. split; [done|]. unfold initialize. simpl.
  rewrite decide_True by done.
  split; [done|]. split; [done|]. split; [|done].
  destruct (decide (batchSize = Some 0)) as [->|Hbs].
  - by apply queryTraffic_zero.
  - rewrite queryTraffic_open; [done..| |done|done].
    split; simpl; [constructor..|done].
Qed.

Lemma initialize_in_memory_forgets_witness :
  (dbPath (mkDB ":memory:" (Some Open) (storage example_store) 0) = ":memory:" ∨
   dbPath (mkDB ":memory:" (Some Open) (storage example_store) 0) = "") ∧
  limit_ok None ∧
  ∃ self',
    initialize (mkDB ":memory:" (Some Open) (storage example_store) 0)
    = (Ok tt, self') ∧
    db self' = Some Open ∧
    rows (storage self') = [] ∧
    queryTraffic "site-a" 0 5000 None self' = (Ok [], self') ∧
    getLatestTraffic None self' = (Ok [], self').
Proof.
  assert (limit_ok None) as Hl by (intros n Hn; discriminate Hn).
  split; [left; reflexivity|]. split; [exact Hl|].
  apply (initialize_in_memory_forgets
           (mkDB ":memory:" (Some Open) (storage example_store) 0)
           "site-a" 0 5000 None); [left; reflexivity|exact Hl].
Defined.



(** ** More on the breakdowns and the summary stats *)

Lemma breakdown_by_group col placeholder siteId startTime endTime t :
  rows_by_group col placeholder
    (filter (in_window siteId startTime endTime) (rows t))
    (breakdown col placeholder siteId startTime endTime t).
Proof.
  unfold rows_by_group, breakdown. rewrite cross_total.
  pose proof (key_counts_sum col placeholder siteId startTime endTime t) as Hsum.
  rewrite merge_sort_Permutation. unfold key_counts in *.
  set (events := filter (in_window siteId startTime endTime) (rows t)) in *.
  set (T := sql_sum _) in *. unfold group_count.
  rewrite <-!list_fmap_compose.
  apply eq_subrelation; [apply _|]. apply Forall_fmap_ext_1, Forall_forall.
  intros k Hk. rewrite elem_of_remove_dups in Hk.
  assert (T = Some (length events)) as ->.
  { apply sql_sum_positive; [done|].
    apply list_elem_of_fmap in Hk as (r & _ & Hr).
    destruct events; [by apply elem_of_nil in Hr|simpl; lia]. }
  unfold group_row, compose. cbn [fst snd].
  assert (length (filter (k =.) (col <$> events))
          = length (filter (λ r, col r = k) events)) as ->; [|done].
  rewrite length_filter_fmap. f_equal. apply list_filter_iff.
  intros x. split; congruence.
Qed.

Lemma rows_by_group_twice col placeholder events report r1 r2 :
  rows_by_group col placeholder events report →
  r1 ∈ events → r2 ∈ events →
  col r1 = None → col r2 = Some placeholder →
  key_twice placeholder report.
Proof.
  unfold rows_by_group. intros Hrep H1 H2 Hc1 Hc2.
  assert (None ∈ remove_dups (col <$> events)) as Hn.
  { apply elem_of_remove_dups, list_elem_of_fmap. by exists r1. }
  apply elem_of_Permutation in Hn as [ks Hks].
  assert (Some placeholder ∈ ks) as Hp.
  { assert (Some placeholder ∈ remove_dups (col <$> events)) as Hp.
    { apply elem_of_remove_dups, list_elem_of_fmap. by exists r2. }
    rewrite Hks in Hp. by apply elem_of_cons in Hp as [?|?]. }
  apply elem_of_Permutation in Hp as [ks' Hks'].
  rewrite Hks, Hks' in Hrep. rewrite !fmap_cons in Hrep.
  by eexists _, _, _.
Qed.

Lemma rows_by_group_NoDup col placeholder events report :
  rows_by_group col placeholder events report →
  Some placeholder ∉ col <$> events →
  NoDup (Breakdown.key <$> report).
Proof.
  unfold rows_by_group. intros -> Hp. rewrite <-list_fmap_compose.
  apply NoDup_fmap_2_strong; [|apply NoDup_remove_dups].
  intros k1 k2 Hk1 Hk2. rewrite elem_of_remove_dups in Hk1, Hk2.
  simpl. destruct k1 as [k1|], k2 as [k2|]; simpl; intros Heq;
    subst; try done.
Qed.

Lemma group_row_meets col placeholder events k :
  k ∈ col <$> events →
  group_row_ok col placeholder events k (group_row col placeholder events k).
Proof.
  intros Hk. unfold group_row_ok, group_row. cbn [Breakdown.key
    Breakdown.count Breakdown.percentage].
  split; [by destruct k|]. split; [done|].
  apply round_percentage_ok; [apply length_filter|].
  apply list_elem_of_fmap in Hk as (r & _ & Hr).
  destruct events; [by apply elem_of_nil in Hr|simpl; lia].
Qed.

Lemma breakdown_grouped col placeholder siteId startTime endTime t :
  grouped_report col placeholder
    (filter (in_window siteId startTime endTime) (rows t))
    (breakdown col placeholder siteId startTime endTime t).
Proof.
  eexists. split; [apply breakdown_by_group|].
  apply Forall2_fmap_r, Forall_Forall2_diag, Forall_forall.
  intros k Hk. rewrite elem_of_remove_dups in Hk. by apply group_row_meets.
Qed.

(** X10: the rows of the three breakdowns on an open store: one row for
    every value of the column among the events of the window, [NULL]
    included, in some order; the key of the row is the value, or the
    placeholder for [NULL]; its count is the number of events that hold
    the value; its percentage is within 0.005 * (1 + 10^-9) of this
    number's share of all the events of the window (within 0.005 when
    these are fewer than 10^10). *)
Theorem breakdown_rows (self : TrafficDB) (siteId : string)
    (startTime endTime : Z) :
  db self = Some Open →
  ∃ referrers paths countries,
    getReferrerBreakdown siteId startTime endTime self = (Ok referrers, self) ∧
    getPathsBreakdown siteId startTime endTime self = (Ok paths, self) ∧
    getCountryBreakdown siteId startTime endTime self = (Ok countries, self) ∧
    grouped_report referrer "(direct)"
      (filter (in_window siteId startTime endTime) (rows (storage self)))
      referrers ∧
    grouped_report path "(no path)"
      (filter (in_window siteId startTime endTime) (rows (storage self)))
      paths ∧
    grouped_report country "(unknown)"
      (filter (in_window siteId startTime endTime) (rows (storage self)))
      countries.
Proof.
  intros Hopen. eexists _, _, _.
  unfold getReferrerBreakdown, getPathsBreakdown, getCountryBreakdown.
  rewrite !run_select_open by done.
  do 3 (split; [reflexivity|]).
  split; [|split]; apply breakdown_grouped.
Qed.

Lemma breakdown_rows_witness :
  db example_store = Some Open ∧
  ∃ referrers paths countries,
    getReferrerBreakdown "site-a" 0 5000 example_store
    = (Ok referrers, example_store) ∧
    getPathsBreakdown "site-a" 0 5000 example_store = (Ok paths, example_store) ∧
    getCountryBreakdown "site-a" 0 5000 example_store
    = (Ok countries, example_store) ∧
    grouped_report referrer "(direct)"
      (filter (in_window "site-a" 0 5000) (rows (storage example_store)))
      referrers ∧
    grouped_report path "(no path)"
      (filter (in_window "site-a" 0 5000) (rows (storage example_store)))
      paths ∧
    grouped_report country "(unknown)"
      (filter (in_window "site-a" 0 5000) (rows (storage example_store)))
      countries.
Proof.
  split; [reflexivity|].
  apply (breakdown_rows example_store "site-a" 0 5000). reflexivity.
Defined.

(** X11: the keys of a breakdown are distinct as long as no event of the
    window holds the placeholder text itself in the column. When one does
    and another holds [NULL], the report has two rows with the placeholder
    as key: the events are grouped by the column, not by the key shown. *)
Theorem breakdown_keys (self : TrafficDB) (siteId : string)
    (startTime endTime : Z) :
  db self = Some Open →
  ∃ referrers paths countries,
    getReferrerBreakdown siteId startTime endTime self = (Ok referrers, self) ∧
    getPathsBreakdown siteId startTime endTime self = (Ok paths, self) ∧
    getCountryBreakdown siteId startTime endTime self = (Ok countries, self) ∧
    (∀ col placeholder report,
       (col, placeholder, report)
       ∈ [(referrer, "(direct)", referrers); (path, "(no path)", paths);
          (country, "(unknown)", countries)] →
       (Some placeholder
        ∉ col <$> filter (in_window siteId startTime endTime)
                         (rows (storage self)) →
        NoDup (Breakdown.key <$> report)) ∧
       (Some placeholder
        ∈ col <$> filter (in_window siteId startTime endTime)
                         (rows (storage self)) →
        None
        ∈ col <$> filter (in_window siteId startTime endTime)
                         (rows (storage self)) →
        key_twice placeholder report)).
Proof.
  intros Hopen. eexists _, _, _.
  unfold getReferrerBreakdown, getPathsBreakdown, getCountryBreakdown.
  rewrite !run_select_open by done.
  do 3 (split; [reflexivity|]).
  intros col placeholder report Hin.
  assert (rows_by_group col placeholder
            (filter (in_window siteId startTime endTime) (rows (storage self)))
            report) as Hrep.
  { rewrite !elem_of_cons in Hin.
    destruct Hin as [Hin|[Hin|[Hin|Hin]]];
      [| | |by apply elem_of_nil in Hin];
      injection Hin as -> -> ->; apply breakdown_by_group. }
  split.
  - by apply rows_by_group_NoDup.
  - intros (r2 & Hc2 & Hr2)%list_elem_of_fmap (r1 & Hc1 & Hr1)%list_elem_of_fmap.
    by eapply (rows_by_group_twice col placeholder _ report r1 r2 Hrep).
Qed.

Lemma breakdown_keys_witness :
  db direct_store = Some Open ∧
  ∃ referrers paths countries,
    getReferrerBreakdown "site-a" 0 5000 direct_store
    = (Ok referrers, direct_store) ∧
    getPathsBreakdown "site-a" 0 5000 direct_store = (Ok paths, direct_store) ∧
    getCountryBreakdown "site-a" 0 5000 direct_store
    = (Ok countries, direct_store) ∧
    (∀ col placeholder report,
       (col, placeholder, report)
       ∈ [(referrer, "(direct)", referrers); (path, "(no path)", paths);
          (country, "(unknown)", countries)] →
       (Some placeholder
        ∉ col <$> filter (in_window "site-a" 0 5000)
                         (rows (storage direct_store)) →
        NoDup (Breakdown.key <$> report)) ∧
       (Some placeholder
        ∈ col <$> filter (in_window "site-a" 0 5000)
                         (rows (storage direct_store)) →
        None
        ∈ col <$> filter (in_window "site-a" 0 5000)
                         (rows (storage direct_store)) →
        key_twice placeholder report)).
Proof.
  split; [reflexivity|].
  apply (breakdown_keys direct_store "site-a" 0 5000). reflexivity.
Defined.

(** The referrers of site-a in [direct_store]: the event without referrer
    and the event whose referrer is the text "(direct)" are two rows. *)
Example placeholder_rows_ex :
  ∃ report,
    getReferrerBreakdown "site-a" 0 5000 direct_store = (Ok report, direct_store) ∧
    report ≡ₚ [Breakdown.mk "(direct)" 1 (Some 3333);
               Breakdown.mk "https://google.com" 1 (Some 3333);
               Breakdown.mk "(direct)" 1 (Some 3333)].
Proof.
  eexists. split; [reflexivity|]. vm_compute. apply perm_skip, perm_swap.
Qed.

Lemma length_omap_le {A B} (f : A → option B) (l : list A) :
  (length (omap f l) ≤ length l)%nat.
Proof.
  induction l as [|x l IH]; [done|]. csimpl. destruct (f x); simpl; lia.
Qed.

Lemma length_remove_dups_le {A} `{EqDecision A} (l : list A) :
  (length (remove_dups l) ≤ length l)%nat.
Proof.
  induction l as [|x l IH]; [done|].
  rewrite remove_dups_cons. case_decide; simpl; lia.
Qed.

Lemma length_filter_disjoint {A} (P Q : A → Prop) `{∀ x, Decision (P x)}
    `{∀ x, Decision (Q x)} (l : list A) :
  (∀ x, P x → Q x → False) →
  (length (filter P l) + length (filter Q l) ≤ length l)%nat.
Proof.
  intros Hd. induction l as [|x l IH]; [done|].
  rewrite !filter_cons. specialize (Hd x).
  repeat case_decide; simpl; try lia. tauto.
Qed.

(** X12: the summary stats on an open store: the visitors and the two request
    kinds together are at most the total; [top_referrers] has at most ten
    rows, in descending order of count, each for one event at least, for
    at most the total together, and for exactly the total when the events
    of the window have at most ten referrers ([NULL] being one); with no
    event in the window every count is 0 and the list is empty. *)
Theorem traffic_stats_bounds (self : TrafficDB) (siteId : string)
    (startTime endTime : Z) :
  db self = Some Open →
  ∃ stats,
    getTrafficStats siteId startTime endTime self = (Ok stats, self) ∧
    (unique_visitors stats ≤ total_requests stats)%nat ∧
    (total_website_requests stats + total_server_requests stats
     ≤ total_requests stats)%nat ∧
    (length (top_referrers stats) ≤ 10)%nat ∧
    StronglySorted count_ge (top_referrers stats) ∧
    Forall (λ kc, (1 ≤ kc.2)%nat) (top_referrers stats) ∧
    (sum_list (top_referrers stats).*2 ≤ total_requests stats)%nat ∧
    ((length (remove_dups
                (referrer <$> filter (in_window siteId startTime endTime)
                                     (rows (storage self)))) ≤ 10)%nat →
     sum_list (top_referrers stats).*2 = total_requests stats) ∧
    (total_requests stats = 0%nat → stats = mkStats 0 0 0 0 []).
Proof.
  intros Hopen. eexists. unfold getTrafficStats.
  rewrite run_select_open by done. split; [reflexivity|].
  unfold traffic_stats. cbn [total_requests unique_visitors
    total_website_requests total_server_requests top_referrers].
  pose proof (key_counts_sum referrer "(direct)" siteId startTime endTime
                (storage self)) as Hsum.
  assert (Forall (λ kc : string * nat, (1 ≤ kc.2)%nat)
            (key_counts referrer "(direct)" siteId startTime endTime
               (storage self))) as Hpos.
  { unfold key_counts, group_count. rewrite <-list_fmap_compose.
    apply Forall_fmap, Forall_forall. intros k Hk. simpl.
    rewrite elem_of_remove_dups in Hk.
    destruct (filter (k =.) _) eqn:Hf; [|simpl; lia].
    exfalso. eapply (filter_nil_not_elem_of (k =.)); [exact Hf| |exact Hk]. done. }
  assert (length (key_counts referrer "(direct)" siteId startTime endTime
                    (storage self))
          = length (remove_dups
                      (referrer <$> filter (in_window siteId startTime endTime)
                                           (rows (storage self))))) as Hlen.
  { unfold key_counts, group_count. by rewrite !length_fmap. }
  set (events := filter (in_window siteId startTime endTime)
                        (rows (storage self))) in *.
  set (counts := key_counts referrer "(direct)" siteId startTime endTime
                   (storage self)) in *.
  assert (order_by_count_desc counts ≡ₚ counts) as Hperm
    by apply merge_sort_Permutation.
  assert (StronglySorted count_ge (order_by_count_desc counts)) as Hsorted
    by (apply StronglySorted_merge_sort; apply _).
  set (sorted := order_by_count_desc counts) in *.
  change (sql_limit 10 sorted) with (take 10 sorted).
  split.
  { etrans; [apply length_remove_dups_le|].
    apply length_omap_le. }
  split.
  { apply length_filter_disjoint. intros r [?|?] ?; congruence. }
  split; [rewrite length_take; lia|].
  split; [by apply StronglySorted_take|].
  split.
  { apply Forall_take. by rewrite Hperm. }
  assert (sum_list sorted.*2 = length events) as Hs by by rewrite Hperm.
  split.
  { rewrite <-Hs. rewrite <-(take_drop 10 sorted) at 2.
    rewrite fmap_app, sum_list_with_app. lia. }
  split.
  { intros Hfew. rewrite take_ge; [done|]. rewrite Hperm. lia. }
  intros Hzero. apply nil_length_inv in Hzero.
  assert (sorted = []) as ->.
  { apply Permutation_nil_r. rewrite Hperm. unfold counts, key_counts.
    fold events. by rewrite Hzero. }
  by rewrite Hzero.
Qed.

Lemma traffic_stats_bounds_witness :
  db example_store = Some Open ∧
  ∃ stats,
    getTrafficStats "site-a" 0 5000 example_store = (Ok stats, example_store) ∧
    (unique_visitors stats ≤ total_requests stats)%nat ∧
    (total_website_requests stats + total_server_requests stats
     ≤ total_requests stats)%nat ∧
    (length (top_referrers stats) ≤ 10)%nat ∧
    StronglySorted count_ge (top_referrers stats) ∧
    Forall (λ kc, (1 ≤ kc.2)%nat) (top_referrers stats) ∧
    (sum_list (top_referrers stats).*2 ≤ total_requests stats)%nat ∧
    ((length (remove_dups
                (referrer <$> filter (in_window "site-a" 0 5000)
                                     (rows (storage example_store)))) ≤ 10)%nat →
     sum_list (top_referrers stats).*2 = total_requests stats) ∧
    (total_requests stats = 0%nat → stats = mkStats 0 0 0 0 []).
Proof.
  split; [reflexivity|].
  apply (traffic_stats_bounds example_store "site-a" 0 5000). reflexivity.
Defined.

(** ** More on the daily views *)

Lemma dates_from_not_nil date stop : dates_from date stop ≠ [].
Proof. funelim (dates_from date stop); done. Qed.

Lemma daily_views_null siteId keep `{∀ r, Decision (keep r)} start_s end_s t :
  sql_date start_s = None →
  daily_views siteId keep start_s end_s t = [DailyViews.mk None 0].
Proof.
  intros Hs. unfold daily_views, dates. rewrite Hs, dates_from_null. simpl.
  f_equal. f_equal. rewrite (filter_none _ (rows t)); [done|].
  apply Forall_forall. intros r _ (_ & ([x Hx] & _) & _). done.
Qed.

Lemma daily_views_one siteId keep `{∀ r, Decision (keep r)} start_s end_s t :
  DAY_MIN * 86400 ≤ start_s < (DAY_MAX + 1) * 86400 →
  DAY_MIN * 86400 ≤ end_s →
  end_s / 86400 ≤ start_s / 86400 ∨ (DAY_MAX + 1) * 86400 ≤ end_s →
  daily_views siteId keep start_s end_s t
  = [day_row siteId keep t (start_s / 86400)].
Proof.
  intros Hs He Hlast.
  assert (sql_date start_s = Some (start_s / 86400)) as Hd.
  { apply sql_date_Some. unfold DAY_MIN, DAY_MAX in *. split; [done|div_lia]. }
  assert (dates start_s end_s = [Some (start_s / 86400)]) as Hdates.
  { unfold dates. rewrite Hd. destruct (sql_date end_s) as [b|] eqn:Hb.
    - apply sql_date_Some in Hb as [-> Hb]. apply dates_from_last.
      unfold DAY_MIN, DAY_MAX in *. div_lia.
    - apply dates_from_null_stop. }
  unfold daily_views. rewrite Hdates. simpl. unfold day_row. do 3 f_equal.
  apply list_filter_iff. intros r. unfold joins. rewrite sql_date_Some.
  apply sql_date_Some in Hd as [_ Hd]. split.
  - intros (? & (_ & ? & _) & ?). done.
  - intros (? & ? & ?). done.
Qed.

(** X13: [getDailyViews] on an open store never returns an empty list. With a
    start past 9999-12-31 it returns one row, without date and with count
    0. With a start that has a date and an end on the same day, on an
    earlier one or past 9999-12-31, it returns the row of the start day
    alone. *)
Theorem daily_views_single_row (self : TrafficDB) (siteId : string)
    (startTime endTime : Z) :
  db self = Some Open →
  ∃ views,
    getDailyViews siteId startTime endTime self = (Ok views, self) ∧
    (0 < length views)%nat ∧
    (DATE_MAX_MS < startTime → views = [DailyViews.mk None 0]) ∧
    (DATE_MIN_MS ≤ startTime ≤ DATE_MAX_MS →
     DATE_MIN_MS ≤ endTime →
     endTime / 1000 / 86400 ≤ startTime / 1000 / 86400 ∨ DATE_MAX_MS < endTime →
     views = [day_row siteId (λ _, True) (storage self)
                (startTime / 1000 / 86400)]).
Proof.
  intros Hopen. eexists. unfold getDailyViews.
  rewrite run_select_open by done. split; [reflexivity|]. split.
  { unfold daily_views. rewrite length_fmap. unfold dates.
    pose proof (dates_from_not_nil (sql_date (startTime / 1000))
                  (sql_date (endTime / 1000))) as Hn.
    destruct (dates_from _ _); [done|simpl; lia]. }
  split.
  - intros Hs. apply daily_views_null. unfold sql_date.
    rewrite decide_False; [done|].
    unfold DATE_MAX_MS, DAY_MIN, DAY_MAX in *. div_lia.
  - intros Hs He Hlast. apply daily_views_one;
      unfold DATE_MIN_MS, DATE_MAX_MS, DAY_MIN, DAY_MAX in *.
    + div_lia.
    + div_lia.
    + destruct Hlast as [?|?]; [by left|right; div_lia].
Qed.

Lemma daily_views_single_row_witness :
  db example_store = Some Open ∧
  ∃ views,
    getDailyViews "site-a" 172800000 0 example_store
    = (Ok views, example_store) ∧
    (0 < length views)%nat ∧
    (DATE_MAX_MS < 172800000 → views = [DailyViews.mk None 0]) ∧
    (DATE_MIN_MS ≤ 172800000 ≤ DATE_MAX_MS →
     DATE_MIN_MS ≤ 0 →
     0 / 1000 / 86400 ≤ 172800000 / 1000 / 86400 ∨ DATE_MAX_MS < 0 →
     views = [day_row "site-a" (λ _, True) (storage example_store)
                (172800000 / 1000 / 86400)]).
Proof.
  split; [reflexivity|].
  apply (daily_views_single_row example_store "site-a" 172800000 0).
  reflexivity.
Defined.

(** The daily views of a window whose start is after its end: the one
    row of the start day, with the event of site-a created on that day. *)
Example reversed_window_ex :
  getDailyViews "site-a" 172800000 0 example_store
  = (Ok [DailyViews.mk (Some "1970-01-03") 1], example_store).
Proof. reflexivity. Qed.

Lemma sum_day_rows siteId keep `{∀ r, Decision (keep r)} t a (n : nat) :
  sum_list (DailyViews.count <$> (day_row siteId keep t <$> seqZ a (Z.of_nat n)))
  = length (filter (λ r, site_id r = siteId ∧
                         a ≤ created_at r / 86400 < a + Z.of_nat n ∧ keep r)
                   (rows t)).
Proof.
  induction n as [|n IH].
  - simpl. rewrite (filter_none _ (rows t)); [done|].
    apply Forall_forall. intros r _. lia.
  - rewrite seqZ_S, !fmap_app, sum_list_with_app, IH.
    simpl sum_list_with. clear IH.
    induction (rows t) as [|r l IHl]; [done|].
    rewrite !filter_cons.
    repeat case_decide; cbn [length]; try lia.
    all: exfalso; clear IHl; set (c := created_at r `div` 86400) in *;
      clearbody c; destruct_and?; destruct (decide (c < a + Z.of_nat n));
      match goal with
      | Hn : ¬ _ |- _ => by (apply Hn; repeat split; first [done|lia])
      | _ => lia
      end.
Qed.

(** X14: over a window within the dates of the engine, with the start not
    after the end, the counts of the daily views add up to the number of
    events of the site created, by the engine clock, from the start day to
    the end day. *)
Theorem daily_views_total (self : TrafficDB) (siteId : string)
    (startTime endTime : Z) :
  db self = Some Open →
  DATE_MIN_MS ≤ startTime → startTime ≤ endTime → endTime ≤ DATE_MAX_MS →
  ∃ views,
    getDailyViews siteId startTime endTime self = (Ok views, self) ∧
    sum_list (DailyViews.count <$> views)
    = length (filter (λ r, site_id r = siteId ∧
                           startTime / 1000 / 86400 ≤ created_at r / 86400
                           ≤ endTime / 1000 / 86400)
                     (rows (storage self))).
Proof.
  intros Hopen Hmin Hle Hmax.
  assert (DAY_MIN * 86400 ≤ startTime / 1000 ∧
          startTime / 1000 ≤ endTime / 1000 ∧
          endTime / 1000 < (DAY_MAX + 1) * 86400) as (? & ? & ?).
  { unfold DATE_MIN_MS, DATE_MAX_MS, DAY_MIN, DAY_MAX in *. div_lia. }
  eexists. unfold getDailyViews. rewrite run_select_open by done.
  split; [reflexivity|].
  rewrite daily_views_spine_rows by done.
  assert (0 ≤ endTime / 1000 / 86400 - startTime / 1000 / 86400 + 1) as Hn
    by div_lia.
  rewrite <-(Z2Nat.id _ Hn), sum_day_rows. f_equal.
  apply list_filter_iff. intros r. rewrite Z2Nat.id by done. split.
  - intros (? & ? & _). split; [done|lia].
  - intros (? & ?). split; [done|]. split; [lia|done].
Qed.

Lemma daily_views_total_witness :
  db example_store = Some Open ∧
  ∃ views,
    getDailyViews "site-a" 86400000 200000000 example_store
    = (Ok views, example_store) ∧
    sum_list (DailyViews.count <$> views)
    = length (filter (λ r, site_id r = "site-a" ∧
                           86400000 / 1000 / 86400 ≤ created_at r / 86400
                           ≤ 200000000 / 1000 / 86400)
                     (rows (storage example_store))).
Proof.
  split; [reflexivity|].
  apply (daily_views_total example_store "site-a" 86400000 200000000).
  - reflexivity.
  - unfold DATE_MIN_MS. lia.
  - lia.
  - unfold DATE_MAX_MS. lia.
Defined.

(** X15: the daily views of one path, for any window: the same dates, row by
    row, as the daily views of the site, and on each a count that is not
    larger. *)
Theorem daily_views_by_path_le (self : TrafficDB) (siteId : string)
    (startTime endTime : Z) (path_ : option string) :
  db self = Some Open →
  ∃ views by_path,
    getDailyViews siteId startTime endTime self = (Ok views, self) ∧
    getDailyViewsByPath siteId startTime endTime path_ self
    = (Ok by_path, self) ∧
    Forall2 (λ v w, DailyViews.date v = DailyViews.date w ∧
                    (DailyViews.count v ≤ DailyViews.count w)%nat)
            by_path views.
Proof.
  intros Hopen. unfold getDailyViews, getDailyViewsByPath.
  assert (∀ keep `{∀ r, Decision (keep r)},
    Forall2 (λ v w, DailyViews.date v = DailyViews.date w ∧
                    (DailyViews.count v ≤ DailyViews.count w)%nat)
      (daily_views siteId keep (startTime / 1000) (endTime / 1000)
         (storage self))
      (daily_views siteId (λ _, True) (startTime / 1000) (endTime / 1000)
         (storage self))) as Hle.
  { intros keep Hdec. unfold daily_views.
    apply Forall2_fmap, Forall_Forall2_diag, Forall_forall.
    intros d _. simpl. split; [done|].
    induction (rows (storage self)) as [|r l IH]; [done|].
    rewrite !filter_cons. unfold joins in *.
    repeat case_decide; simpl; try lia. tauto. }
  destruct self as [p d t]; simpl in Hopen; subst d.
  unfold mbind, M_bind, require_db. cbn [db mret M_ret].
  case_decide; eexists _, _; (split; [reflexivity|]); (split; [reflexivity|]);
    apply Hle.
Qed.

Lemma daily_views_by_path_le_witness :
  db example_store = Some Open ∧
  ∃ views by_path,
    getDailyViews "site-a" 0 200000000 example_store
    = (Ok views, example_store) ∧
    getDailyViewsByPath "site-a" 0 200000000 (Some "/blog") example_store
    = (Ok by_path, example_store) ∧
    Forall2 (λ v w, DailyViews.date v = DailyViews.date w ∧
                    (DailyViews.count v ≤ DailyViews.count w)%nat)
            by_path views.
Proof.
  split; [reflexivity|].
  apply (daily_views_by_path_le example_store "site-a" 0 200000000
           (Some "/blog")).
  reflexivity.
Defined.

(** ** The append and the other readers *)

(** X21: after a [recordTraffic] that returns, the event recorded is the
    first that [getLatestTraffic] returns for its site, and for every site
    when no site is asked for, followed by the 99 first of the events
    returned before; for another site the list is what it was. *)
Theorem record_then_latest (self : TrafficDB) (now_ms now_s : Z)
    (rec : TrafficRecord.t) (siteId : option string) :
  db self = Some Open →
  table_ok (storage self) →
  seq (storage self) < MAX_ROWID →
  ∃ self' before,
    recordTraffic now_ms now_s rec self = (Ok tt, self') ∧
    getLatestTraffic siteId self = (Ok before, self) ∧
    getLatestTraffic siteId self'
    = (Ok (if decide (truthy siteId ∧ siteId ≠ Some (TrafficRecord.siteId rec))
           then before
           else recorded now_ms now_s rec (storage self) :: take 99 before),
       self').
Proof.
  intros Hopen Hok Hfull.
  destruct (recordTraffic_open now_ms now_s rec self Hopen Hok Hfull)
    as [Hrec Hok'].
  eexists _, _. split; [exact Hrec|].
  rewrite !getLatestTraffic_open by done. split; [reflexivity|].
  f_equal. f_equal. cbn [storage].
  pose proof (selected_rows_sorted siteId _ Hok) as Hs.
  pose proof (selected_rows_sorted siteId _ Hok') as Hs'.
  rewrite !order_by_id_sorted by done.
  set (r := recorded now_ms now_s rec (storage self)) in *.
  unfold selected_rows in *. cbn [rows] in *.
  destruct (decide (truthy siteId)) as [Ht|Ht].
  - rewrite filter_app, filter_cons, filter_nil.
    destruct (decide (Some (site_id r) = siteId)) as [Hr|Hr].
    + rewrite decide_False by (intros [_ Hne]; by apply Hne).
      rewrite reverse_app, reverse_singleton. cbn [app take].
      by rewrite take_take.
    + rewrite decide_True by (split; [done|]; by intros ->).
      by rewrite app_nil_r.
  - rewrite decide_False by tauto.
    rewrite reverse_app, reverse_singleton. cbn [app take].
    by rewrite take_take.
Qed.

Lemma record_then_latest_witness :
  db example_store = Some Open ∧
  table_ok (storage example_store) ∧
  seq (storage example_store) < MAX_ROWID ∧
  ∃ self' before,
    recordTraffic 7000 8 (visit "site-a" 4000 None None None) example_store
    = (Ok tt, self') ∧
    getLatestTraffic (Some "site-a") example_store = (Ok before, example_store) ∧
    getLatestTraffic (Some "site-a") self'
    = (Ok (if decide (truthy (Some "site-a") ∧
                      Some "site-a"
                      ≠ Some (TrafficRecord.siteId
                                (visit "site-a" 4000 None None None)))
           then before
           else recorded 7000 8 (visit "site-a" 4000 None None None)
                  (storage example_store) :: take 99 before),
       self').
Proof.
  assert (table_ok (storage example_store)) as Hok
    by (split; simpl; repeat constructor; unfold id_lt; simpl; lia).
  assert (seq (storage example_store) < MAX_ROWID) as Hfull
    by (unfold MAX_ROWID; simpl; lia).
  split; [reflexivity|]. split; [exact Hok|]. split; [exact Hfull|].
  exact (record_then_latest example_store 7000 8
           (visit "site-a" 4000 None None None) (Some "site-a")
           eq_refl Hok Hfull).
Defined.

Lemma day_row_recorded siteId t r d :
  DailyViews.count
    (day_row siteId (λ _, True) (mkTable (rows t ++ [r]) (seq t + 1)) d)
  = (DailyViews.count (day_row siteId (λ _, True) t d)
     + if decide (site_id r = siteId ∧ (created_at r / 86400 = d)%Z)
       then 1 else 0)%nat.
Proof.
  unfold day_row. cbn [DailyViews.count rows].
  rewrite filter_app, length_app, filter_cons, filter_nil.
  repeat case_decide; cbn [length]; try done; tauto.
Qed.

(** X22: an event recorded adds one to the count of one row of the daily
    views of its site, the row of the day of the engine clock at the
    insert, whatever the timestamp of the event; every other row, and
    every row of another site, stays as it is. The window is within the
    dates of the engine, its start not after its end. *)
Theorem record_daily_views (self : TrafficDB) (now_ms now_s : Z)
    (rec : TrafficRecord.t) (siteId : string) (startTime endTime : Z) :
  db self = Some Open →
  table_ok (storage self) →
  seq (storage self) < MAX_ROWID →
  DATE_MIN_MS ≤ startTime → startTime ≤ endTime → endTime ≤ DATE_MAX_MS →
  ∃ self' before after,
    recordTraffic now_ms now_s rec self = (Ok tt, self') ∧
    getDailyViews siteId startTime endTime self = (Ok before, self) ∧
    getDailyViews siteId startTime endTime self' = (Ok after, self') ∧
    length after = length before ∧
    ∀ (i : nat) v, before !! i = Some v →
      after !! i
      = Some (DailyViews.mk (DailyViews.date v)
                (DailyViews.count v
                 + if decide (TrafficRecord.siteId rec = siteId ∧
                              (now_s / 86400
                               = startTime / 1000 / 86400 + Z.of_nat i)%Z)
                   then 1 else 0)%nat).
Proof.
  intros Hopen Hok Hfull Hmin Hle Hmax.
  destruct (recordTraffic_open now_ms now_s rec self Hopen Hok Hfull)
    as [Hrec _].
  assert (DAY_MIN * 86400 ≤ startTime / 1000 ∧
          startTime / 1000 ≤ endTime / 1000 ∧
          endTime / 1000 < (DAY_MAX + 1) * 86400) as (? & ? & ?).
  { unfold DATE_MIN_MS, DATE_MAX_MS, DAY_MIN, DAY_MAX in *. div_lia. }
  eexists _, _, _. split; [exact Hrec|].
  unfold getDailyViews. rewrite !run_select_open by done.
  split; [reflexivity|]. split; [reflexivity|]. cbn [storage].
  rewrite !daily_views_spine_rows by done.
  split; [by rewrite !length_fmap|].
  intros i v. rewrite !list_lookup_fmap.
  destruct (seqZ _ _ !! i) as [d|] eqn:Hd; [|done].
  apply lookup_seqZ in Hd as [-> _]. cbn [fmap option_fmap option_map].
  intros [= <-]. f_equal.
  pose proof (day_row_recorded siteId (storage self)
                (recorded now_ms now_s rec (storage self))
                (startTime / 1000 / 86400 + Z.of_nat i)) as Hcount.
  cbn [recorded site_id created_at] in Hcount.
  rewrite <-Hcount. reflexivity.
Qed.

Lemma record_daily_views_witness :
  db example_store = Some Open ∧
  table_ok (storage example_store) ∧
  seq (storage example_store) < MAX_ROWID ∧
  ∃ self' before after,
    recordTraffic 7000 90000 (visit "site-a" 4000 None None None) example_store
    = (Ok tt, self') ∧
    getDailyViews "site-a" 0 200000000 example_store
    = (Ok before, example_store) ∧
    getDailyViews "site-a" 0 200000000 self' = (Ok after, self') ∧
    length after = length before ∧
    ∀ (i : nat) v, before !! i = Some v →
      after !! i
      = Some (DailyViews.mk (DailyViews.date v)
                (DailyViews.count v
                 + if decide (TrafficRecord.siteId
                                (visit "site-a" 4000 None None None) = "site-a" ∧
                              (90000 / 86400
                               = 0 / 1000 / 86400 + Z.of_nat i)%Z)
                   then 1 else 0)%nat).
Proof.
  assert (table_ok (storage example_store)) as Hok
    by (split; simpl; repeat constructor; unfold id_lt; simpl; lia).
  assert (seq (storage example_store) < MAX_ROWID) as Hfull
    by (unfold MAX_ROWID; simpl; lia).
  split; [reflexivity|]. split; [exact Hok|]. split; [exact Hfull|].
  apply (record_daily_views example_store 7000 90000
           (visit "site-a" 4000 None None None) "site-a" 0 200000000
           eq_refl Hok Hfull).
  - unfold DATE_MIN_MS. lia.
  - lia.
  - unfold DATE_MAX_MS. lia.
Defined.

(** * The service *)

(** ** Tokens *)

Lemma to_int32_small z : 0 ≤ z < 256 → to_int32 z = z.
Proof.
  intros Hz. unfold to_int32.
  rewrite Z.mod_small by lia. by rewrite decide_True by lia.
Qed.

Lemma lor_small x y : 0 ≤ x < 256 → 0 ≤ y < 256 → 0 ≤ Z.lor x y < 256.
Proof.
  intros Hx Hy. split; [apply Z.lor_nonneg; lia|].
  destruct (decide (Z.lor x y = 0)) as [->|Hne]; [lia|].
  assert (0 < Z.lor x y) as Hpos by (pose proof (Z.lor_nonneg x y); lia).
  change 256 with (2 ^ 8). apply Z.log2_lt_pow2; [done|].
  rewrite Z.log2_lor by lia.
  destruct (decide (x = 0)) as [->|?], (decide (y = 0)) as [->|?];
    simpl; try lia.
  - apply Z.max_lub_lt; [simpl; lia|]. apply Z.log2_lt_pow2; lia.
  - apply Z.max_lub_lt; [|simpl; lia]. apply Z.log2_lt_pow2; lia.
  - apply Z.max_lub_lt; apply Z.log2_lt_pow2; lia.
Qed.

Lemma lxor_small x y : 0 ≤ x < 256 → 0 ≤ y < 256 → 0 ≤ Z.lxor x y < 256.
Proof.
  intros Hx Hy. split; [apply Z.lxor_nonneg; lia|].
  destruct (decide (Z.lxor x y = 0)) as [->|Hne]; [lia|].
  assert (0 < Z.lxor x y) as Hpos by (pose proof (Z.lxor_nonneg x y); lia).
  change 256 with (2 ^ 8). apply Z.log2_lt_pow2; [done|].
  eapply Z.le_lt_trans; [apply Z.log2_lxor; lia|].
  destruct (decide (x = 0)) as [->|?], (decide (y = 0)) as [->|?];
    simpl; try lia.
  - apply Z.max_lub_lt; [simpl; lia|]. apply Z.log2_lt_pow2; lia.
  - apply Z.max_lub_lt; [|simpl; lia]. apply Z.log2_lt_pow2; lia.
  - apply Z.max_lub_lt; apply Z.log2_lt_pow2; lia.
Qed.

Lemma charCodeAt_small s i : 0 ≤ default 0 (charCodeAt s i) < 256.
Proof.
  unfold charCodeAt. destruct (String.get i s) as [c|]; simpl; [|lia].
  pose proof (Ascii.nat_ascii_bounded c). lia.
Qed.

Lemma js_xor_small x y :
  0 ≤ default 0 x < 256 → 0 ≤ default 0 y < 256 →
  0 ≤ js_xor x y < 256 ∧ (js_xor x y = 0 ↔ default 0 x = default 0 y).
Proof.
  intros Hx Hy. unfold js_xor. rewrite !to_int32_small by done.
  split; [by apply lxor_small|]. split.
  - apply Z.lxor_eq.
  - intros ->. apply Z.lxor_nilpotent.
Qed.

Lemma js_or_small x y :
  0 ≤ x < 256 → 0 ≤ y < 256 →
  0 ≤ js_or x y < 256 ∧ (js_or x y = 0 ↔ x = 0 ∧ y = 0).
Proof.
  intros Hx Hy. unfold js_or. rewrite !to_int32_small by done.
  split; [by apply lor_small|]. apply Z.lor_eq_0_iff.
Qed.

Lemma foldl_js_or (f : nat → Z) (l : list nat) (r : Z) :
  (∀ i, 0 ≤ f i < 256) → 0 ≤ r < 256 →
  foldl (λ result i, js_or result (f i)) r l = 0
  ↔ r = 0 ∧ ∀ i, i ∈ l → f i = 0.
Proof.
  intros Hf. revert r. induction l as [|i l IH]; intros r Hr; simpl.
  - split; [|tauto]. intros ->. split; [done|]. by intros i ?%elem_of_nil.
  - destruct (js_or_small r (f i) Hr (Hf i)) as [Hs Hz].
    rewrite IH by done. rewrite Hz. split.
    + intros [[-> Hi] Hl]. split; [done|].
      intros j [->|?]%elem_of_cons; auto.
    + intros [-> Hl]. split; [split; [done|]|]; intros; apply Hl;
        [left|by right].
Qed.

Lemma get_past_end s i : (String.length s ≤ i)%nat → String.get i s = None.
Proof.
  revert i. induction s as [|c s IH]; intros i Hi; [done|].
  destruct i as [|i]; simpl in *; [lia|]. apply IH. lia.
Qed.

Lemma get_within s i : (i < String.length s)%nat → is_Some (String.get i s).
Proof.
  revert i. induction s as [|c s IH]; intros i Hi; simpl in *; [lia|].
  destruct i as [|i]; [by eexists|]. apply IH. lia.
Qed.

Lemma charCodeAt_eq a b i :
  (i < String.length a)%nat → (i < String.length b)%nat →
  default 0 (charCodeAt a i) = default 0 (charCodeAt b i) →
  String.get i a = String.get i b.
Proof.
  intros [x Hx]%get_within [y Hy]%get_within. unfold charCodeAt.
  rewrite Hx, Hy. simpl. intros Heq. f_equal.
  apply Nat2Z.inj in Heq.
  by rewrite <-(Ascii.ascii_nat_embedding x), <-(Ascii.ascii_nat_embedding y),
    Heq.
Qed.

(** What [slowEquals] decides. *)
Lemma slowEquals_decide a b :
  slowEquals a b = bool_decide (truthy a ∧ a = b).
Proof.
  destruct a as [a|], b as [b|]; simpl;
    try done;
    try (symmetry; apply bool_decide_eq_false; intros [? ?]; done).
  case_decide as Hguard.
  - symmetry. apply bool_decide_eq_false. intros [Ha [= ->]]. tauto.
  - apply bool_decide_ext.
    rewrite (foldl_js_or (λ i, js_xor (charCodeAt a i) (charCodeAt b i)));
      [|intros i; apply js_xor_small; apply charCodeAt_small|lia].
    split.
    + intros [_ Hall]. split; [tauto|]. f_equal.
      apply String.get_correct. intros i.
      destruct (decide (i < String.length a)%nat) as [Hi|Hi].
      * apply charCodeAt_eq; [done|lia|].
        apply js_xor_small; [apply charCodeAt_small..|].
        apply Hall, elem_of_seq. lia.
      * rewrite !get_past_end by lia. done.
    + intros [_ [= ->]]. split; [done|]. intros i _.
      apply js_xor_small; [apply charCodeAt_small..|done].
Qed.

(** X16: [slowEquals] answers [true] exactly for two equal strings that are
    not empty: an argument that is absent or empty is equal to nothing,
    itself included. *)
Theorem slowEquals_equal (a b : option string) :
  slowEquals a b = true ↔ ∃ s, s ≠ "" ∧ a = Some s ∧ b = Some s.
Proof.
  rewrite slowEquals_decide, bool_decide_eq_true. split.
  - intros [Ha <-]. destruct a as [s|]; [|done]. by exists s.
  - intros (s & Hs & -> & ->). done.
Qed.

(** X17: [verifyToken] calls the next handler exactly when [ADMIN_KEY] is set
    and not empty and the header of the request is equal to it; in every
    other case, so for every request while [ADMIN_KEY] is absent or empty,
    it answers 401 with the message "Unauthorized". *)
Theorem verifyToken_admits (token ADMIN_KEY : option string) :
  verifyToken token ADMIN_KEY
  = if decide (truthy ADMIN_KEY ∧ token = ADMIN_KEY) then Next
    else Json "Unauthorized" 401.
Proof.
  unfold verifyToken. rewrite slowEquals_decide.
  destruct (decide (truthy token)) as [Ht|Ht].
  - case_bool_decide as Heq; case_decide as Hk; try done.
    + destruct Heq as [_ <-]. tauto.
    + destruct Hk as [_ <-]. tauto.
  - rewrite decide_False; [done|]. intros [? <-]. done.
Qed.

(** * Disk space *)

(** ** The output of [df -h] *)

Lemma append_cons (c : Ascii.ascii) (s t : string) :
  String c s +:+ t = String c (s +:+ t).
Proof. done. Qed.

Lemma append_nil_l (t : string) : "" +:+ t = t.
Proof. done. Qed.

Lemma append_assoc (a b c : string) : (a +:+ b) +:+ c = a +:+ (b +:+ c).
Proof.
  induction a as [|x a IH]; [done|]. by rewrite !append_cons, IH.
Qed.

Lemma rev_app_append (s acc : string) :
  String.rev_app s acc = String.rev_app s "" +:+ acc.
Proof.
  revert acc. induction s as [|c s IH]; intros acc; [done|]. simpl.
  rewrite (IH (String c acc)), (IH (String c "")). by rewrite append_assoc.
Qed.

Lemma rev_cons (c : Ascii.ascii) (s : string) :
  String.rev (String c s) = String.rev s +:+ String c "".
Proof. unfold String.rev. simpl. apply rev_app_append. Qed.

Lemma append_nil_r (s : string) : s +:+ "" = s.
Proof. induction s as [|c s IH]; [done|]. by rewrite append_cons, IH. Qed.

Lemma split_spaces_start (s : string) :
  match s with String c _ => ¬ is_space c | "" => True end →
  split_spaces true s = split_spaces false s.
Proof.
  destruct s as [|c s]; [done|]. simpl. intros Hc.
  by rewrite (Is_true_false_1 _ Hc).
Qed.

Lemma split_spaces_word (w s h : string) (t : list string) :
  no_space w → split_spaces false s = h :: t →
  split_spaces false (w +:+ s) = (w +:+ h) :: t.
Proof.
  intros Hw Hs. induction w as [|c w IH]; [done|].
  rewrite !append_cons. simpl in *. apply andb_True in Hw as [Hc Hw].
  apply negb_True in Hc. by rewrite (Is_true_false_1 _ Hc), IH.
Qed.

Lemma split_spaces_gap (b : bool) (g s : string) :
  all_space g → g ≠ "" ∨ b = true →
  match s with String c _ => ¬ is_space c | "" => True end →
  split_spaces b (g +:+ s)
  = if b then split_spaces false s else "" :: split_spaces false s.
Proof.
  intros Hg Hne Hs. revert b Hne. induction g as [|c g IH]; intros b Hne.
  - destruct Hne as [?| ->]; [done|]. by apply split_spaces_start.
  - rewrite append_cons. simpl in *. apply andb_True in Hg as [Hc Hg].
    apply Is_true_true in Hc. rewrite Hc.
    destruct b; rewrite (IH Hg true) by (by right); done.
Qed.

Lemma word_start (w s : string) :
  word w → match w +:+ s with String c _ => ¬ is_space c | "" => True end.
Proof.
  intros [Hne Hw]. destruct w as [|c w]; [done|]. rewrite append_cons.
  simpl in *. apply andb_True in Hw as [Hc _]. by apply negb_True in Hc.
Qed.

Lemma split_spaces_tail (rest : list (string * string)) :
  Forall (λ gw, gap gw.1 ∧ word gw.2) rest →
  split_spaces false (foldr (λ gw rest, gw.1 +:+ gw.2 +:+ rest) "" rest)
  = "" :: rest.*2.
Proof.
  induction 1 as [|[g w] rest [(Hg & Hs & _) Hw] _ IH]; [done|].
  simpl in *.
  rewrite (split_spaces_gap false); [|done|by left|by apply word_start].
  f_equal. erewrite split_spaces_word; [|apply Hw|exact IH].
  by rewrite append_nil_r.
Qed.

Lemma split_spaces_row (row : DfRow) :
  row_ok row → split_spaces false (row_line row) = row_fields row.
Proof.
  intros [[_ Hw] Hrest]. unfold row_line, row_fields.
  erewrite split_spaces_word; [|done|by apply split_spaces_tail].
  by rewrite append_nil_r.
Qed.

Lemma split_lines_line (l rest : string) :
  no_line_feed l →
  split_lines (l +:+ String line_feed rest) = l :: split_lines rest.
Proof.
  induction l as [|c l IH]; intros Hl; rewrite ?append_cons, ?append_nil_l;
    cbn [split_lines no_line_feed] in *.
  - by rewrite decide_True.
  - apply andb_True in Hl as [Hc Hl]. apply negb_True in Hc.
    rewrite decide_False by (by intros ->; apply Hc, bool_decide_pack).
    by rewrite IH.
Qed.

Lemma split_lines_unlines (ls : list string) :
  Forall (λ l, no_line_feed l) ls → split_lines (unlines ls) = ls ++ [""].
Proof.
  induction 1 as [|l ls Hl _ IH]; [done|].
  simpl. by rewrite split_lines_line, IH.
Qed.

Lemma no_line_feed_app (a b : string) :
  no_line_feed a → no_line_feed b → no_line_feed (a +:+ b).
Proof.
  intros Ha Hb. induction a as [|c a IH]; [done|]. rewrite append_cons.
  simpl in *. apply andb_True in Ha as [? ?]. apply andb_True. auto.
Qed.

Lemma no_space_no_line_feed (s : string) : no_space s → no_line_feed s.
Proof.
  induction s as [|c s IH]; [done|]. simpl. intros [Hc Hs]%andb_True.
  apply andb_True. split; [|auto]. apply negb_True. intros Heq.
  apply bool_decide_unpack in Heq. subst c. by apply negb_True in Hc.
Qed.

Lemma row_line_no_line_feed (row : DfRow) :
  row_ok row → no_line_feed (row_line row).
Proof.
  intros [[_ Hw] Hrest]. unfold row_line.
  apply no_line_feed_app; [by apply no_space_no_line_feed|].
  induction Hrest as [|[g w] rest [(_ & _ & Hg) [_ Hw']] _ IH]; [done|].
  simpl in *. repeat apply no_line_feed_app;
    auto using no_space_no_line_feed.
Qed.

Lemma trim_start_end (a b : string) (c : Ascii.ascii) :
  ¬ is_space c → trim_start (a +:+ String c b) ≠ "".
Proof.
  intros Hc. induction a as [|d a IH]; rewrite ?append_cons, ?append_nil_l;
    simpl.
  - by rewrite (Is_true_false_1 _ Hc).
  - by destruct (is_space d).
Qed.

Lemma rev_not_empty (s : string) : s ≠ "" → String.rev s ≠ "".
Proof.
  destruct s as [|c s]; [done|]. intros _. rewrite rev_cons.
  destruct (String.rev s); by rewrite ?append_cons, ?append_nil_l.
Qed.

Lemma trim_not_empty (c : Ascii.ascii) (s : string) :
  ¬ is_space c → trim (String c s) ≠ "".
Proof.
  intros Hc. unfold trim. cbn [trim_start].
  rewrite (Is_true_false_1 _ Hc), rev_cons.
  by apply rev_not_empty, trim_start_end.
Qed.

Lemma row_line_trim (row : DfRow) : row_ok row → trim (row_line row) ≠ "".
Proof.
  intros [[Hne Hw] _]. unfold row_line.
  destruct row.1 as [|c w]; [done|]. rewrite append_cons. simpl in *.
  apply andb_True in Hw as [Hc _]. by apply trim_not_empty, negb_True.
Qed.

Lemma no_space_app (a b : string) :
  no_space a → no_space b → no_space (a +:+ b).
Proof.
  intros Ha Hb. induction a as [|c a IH]; [done|]. rewrite append_cons.
  simpl in *. apply andb_True in Ha as [? ?]. apply andb_True. auto.
Qed.

Lemma append_not_empty (a b : string) : b ≠ "" → a +:+ b ≠ "".
Proof. destruct a; [by rewrite append_nil_l|by rewrite append_cons]. Qed.

Lemma replace_percent_end (a : string) :
  no_percent a → replace_percent (a +:+ "%") = a.
Proof.
  induction a as [|c a IH]; [done|]. rewrite append_cons. simpl.
  intros [Hc Ha]%andb_True. apply negb_True in Hc.
  rewrite decide_False by (by intros ->; apply Hc, bool_decide_pack).
  by rewrite IH.
Qed.

Lemma line_row_ok (l : DfLine.t) : line_ok l → row_ok (line_row l).
Proof.
  intros (Hf & Hg1 & Hs & Hg2 & Hu & Hg3 & Ha & Hg4 & [Hp _] & Hg5 & Hm & Hmore).
  split; [done|]. simpl. repeat (constructor; [done|]).
  constructor; [|by constructor]. simpl.
  split; [done|]. split; [by apply append_not_empty|].
  by apply no_space_app.
Qed.

Lemma line_row_text (l : DfLine.t) : row_line (line_row l) = line_text l.
Proof.
  unfold row_line, line_row, line_text. cbn [fst snd foldr app].
  by rewrite !append_assoc.
Qed.

Lemma line_row_partition (l : DfLine.t) :
  line_ok l → partition_of (row_fields (line_row l)) = line_partition l.
Proof.
  intros (_ & _ & _ & _ & _ & _ & _ & _ & [_ Hp] & _).
  unfold partition_of, row_fields, line_row, line_partition. simpl.
  rewrite decide_True by (by apply append_not_empty).
  by rewrite replace_percent_end.
Qed.

(** X18: [checkDiskSpace] on an output of the usual form and nothing on the
    error stream: a header line, then lines of the six columns of [df -h]
    with gaps of white space between them, the Use% column being a number
    followed by ['%'], every line ended by a line feed. The result has one
    partition for each line after the header, in order: its filesystem,
    size, used, available and mountpoint are the first, second, third,
    fourth and sixth column, its usePercentage is the number of the fifth;
    words after the sixth column are dropped. *)
Theorem checkDiskSpace_usual_output (header : string) (lines : list DfLine.t) :
  no_line_feed header →
  Forall line_ok lines →
  checkDiskSpace
    (Ok (header +:+ String line_feed (unlines (line_text <$> lines)), ""))
  = Ok ((λ l, DiskPartition.mk (DfLine.filesystem l) (Some (DfLine.size l))
                (Some (DfLine.used l)) (Some (DfLine.available l))
                (DfLine.use l) (Some (DfLine.mountpoint l))) <$> lines).
Proof.
  intros Hh Hlines. unfold checkDiskSpace.
  rewrite decide_False by (by intros ?). f_equal.
  rewrite split_lines_line by done. cbn [drop].
  rewrite split_lines_unlines.
  - rewrite drop_0, filter_app, filter_cons_False, filter_nil, app_nil_r
      by (by intros ?).
    rewrite filter_all.
    + rewrite <-list_fmap_compose. apply Forall_fmap_ext_1.
      eapply Forall_impl; [exact Hlines|]. intros l Hl. simpl.
      unfold parse_line.
      rewrite <-line_row_text, split_spaces_row by (by apply line_row_ok).
      by apply line_row_partition.
    + apply Forall_fmap. eapply Forall_impl; [exact Hlines|].
      intros l Hl. simpl. rewrite <-line_row_text.
      by apply row_line_trim, line_row_ok.
  - apply Forall_fmap. eapply Forall_impl; [exact Hlines|].
    intros l Hl. simpl. rewrite <-line_row_text.
    by apply row_line_no_line_feed, line_row_ok.
Qed.

Lemma checkDiskSpace_usual_output_witness :
  no_line_feed example_header ∧
  Forall line_ok example_lines ∧
  checkDiskSpace (Ok (example_df, ""))
  = Ok ((λ l, DiskPartition.mk (DfLine.filesystem l) (Some (DfLine.size l))
                (Some (DfLine.used l)) (Some (DfLine.available l))
                (DfLine.use l) (Some (DfLine.mountpoint l)))
        <$> example_lines).
Proof.
  assert (Forall line_ok example_lines) as Hlines.
  { unfold example_lines, line_ok, word, gap.
    repeat (constructor; simpl; try done). }
  split; [exact I|]. split; [exact Hlines|].
  apply (checkDiskSpace_usual_output example_header example_lines I Hlines).
Defined.

(** The partitions of the example output; the mount point of the last
    line has a space in it, and is cut there. *)
Example df_output_ex :
  example_df
  = unlines ["Filesystem      Size  Used Avail Use% Mounted on";
             "/dev/sda1        50G   46G  4.0G  92% /";
             "tmpfs           3.9G     0  3.9G   0% /dev/shm";
             "/dev/sdb1       100G   85G   15G  85% /data";
             "/dev/sdc1 10G 1G 9G 10% /mnt/my disk"] ∧
  checkDiskSpace (Ok (example_df, ""))
  = Ok [DiskPartition.mk "/dev/sda1" (Some "50G") (Some "46G") (Some "4.0G")
          "92" (Some "/");
        DiskPartition.mk "tmpfs" (Some "3.9G") (Some "0") (Some "3.9G")
          "0" (Some "/dev/shm");
        DiskPartition.mk "/dev/sdb1" (Some "100G") (Some "85G") (Some "15G")
          "85" (Some "/data");
        DiskPartition.mk "/dev/sdc1" (Some "10G") (Some "1G") (Some "9G")
          "10" (Some "/mnt/my")].
Proof. split; reflexivity. Qed.

(** ** Alerts *)

Section monitor_properties.

Variable parseInt : string → option Z.
Variable toString : Z → string.

Lemma usage_ge_min usage a b :
  usage_ge usage (a `min` b) ↔ usage_ge usage a ∨ usage_ge usage b.
Proof. destruct usage as [u|]; simpl; [lia|tauto]. Qed.

Lemma monitor_fold_partitions (f : DiskPartition.t → list DiskSpaceAlert.t)
    (g : list DiskSpaceAlert.t → DiskPartition.t → list DiskSpaceAlert.t)
    (l : list DiskPartition.t) (acc : list DiskSpaceAlert.t) :
  (∀ acc p, g acc p = acc ++ f p) →
  foldl g acc l = acc ++ (l ≫= f).
Proof.
  intros Hg. revert acc. induction l as [|p l IH]; intros acc; simpl.
  - by rewrite app_nil_r.
  - by rewrite IH, Hg, <-app_assoc.
Qed.

(** X19: [monitorDiskSpace], when [checkDiskSpace] returned: the partitions
    returned are those whose filesystem starts neither with "tmpfs" nor
    with "efivarfs"; the alerts are for those of them, in order and once
    each, whose use percentage reads as a number that reaches one of the
    two thresholds, 90 and 80 unless given; an alert is critical exactly
    when the number reaches the critical threshold, so with a critical
    threshold that is not above the warning one no alert is a warning; a
    use percentage that does not read as a number raises no alert. *)
Theorem monitorDiskSpace_alerts (customThresholds : option Thresholds.t)
    (diskSpace : list DiskPartition.t) :
  ∃ partitions alerts,
    monitorDiskSpace parseInt toString customThresholds (Ok diskSpace)
    = Ok (partitions, alerts) ∧
    partitions
    = filter (λ p, ¬ String.prefix "tmpfs" (DiskPartition.filesystem p) ∧
                   ¬ String.prefix "efivarfs" (DiskPartition.filesystem p))
             diskSpace ∧
    DiskSpaceAlert.partition <$> alerts
    = filter (λ p, usage_ge (parseInt (DiskPartition.usePercentage p))
                     (default 90 (customThresholds ≫= Thresholds.critical)
                      `min`
                      default 80 (customThresholds ≫= Thresholds.warning)))
             partitions ∧
    Forall (λ a, DiskSpaceAlert.level a = critical
                 ↔ usage_ge (parseInt (DiskPartition.usePercentage
                                         (DiskSpaceAlert.partition a)))
                      (default 90 (customThresholds ≫= Thresholds.critical)))
           alerts ∧
    (default 90 (customThresholds ≫= Thresholds.critical)
     ≤ default 80 (customThresholds ≫= Thresholds.warning) →
     Forall (λ a, DiskSpaceAlert.level a = critical) alerts).
Proof.
  eexists _, _. split; [reflexivity|]. split; [reflexivity|].
  set (critical_ := default 90 (customThresholds ≫= Thresholds.critical)).
  set (warning_ := default 80 (customThresholds ≫= Thresholds.warning)).
  set (partitions := filter _ diskSpace). clearbody partitions.
  set (f := λ p : DiskPartition.t,
         let usage := parseInt (DiskPartition.usePercentage p) in
         if decide (usage_ge usage critical_) then
           [DiskSpaceAlert.mk p critical
              ("CRITICAL: " +:+ text_of (DiskPartition.mountpoint p)
               +:+ " is at " +:+ toString (default 0 usage) +:+ "% usage!")]
         else if decide (usage_ge usage warning_) then
           [DiskSpaceAlert.mk p warning
              ("WARNING: " +:+ text_of (DiskPartition.mountpoint p)
               +:+ " is at " +:+ toString (default 0 usage) +:+ "% usage")]
         else []).
  rewrite (monitor_fold_partitions f).
  2:{ intros acc p. unfold f. simpl. repeat case_decide; by rewrite ?app_nil_r. }
  rewrite app_nil_l.
  assert (Forall (λ a, (DiskSpaceAlert.level a = critical
                        ↔ usage_ge (parseInt (DiskPartition.usePercentage
                                                (DiskSpaceAlert.partition a)))
                             critical_) ∧
                       (DiskSpaceAlert.level a = warning →
                        usage_ge (parseInt (DiskPartition.usePercentage
                                              (DiskSpaceAlert.partition a)))
                          warning_))
                 (partitions ≫= f)) as Hlevels.
  { apply Forall_forall. intros a (p & Ha & _)%list_elem_of_bind.
    unfold f in Ha. simpl in Ha.
    repeat case_decide; try (by apply elem_of_nil in Ha);
      apply list_elem_of_singleton in Ha; subst a; simpl; split; done. }
  split; [|split].
  - induction partitions as [|p l IH]; [done|].
    rewrite bind_cons, fmap_app, filter_cons, IH.
    2:{ rewrite bind_cons in Hlevels. by apply Forall_app in Hlevels as [_ ?]. }
    unfold f at 1. simpl.
    destruct (decide (usage_ge _ (critical_ `min` warning_))) as [Hm|Hm];
      rewrite usage_ge_min in Hm; repeat case_decide; simpl; try done; tauto.
  - eapply Forall_impl; [exact Hlevels|]. by intros a [? _].
  - intros Hle. eapply Forall_impl; [exact Hlevels|].
    intros a [Hc Hw]. destruct (DiskSpaceAlert.level a); [done|].
    apply Hc. specialize (Hw eq_refl).
    destruct (parseInt _); simpl in *; [lia|done].
Qed.

End monitor_properties.

(** * Test data *)

(** X20: for a number [rand] up to 100, and [Math.random() * 100] is below
    100, [getWeightedReferrer] returns one of the keys of [REFERRERS] and
    never [null]: above 95 it returns the string "null". So the referrer
    of a generated event is never empty, and the events meant as direct
    traffic carry the referrer "null". *)
Theorem weighted_referrer_never_null (rand : QArith_base.Q) :
  QArith_base.Qle rand (QArith_base.inject_Z 100) →
  ∃ referrer,
    getWeightedReferrer rand = Some referrer ∧
    generated_referrer rand = referrer ∧
    referrer ∈ REFERRERS.*1 ∧
    referrer ≠ "" ∧
    (referrer = "null"
     ↔ QArith_base.Qlt (QArith_base.inject_Z 95) rand).
Proof.
  intros Hle. unfold generated_referrer, getWeightedReferrer, REFERRERS.
  unfold QArith_base.Qle, QArith_base.Qlt in *. simpl in Hle.
  cbn [weighted Z.add].
  repeat match goal with
  | |- context [QArith_base.Qle_bool rand ?q] =>
      let H := fresh "H" in
      destruct (QArith_base.Qle_bool rand q) eqn:H;
      [apply QArith_base.Qle_bool_iff in H
      |apply not_true_iff_false in H;
       rewrite QArith_base.Qle_bool_iff in H];
      unfold QArith_base.Qle in H; simpl in H
  end.
  all: try (eexists; split; [reflexivity|]; split; [reflexivity|];
            split; [simpl; by repeat constructor|]; split; [done|]; simpl; split;
            [try done; intros _; lia|try done; intros ?; lia]).
  exfalso. lia.
Qed.

Lemma weighted_referrer_never_null_witness :
  QArith_base.Qle (QArith_base.inject_Z 97) (QArith_base.inject_Z 100) ∧
  ∃ referrer,
    getWeightedReferrer (QArith_base.inject_Z 97) = Some referrer ∧
    generated_referrer (QArith_base.inject_Z 97) = referrer ∧
    referrer ∈ REFERRERS.*1 ∧
    referrer ≠ "" ∧
    (referrer = "null"
     ↔ QArith_base.Qlt (QArith_base.inject_Z 95) (QArith_base.inject_Z 97)).
Proof.
  assert (QArith_base.Qle (QArith_base.inject_Z 97) (QArith_base.inject_Z 100))
    as Hle by (unfold QArith_base.Qle; simpl; lia).
  split; [exact Hle|].
  exact (weighted_referrer_never_null (QArith_base.inject_Z 97) Hle).
Defined.
